(** * dpilot: car interface, radar interface and drive helpers

    A shallow embedding of the parts of
      - selfdrive/car/interfaces.py
      - selfdrive/car/hyundai/interface.py
      - selfdrive/car/hyundai/radar_interface.py
      - selfdrive/controls/lib/drive_helpers.py
      - selfdrive/controls/lib/longitudinal_planner.py
    that the specification makes statements about, the proofs of those
    statements, and further properties of the same code.

    Conventions.  Python floats are modelled by exact numbers: rationals [Q]
    where the code only adds, multiplies, divides, compares and rounds, and
    reals [R] where it takes a square root.  Python integers are [Z].
    Objects that a method mutates ([self]) are records threaded through the
    function: a method returns the new object state next to its result.
    Code that can raise returns a [result]. *)

From Stdlib Require Import ZArith QArith Qround Qabs List Bool Lia Lra Reals.
From Stdlib Require Lqa.
From stdpp Require Import base option list gmap strings.

Set Default Proof Using "Type".

(** ** Exceptions *)

Inductive exn : Type :=
| RuntimeError          (* configuration conflict *)
| NotImplementedError   (* not found *)
| ValueError            (* invalid input *)
| KeyError
| IndexError
| ZeroDivisionError
| NameError.            (* a name bound nowhere *)

Inductive result (A : Type) : Type :=
| Ok (a : A)
| Raise (e : exn).
Arguments Ok {A} a.
Arguments Raise {A} e.

#[global] Instance result_ret : MRet result := fun A a => Ok a.
#[global] Instance result_bind : MBind result := fun A B k r =>
  match r with
  | Ok a => k a
  | Raise e => Raise e
  end.

(** ** Numbers and the helpers of common.numpy_fast *)

Module NumpyFast.

(** The float operations the code uses, over the number type that models
    the floats of a function. *)
Class Arith (A : Type) : Type := {
  a_ltb : A -> A -> bool;
  a_add : A -> A -> A;
  a_sub : A -> A -> A;
  a_mul : A -> A -> A;
  a_div : A -> A -> A
}.

#[global] Instance Q_arith : Arith Q := {
  a_ltb x y := negb (Qle_bool y x);
  a_add := Qplus; a_sub := Qminus; a_mul := Qmult; a_div := Qdiv
}.

#[global] Instance R_arith : Arith R := {
  a_ltb x y := if Rlt_dec x y then true else false;
  a_add := Rplus; a_sub := Rminus; a_mul := Rmult; a_div := Rdiv
}.

Section WithArith.
Context {A : Type} `{Arith A}.

(** Python's [min(a, b)] and [max(a, b)]: the first argument unless the
    second is strictly smaller (greater). *)
Definition py_min (a b : A) : A := if a_ltb b a then b else a.
Definition py_max (a b : A) : A := if a_ltb a b then b else a.

(** Modelled from the spec: [clip] of common.numpy_fast, which is not among
    the sources; the specification uses it as the clamp of a value to
    [lo, hi] ("clip(50/20,1,5)=2.5"; "clamped to [8, 180]"), which
    numpy_fast writes [max(lo, min(hi, x))]. *)
Definition clip (x lo hi : A) : A := py_max lo (py_min hi x).

(** [lst[i]] for [0 <= i]. *)
Definition getitem (l : list A) (i : nat) : result A :=
  match l !! i with
  | Some x => Ok x
  | None => Raise IndexError
  end.

(** The [while hi < N and xv > xp[hi]: hi += 1] loop, on the part of [xp]
    from index [hi] on. *)
Fixpoint find_hi (xv : A) (xp : list A) (hi : nat) : nat :=
  match xp with
  | [] => hi
  | x :: xp' => if a_ltb x xv then find_hi xv xp' (S hi) else hi
  end.

(** Modelled from the spec: [interp] of common.numpy_fast, which is not
    among the sources; the specification calls it linear interpolation over
    a grid of breakpoints ("interpolated {20,40} -> {1.7,3.2}").  Beyond the
    last breakpoint the last value, up to the first breakpoint the first
    value, in between the line through the two neighbours. *)
Definition interp (xv : A) (xp fp : list A) : result A :=
  let N := length xp in
  let hi := find_hi xv xp 0 in
  let low := Nat.pred hi in
  beyond ← (if Nat.eqb hi N
            then xl ← (match hi with
                       | O => Raise IndexError     (* xp[-1] of an empty list *)
                       | S _ => getitem xp low
                       end);
                 Ok (a_ltb xl xv)
            else Ok false);
  if (beyond : bool) then
    match last fp with               (* fp[-1] *)
    | Some y => Ok y
    | None => Raise IndexError
    end
  else if Nat.eqb hi 0 then getitem fp 0
  else
    xl ← getitem xp low;
    fh ← getitem fp hi;
    fl ← getitem fp low;
    xh ← getitem xp hi;
    Ok (a_add (a_div (a_mul (a_sub xv xl) (a_sub fh fl)) (a_sub xh xl)) fl).

End WithArith.

End NumpyFast.

(** ** hyundai/radar_interface.py: RadarInterface._update *)

Module Radar.
Import NumpyFast.

(** A float field that can hold not-a-number. *)
Inductive float : Type :=
| Fin (q : Q)
| NaN.

Record RadarPoint : Type := mkRadarPoint {
  trackId : Z;
  dRel : Q;
  yRel : Q;
  vRel : Q;
  aRel : float;
  yvRel : float;
  measured : bool
}.

(** [car.RadarData.RadarPoint.new_message()]. *)
Definition new_message : RadarPoint :=
  mkRadarPoint 0 0 0 0 (Fin 0) (Fin 0) false.

(** The signals of the SCC11 message ([self.rcp.vl["SCC11"]]). *)
Record SCC11 : Type := mkSCC11 {
  ACC_ObjStatus : Q;
  ACC_ObjDist : Q;
  ACC_ObjLatPos : Q;
  ACC_ObjRelSpd : Q
}.

(** The CAN parser [self.rcp] as [_update] reads it. *)
Record CANParser : Type := mkCANParser {
  can_valid : bool;
  vl_SCC11 : SCC11
}.

(** The fields of the interface object that [_update] reads or writes
    ([new_radar] is [False] in [__init__] and never assigned again). *)
Record RadarInterface : Type := mkRadarInterface {
  pts : gmap Z RadarPoint;
  track_id : Z;
  prev_dist : Q;
  rcp : option CANParser
}.

(** [RadarInterface.__init__] with the parser it was given. *)
Definition init (rcp : option CANParser) : RadarInterface :=
  mkRadarInterface ∅ 0 0 rcp.

Inductive RadarError : Type := canError.

(** [car.RadarData]: the fields [_update] fills. *)
Record RadarData : Type := mkRadarData {
  errors : list RadarError;
  points : list RadarPoint
}.

(** Truth value of a number. *)
Definition truthy (q : Q) : bool := negb (Qeq_bool q 0).

(** [abs(dist - self.prev_dist) > clip(dist/20., 1., 5.)]. *)
Definition jumped (dist prev : Q) : bool :=
  a_ltb (clip (dist / 20) 1 5)%Q (Qabs.Qabs (dist - prev)%Q).

(** The assignments to the fields of [self.pts[target_id]]. *)
Definition set_fields (dist : Q) (msg : SCC11) (p : RadarPoint) : RadarPoint :=
  mkRadarPoint (trackId p) dist (- ACC_ObjLatPos msg)%Q (ACC_ObjRelSpd msg)
    NaN NaN true.

(** [list(self.pts.values())]. *)
Definition values (m : gmap Z RadarPoint) : list RadarPoint :=
  (map_to_list m).*2.

(** [_update], with [new_radar] false. *)
Definition _update (self : RadarInterface) : RadarInterface * RadarData :=
  match rcp self with
  | None => (self, mkRadarData [] [])
  | Some parser =>
      let errors := if can_valid parser then [] else [canError] in
      let msg := vl_SCC11 parser in
      if truthy (ACC_ObjStatus msg) then
        let dist := ACC_ObjDist msg in
        let pts1 := if jumped dist (prev_dist self) then ∅ else pts self in
        let target_id := 0%Z in
        let '(pts2, track_id2) :=
          match pts1 !! target_id with
          | Some _ => (pts1, track_id self)
          | None =>
              (<[target_id := mkRadarPoint (track_id self) 0 0 0 (Fin 0) (Fin 0)
                                false]> pts1,
               (track_id self + 1)%Z)
          end in
        let pts3 := alter (set_fields dist msg) target_id pts2 in
        (mkRadarInterface pts3 track_id2 dist (rcp self),
         mkRadarData errors (values pts3))
      else
        (mkRadarInterface ∅ (track_id self) (prev_dist self) (rcp self),
         mkRadarData errors (values ∅))
  end.

(** One cycle: the parser has decoded new frames, then [_update] runs. *)
Definition step (self : RadarInterface) (parser : CANParser) : RadarInterface :=
  fst (_update (mkRadarInterface (pts self) (track_id self) (prev_dist self)
                  (Some parser))).

(** The object after a sequence of cycles, oldest first. *)
Definition run (cycles : list CANParser) : RadarInterface :=
  fold_left step cycles (init None).

(** A valid reading of an object at the given distance. *)
Definition reading (dist : Q) : CANParser :=
  mkCANParser true (mkSCC11 1 dist 0 0).

(** Every track id in use is below the next id to allocate. *)
Definition ids_below (s : RadarInterface) : Prop :=
  forall k p, pts s !! k = Some p -> (trackId p < track_id s)%Z.

End Radar.

(** ** interfaces.py: CarStateBase, the stalk-based blinker debounce *)

Module Blinker.

Record CarStateBase : Type := mkCarStateBase {
  left_blinker_cnt : Z;
  right_blinker_cnt : Z;
  left_blinker_prev : bool;
  right_blinker_prev : bool
}.

(** [CarStateBase.__init__]: the fields the blinker logic uses. *)
Definition init : CarStateBase := mkCarStateBase 0 0 false false.

(** [CarStateBase.update_blinker_from_stalk]; the statements of the method
    are the successive [let]s. *)
Definition update_blinker_from_stalk (self : CarStateBase) (blinker_time : Z)
    (left_blinker_stalk right_blinker_stalk : bool)
  : CarStateBase * (bool * bool) :=
  let lc := left_blinker_cnt self in
  let rc := right_blinker_cnt self in
  (* if left_blinker_stalk: *)
  let rc := if left_blinker_stalk then 0%Z else rc in
  let lc := if left_blinker_stalk && negb (left_blinker_prev self)
            then blinker_time else lc in
  (* if right_blinker_stalk: *)
  let lc := if right_blinker_stalk then 0%Z else lc in
  let rc := if right_blinker_stalk && negb (right_blinker_prev self)
            then blinker_time else rc in
  let lc := Z.max (lc - 1) 0 in
  let rc := Z.max (rc - 1) 0 in
  (mkCarStateBase lc rc left_blinker_stalk right_blinker_stalk,
   (left_blinker_stalk || (0 <? lc)%Z, right_blinker_stalk || (0 <? rc)%Z)).

(** One call per cycle: the arguments of a cycle. *)
Definition call : Type := (Z * bool * bool)%type.

Definition step (self : CarStateBase) (c : call) : CarStateBase :=
  let '(bt, l, r) := c in fst (update_blinker_from_stalk self bt l r).

(** The object after a sequence of calls, oldest first. *)
Definition run (calls : list call) : CarStateBase := fold_left step calls init.

(** At least one of the two counters is zero. *)
Definition one_side_idle (s : CarStateBase) : Prop :=
  left_blinker_cnt s = 0%Z \/ right_blinker_cnt s = 0%Z.

End Blinker.

(** ** interfaces.py: CarInterfaceBase.create_common_events *)

Module CommonEvents.

Inductive GearShifter : Type :=
| unknown | park | drive | neutral | reverse | sport | low | brake | eco
| manumatic.

Inductive EventName : Type :=
| reverseGear | wrongCarMode | espDisabled | stockFcw | stockAeb
| speedTooHigh | wrongCruiseMode | parkBrake
| steerTempUnavailableSilent | steerTempUnavailable | steerUnavailable
| pcmEnable | pcmDisable.

Definition gear_eqb (a b : GearShifter) : bool :=
  match a, b with
  | unknown, unknown | park, park | drive, drive | neutral, neutral
  | reverse, reverse | sport, sport | low, low | brake, brake | eco, eco
  | manumatic, manumatic => true
  | _, _ => false
  end.

Definition event_eqb (a b : EventName) : bool :=
  match a, b with
  | reverseGear, reverseGear | wrongCarMode, wrongCarMode
  | espDisabled, espDisabled | stockFcw, stockFcw | stockAeb, stockAeb
  | speedTooHigh, speedTooHigh | wrongCruiseMode, wrongCruiseMode
  | parkBrake, parkBrake
  | steerTempUnavailableSilent, steerTempUnavailableSilent
  | steerTempUnavailable, steerTempUnavailable
  | steerUnavailable, steerUnavailable
  | pcmEnable, pcmEnable | pcmDisable, pcmDisable => true
  | _, _ => false
  end.

(** The fields of [car.CarState] that the method reads. *)
Record CarState : Type := mkCarState {
  gearShifter : GearShifter;
  cruise_available : bool;      (* cruiseState.available *)
  cruise_enabled : bool;        (* cruiseState.enabled *)
  cruise_nonAdaptive : bool;    (* cruiseState.nonAdaptive *)
  espDisabled_ : bool;
  stockFcw_ : bool;
  stockAeb_ : bool;
  vEgo : Q;
  parkingBrake : bool;
  steeringPressed : bool;
  steerFaultTemporary : bool;
  steerFaultPermanent : bool;
  standstill : bool
}.

(** The fields of the interface object that the method reads or writes;
    [CS_out] is [self.CS.out], the car state of the previous cycle. *)
Record CarInterfaceBase : Type := mkCarInterfaceBase {
  steering_unpressed : Z;
  silent_steer_warning : bool;
  no_steer_warning : bool;
  CS_out : CarState
}.

(** [Events]: [add] appends to the list of names. *)
Definition Events : Type := list EventName.
Definition add (events : Events) (e : EventName) : Events := events ++ [e].
Definition add_if (c : bool) (e : EventName) (events : Events) : Events :=
  if c then add events e else events.
Definition has (events : Events) (e : EventName) : bool :=
  existsb (event_eqb e) events.

Definition V_CRUISE_MAX : Q := 180.

Section WithConstants.

(** [CV.KPH_TO_MS] (common.conversions) and [int(1.5 / DT_CTRL)]
    (common.realtime) are constants defined outside these sources. *)
Variable KPH_TO_MS : Q.
Variable unpressed_limit : Z.

Definition MAX_CTRL_SPEED : Q := (V_CRUISE_MAX + 4) * KPH_TO_MS.

(** The block "Handle permanent and temporary steering faults": the new
    [steering_unpressed], [silent_steer_warning], [no_steer_warning] and
    the events with what the block added. *)
Definition steering_faults (self : CarInterfaceBase) (cs_out : CarState)
    (events : Events) : Z * bool * bool * Events :=
  let unpressed := if steeringPressed cs_out then 0%Z
                   else (steering_unpressed self + 1)%Z in
  let '(silent, no_steer, events) :=
    if steerFaultTemporary cs_out then
      if steeringPressed cs_out
         && (negb (steerFaultTemporary (CS_out self)) || no_steer_warning self)
      then (silent_steer_warning self, true, events)
      else
        if silent_steer_warning self || standstill cs_out
           || (unpressed <? unpressed_limit)%Z
        then (true, false, add events steerTempUnavailableSilent)
        else (silent_steer_warning self, false, add events steerTempUnavailable)
    else (false, false, events) in
  let events := add_if (steerFaultPermanent cs_out) steerUnavailable events in
  (unpressed, silent, no_steer, events).

(** [create_common_events(self, cs_out, extra_gears, pcm_enable)];
    [extra_gears] is only read by code that is commented out.  The method
    does not assign [self.CS.out]: [update] does that afterwards. *)
Definition create_common_events (self : CarInterfaceBase) (cs_out : CarState)
    (pcm_enable : bool) : CarInterfaceBase * Events :=
  let events : Events := [] in
  let events := add_if (gear_eqb (gearShifter cs_out) reverse) reverseGear events in
  let events := add_if (negb (cruise_available cs_out)) wrongCarMode events in
  let events := add_if (espDisabled_ cs_out) espDisabled events in
  let events := add_if (stockFcw_ cs_out) stockFcw events in
  let events := add_if (stockAeb_ cs_out) stockAeb events in
  let events := add_if (negb (Qle_bool (vEgo cs_out) MAX_CTRL_SPEED))
                  speedTooHigh events in
  let events := add_if (cruise_nonAdaptive cs_out) wrongCruiseMode events in
  let events := add_if (parkingBrake cs_out) parkBrake events in
  let '(unpressed, silent, no_steer, events) :=
    steering_faults self cs_out events in
  let events :=
    if pcm_enable then
      if cruise_enabled cs_out && negb (cruise_enabled (CS_out self))
      then add events pcmEnable
      else add_if (negb (cruise_enabled cs_out)) pcmDisable events
    else events in
  let events :=
    add_if (cruise_enabled cs_out
            && gear_eqb (gearShifter cs_out) drive
            && negb (Qle_bool (vEgo cs_out) (5 * KPH_TO_MS)))
      pcmEnable events in
  (mkCarInterfaceBase unpressed silent no_steer (CS_out self), events).

End WithConstants.

(** A freshly constructed interface ([__init__]) whose previous car state is
    an empty message, and a car state that reports a temporary steering
    fault while the driver presses the wheel. *)
Definition cs_empty : CarState :=
  mkCarState unknown false false false false false false 0 false
    false false false false.
Definition self_fresh : CarInterfaceBase := mkCarInterfaceBase 0 true false cs_empty.
Definition cs_fault_pressed : CarState :=
  mkCarState drive true true false false false false 20 false
    true true false false.
Definition self_faulted : CarInterfaceBase :=
  mkCarInterfaceBase 0 false false cs_fault_pressed.

End CommonEvents.

(** ** interfaces.py: get_torque_params *)

Module TorqueParams.

(** A scalar of the YAML files: a name or a number.  The numbers are only
    copied, so their type [V] is left open. *)
Inductive cell (V : Type) : Type :=
| CStr (s : string)
| CNum (v : V).
Arguments CStr {V} s.
Arguments CNum {V} v.

#[global] Instance cell_eq_dec `{EqDecision V} : EqDecision (cell V).
Proof. solve_decision. Defined.

#[global] Program Instance cell_countable `{Countable V} : Countable (cell V) :=
  inj_countable'
    (fun c => match c with CStr s => inl s | CNum v => inr v end)
    (fun x => match x with inl s => CStr s | inr v => CNum v end) _.
Next Obligation. now intros V ? ? [s|v]. Qed.

Section WithValues.
Context `{Countable V}.

(** [k in d] for a dict. *)
Definition py_in {A} (k : string) (d : gmap string A) : bool :=
  bool_decide (is_Some (d !! k)).

Definition bool_to_Z (b : bool) : Z := if b then 1 else 0.

(** The dict comprehension [{key: out[i] for i, key in enumerate(legend)}]:
    keys in the legend's order, a later key replacing an equal earlier one;
    [out[i]] raises IndexError past the end of the row. *)
Fixpoint keyed_by (legend : list (cell V)) (i : nat) (out : list (cell V))
    (acc : gmap (cell V) (cell V)) : result (gmap (cell V) (cell V)) :=
  match legend with
  | [] => Ok acc
  | key :: legend' =>
      match out !! i with
      | Some v => keyed_by legend' (S i) out (<[key := v]> acc)
      | None => Raise IndexError
      end
  end.

(** [get_torque_params(candidate)]; the three YAML files it loads are the
    arguments [sub], [params] and [override]. *)
Definition get_torque_params (sub : gmap string string)
    (params override : gmap string (list (cell V))) (candidate : string)
  : result (gmap (cell V) (cell V)) :=
  let candidate := match sub !! candidate with
                   | Some c => c
                   | None => candidate
                   end in
  (* Ensure no overlap *)
  if (1 <? bool_to_Z (py_in candidate sub) + bool_to_Z (py_in candidate params)
           + bool_to_Z (py_in candidate override))%Z
  then Raise RuntimeError
  else
    out ← match override !! candidate with
          | Some row => Ok row
          | None => match params !! candidate with
                    | Some row => Ok row
                    | None => Raise NotImplementedError
                    end
          end;
    legend ← match params !! "legend"%string with
             | Some l => Ok l
             | None => Raise KeyError
             end;
    keyed_by legend 0 out ∅.

End WithValues.

(** Example files: a base table with two cars, an override for a third and
    for one of the base cars, and a substitution. *)
Definition legend_ex : list (cell Z) :=
  [CStr "LAT_ACCEL_FACTOR"; CStr "MAX_LAT_ACCEL_MEASURED"; CStr "FRICTION"]%string.
Definition params_ex : gmap string (list (cell Z)) :=
  <["legend"%string := legend_ex]>
  (<["KIA NIRO"%string := [CNum 29%Z; CNum 15%Z; CNum 1%Z]]>
  (<["GENESIS G80"%string := [CNum 25%Z; CNum 27%Z; CNum 2%Z]]> ∅)).
Definition override_ex : gmap string (list (cell Z)) :=
  <["KIA NIRO"%string := [CNum 30%Z; CNum 16%Z; CNum 1%Z]]>
  (<["KIA STINGER"%string := [CNum 31%Z; CNum 18%Z; CNum 2%Z]]> ∅).
Definition sub_ex : gmap string string :=
  <["GENESIS G90"%string := "GENESIS G80"%string]> ∅.

End TorqueParams.

(** ** interfaces.py: FluxModel.evaluate *)

Module FluxModel.

(** The model object: the declared input size, and the rest of [evaluate]
    after the length handling (conversion to a float32 array, rescaling by
    [input_mean] and [input_std], the forward pass and the extraction of
    the scalar), which numpy computes, as a function of the list handed
    to it. *)
Record FluxModel : Type := mkFluxModel {
  input_size : Z;
  rescale_and_forward : list Q -> result Q
}.

(** Lines 114 to 121 of [evaluate]: the list handed to numpy.
    [[0] * n] is empty for [n <= 0]. *)
Definition pad_input (size : Z) (input_array : list Q) : result (list Q) :=
  let in_len := Z.of_nat (length input_array) in
  if negb (in_len =? size)%Z then
    if (2 <=? in_len)%Z
    then Ok (input_array ++ repeat (0 : Q) (Z.to_nat (size - in_len)))
    else Raise ValueError
  else Ok input_array.

Definition evaluate (self : FluxModel) (input_array : list Q) : result Q :=
  input_array ← pad_input (input_size self) input_array;
  rescale_and_forward self input_array.

(** Example models: one declaring one input, whose numeric part returns
    its first input; one declaring five inputs, whose numeric part returns
    how many it was handed. *)
Definition one_input_model : FluxModel :=
  mkFluxModel 1 (fun x => match x with
                          | v :: _ => Ok v
                          | [] => Raise IndexError
                          end).
Definition five_input_model : FluxModel :=
  mkFluxModel 5 (fun x => Ok (Z.of_nat (length x) # 1)).

End FluxModel.

(** ** hyundai/interface.py: CarInterface._get_params, bus topology *)

Module Hyundai.

(** [fingerprint]: for each bus, the message ids seen with their lengths. *)
Abbreviation fingerprint := (gmap Z (gmap Z Z)).

Inductive SafetyModel : Type := hyundaiLegacy | hyundaiCommunity.

(** [get_safety_config(model, param)]. *)
Definition get_safety_config (m : SafetyModel) (param : Z) : SafetyModel * Z :=
  (m, param).

(** The persisted flags ([Params().get_bool]) this part reads. *)
Record Params : Type := mkParams {
  LongControlEnabled : bool;
  MadModeEnabled : bool
}.

(** The fields of [car.CarParams] this part writes. *)
Record CarParams : Type := mkCarParams {
  openpilotLongitudinalControl : bool;
  safetyConfigs : list (SafetyModel * Z);
  enableBsm : bool;
  enableAutoHold : bool;
  mdpsBus : Z;
  sasBus : Z;
  sccBus : Z;
  hasScc13 : bool;
  hasScc14 : bool;
  hasEms : bool;
  hasLfaHda : bool;
  radarOffCan : bool;
  pcmCruise : bool;
  minSteerSpeed : Q
}.

(** [fingerprint[bus]]. *)
Definition getitem (fp : fingerprint) (bus : Z) : result (gmap Z Z) :=
  match fp !! bus with
  | Some ids => Ok ids
  | None => Raise KeyError
  end.

(** [id in fingerprint[bus]], the bus being given. *)
Definition seen (id : Z) (ids : gmap Z Z) : bool :=
  bool_decide (is_Some (ids !! id)).

(** [_get_params]: lines 42 and 45, and lines 323 to 354.  The lines in
    between set tuning values by car model and none of the fields below. *)
Definition _get_params (params : Params) (ret : CarParams) (fp : fingerprint)
  : result CarParams :=
  let opLong := LongControlEnabled params in
  let safety := [get_safety_config hyundaiLegacy 0] in
  f0 ← getitem fp 0;
  let enableBsm' := seen 1419 f0 in        (* 0x58b *)
  let enableAutoHold' := seen 1151 f0 in
  f1 ← getitem fp 1;
  let mdpsBus' := if seen 593 f1 && negb (seen 1296 f1) then 1%Z else 0%Z in
  let sasBus' := if seen 688 f1 && negb (seen 1296 f1) then 1%Z else 0%Z in
  sccBus' ← (if seen 1056 f0 then Ok 0%Z
             else if seen 1056 f1 && negb (seen 1296 f1) then Ok 1%Z
             else f2 ← getitem fp 2;
                  Ok (if seen 1056 f2 then 2%Z else (-1)%Z));
  scc ← (if (0 <=? sccBus')%Z
         then fs ← getitem fp sccBus'; Ok (seen 1290 fs, seen 905 fs)
         else Ok (hasScc13 ret, hasScc14 ret));
  let hasEms' := seen 608 f0 && seen 809 f0 in
  let hasLfaHda' := seen 1157 f0 in
  let radarOffCan' := (sccBus' =? -1)%Z in
  let pcmCruise' := negb radarOffCan' in
  let smartMdps := seen 682 f0 in          (* 0x2AA *)
  let minSteerSpeed' := if smartMdps then 0%Q else minSteerSpeed ret in
  let safety :=
    if radarOffCan' || (mdpsBus' =? 1)%Z || opLong || (sccBus' =? 1)%Z
       || MadModeEnabled params
    then [get_safety_config hyundaiCommunity 0]
    else safety in
  Ok (mkCarParams opLong safety enableBsm' enableAutoHold' mdpsBus' sasBus'
        sccBus' (fst scc) (snd scc) hasEms' hasLfaHda' radarOffCan'
        pcmCruise' minSteerSpeed').

(** The SCC bus as the specification words it, from the three bus maps. *)
Definition scc_bus_of (f0 f1 f2 : gmap Z Z) : Z :=
  if seen 1056 f0 then 0
  else if seen 1056 f1 && negb (seen 1296 f1) then 1
  else if seen 1056 f2 then 2
  else -1.

(** [get_std_params] as far as the fields above go, and fingerprints of a
    car without SCC on any bus and of a car with SCC on bus 2. *)
Definition std_params : CarParams :=
  mkCarParams false [] false false 0 0 0 false false false false false true 0.
Definition fp_no_scc : fingerprint :=
  <[0%Z := <[593%Z := 8%Z]> (<[1151%Z := 6%Z]> ∅)]>
  (<[1%Z := ∅]> (<[2%Z := ∅]> (<[3%Z := ∅]> ∅))).
Definition fp_scc_bus2 : fingerprint :=
  <[0%Z := <[593%Z := 8%Z]> ∅]>
  (<[1%Z := ∅]> (<[2%Z := <[1056%Z := 8%Z]> (<[1290%Z := 8%Z]> ∅)]> ∅)).

End Hyundai.

(** ** drive_helpers.py: update_v_cruise *)

Module Cruise.
Import NumpyFast.

(** [car.CarState.ButtonEvent.Type], an enum of the message schema (outside
    these sources), with its ordinals [raw]. *)
Inductive ButtonType : Type :=
| unknown | leftBlinker | rightBlinker | accelCruise | decelCruise | cancel
| altButton1 | altButton2 | altButton3 | setCruise | resumeCruise
| gapAdjustCruise.

Definition raw (t : ButtonType) : Z :=
  match t with
  | unknown => 0 | leftBlinker => 1 | rightBlinker => 2 | accelCruise => 3
  | decelCruise => 4 | cancel => 5 | altButton1 => 6 | altButton2 => 7
  | altButton3 => 8 | setCruise => 9 | resumeCruise => 10
  | gapAdjustCruise => 11
  end.

Record ButtonEvent : Type := mkButtonEvent {
  type_ : ButtonType;
  pressed : bool
}.

Definition V_CRUISE_MAX : Q := 180.
Definition V_CRUISE_MIN : Q := 8.
Definition CRUISE_LONG_PRESS : Z := 50.

(** The two dicts keyed by button type; a missing key is a KeyError. *)
Definition CRUISE_NEAREST_FUNC (t : ButtonType) : result (Q -> Z) :=
  match t with
  | accelCruise => Ok Qceiling
  | decelCruise => Ok Qfloor
  | _ => Raise KeyError
  end.

Definition CRUISE_INTERVAL_SIGN (t : ButtonType) : result Q :=
  match t with
  | accelCruise => Ok 1%Q
  | decelCruise => Ok (-1)%Q
  | _ => Raise KeyError
  end.

(** [button_timers]: a dict from raw button type to hold time, in the order
    of its keys. *)
Definition timers : Type := list (ButtonType * Z).

Fixpoint lookup_timer (t : ButtonType) (button_timers : timers) : option Z :=
  match button_timers with
  | [] => None
  | (k, n) :: rest =>
      if (raw k =? raw t)%Z then Some n else lookup_timer t rest
  end.

(** How the [for b in buttonEvents] loop ends. *)
Inductive scan : Type :=
| NoBreak                      (* the loop ran to its end: the [else] runs *)
| EndLongPress                 (* [return v_cruise_kph] *)
| ShortPress (t : ButtonType). (* [break] *)

Fixpoint scan_events (buttonEvents : list ButtonEvent) (button_timers : timers)
  : scan :=
  match buttonEvents with
  | [] => NoBreak
  | b :: rest =>
      match lookup_timer (type_ b) button_timers with
      | Some n =>
          if negb (pressed b) then
            if (CRUISE_LONG_PRESS <? n)%Z then EndLongPress
            else ShortPress (type_ b)
          else scan_events rest button_timers
      | None => scan_events rest button_timers
      end
  end.

(** The [for k in button_timers.keys()] loop of the [else] branch. *)
Fixpoint held_button (button_timers : timers) : option ButtonType :=
  match button_timers with
  | [] => None
  | (k, n) :: rest =>
      if negb (n =? 0)%Z && (n mod CRUISE_LONG_PRESS =? 0)%Z then Some k
      else held_button rest
  end.

(** [x % d] on floats, for [d] not zero. *)
Definition fmod (x d : Q) : Q := (x - inject_Z (Qfloor (x / d)) * d)%Q.

(** [round(x, 1)]: to the nearest tenth, a tie to the even tenth. *)
Definition round1 (x : Q) : Q :=
  let t := (x * 10)%Q in
  let f := Qfloor t in
  let n := match Qcompare (t - inject_Z f) (1 # 2) with
           | Lt => f
           | Gt => (f + 1)%Z
           | Eq => if Z.even f then f else (f + 1)%Z
           end in
  (n # 10)%Q.

(** Lines 82 to 87: the step taken for [button_type], rounded to a tenth and
    clamped; [v_cruise_delta] is the interval line 82 has computed. *)
Definition stepped_speed (v_cruise_kph v_cruise_delta : Q)
    (button_type : ButtonType) (long_press : bool) : result Q :=
  v ← (if long_press
          && negb (Qeq_bool (fmod v_cruise_kph v_cruise_delta) 0)
       then nearest ← CRUISE_NEAREST_FUNC button_type;
            Ok (inject_Z (nearest (v_cruise_kph / v_cruise_delta)%Q)
                * v_cruise_delta)%Q
       else sign ← CRUISE_INTERVAL_SIGN button_type;
            Ok (v_cruise_kph + v_cruise_delta * sign)%Q);
  Ok (clip (round1 v) V_CRUISE_MIN V_CRUISE_MAX).

(** The name [set_speed_offset], read at lines 89 and 91: the module binds
    it nowhere (no assignment, import, parameter or [global] statement), so
    reading it raises a NameError. *)
Definition set_speed_offset : result Q := Raise NameError.

Definition update_v_cruise (v_cruise_kph : Q) (buttonEvents : list ButtonEvent)
    (button_timers : timers) (enabled metric : bool) : result Q :=
  if negb enabled then Ok v_cruise_kph
  else
    let v_cruise_delta : Q := if metric then 1%Q else (16 # 10)%Q in
    match scan_events buttonEvents button_timers with
    | EndLongPress => Ok v_cruise_kph
    | found =>
        let '(button_type, long_press) :=
          match found with
          | ShortPress t => (Some t, false)
          | _ => match held_button button_timers with
                 | Some k => (Some k, true)
                 | None => (None, false)
                 end
          end in
        match button_type with
        | Some bt =>
            if negb (raw bt =? 0)%Z then
              let v_cruise_delta :=
                (v_cruise_delta * (if long_press then 5 else 1))%Q in
              v ← stepped_speed v_cruise_kph v_cruise_delta bt long_press;
              v_cruise_offset ← (if long_press
                                 then offset ← set_speed_offset;
                                      sign ← CRUISE_INTERVAL_SIGN bt;
                                      Ok (offset * sign)%Q
                                 else Ok 0%Q);
              v_cruise_offset ← (if a_ltb v_cruise_offset 0%Q
                                 then offset ← set_speed_offset;
                                      Ok (offset - v_cruise_delta)%Q
                                 else Ok v_cruise_offset);
              Ok (v + v_cruise_offset)%Q
            else Ok v_cruise_kph
        | None => Ok v_cruise_kph
        end
    end.

(** A button is tracked when [button_timers] has its key. *)
Definition tracked (t : ButtonType) (button_timers : timers) : Prop :=
  lookup_timer t button_timers <> None.

End Cruise.

(** ** drive_helpers.py: get_lag_adjusted_curvature *)

Module Curvature.
Import NumpyFast.

Definition MIN_DIST : Q := 1 # 1000.
Definition MIN_SPEED : Q := 1.
Definition CONTROL_N : nat := 17.
Definition MAX_LATERAL_JERK : Q := 10.

(** [[0.0]*CONTROL_N]. *)
Definition zeros : list Q := repeat 0%Q CONTROL_N.

(** [x / y] on floats. *)
Definition py_div (x y : Q) : result Q :=
  if Qeq_bool y 0 then Raise ZeroDivisionError else Ok (x / y)%Q.

(** The guard that opens the function: the four trajectories as the rest
    of the function reads them. *)
Definition select_trajectories (psis curvatures curvature_rates distances : list Q)
  : list Q * list Q * list Q * list Q :=
  if negb (length psis =? CONTROL_N)%nat
     || negb (length distances =? CONTROL_N)%nat
  then (zeros, zeros, zeros, zeros)
  else (psis, curvatures, curvature_rates, distances).

Section WithConstants.

(** Defined outside these sources: [T_IDXS] (selfdrive.modeld.constants),
    the tunable [ntune_common_get("steerActuatorDelay")] and [DT_MDL]
    (common.realtime). *)
Variable T_IDXS : list Q.
Variable steerActuatorDelay : Q.
Variable DT_MDL : Q.

(** [get_lag_adjusted_curvature]; [CP] is not read.  [v_ego**2] is written
    [v_ego * v_ego]. *)
Definition get_lag_adjusted_curvature (v_ego : Q)
    (psis curvatures curvature_rates distances : list Q)
    (average_desired_curvature : bool) : result (Q * Q) :=
  let '(psis, curvatures, curvature_rates, distances) :=
    select_trajectories psis curvatures curvature_rates distances in
  let v_ego := py_max MIN_SPEED v_ego in
  let delay := (steerActuatorDelay + (2 # 10))%Q in
  current_curvature_desired ← getitem curvatures 0;
  psi ← interp delay (firstn CONTROL_N T_IDXS) psis;
  distance ← interp delay (firstn CONTROL_N T_IDXS) distances;
  let distance := py_max MIN_DIST distance in
  average_curvature_desired ←
    (if average_desired_curvature then py_div psi distance
     else py_div psi (v_ego * delay)%Q);
  let desired_curvature :=
    (2 * average_curvature_desired - current_curvature_desired)%Q in
  desired_curvature_rate ← getitem curvature_rates 0;
  max_curvature_rate ← py_div MAX_LATERAL_JERK (v_ego * v_ego)%Q;
  let safe_desired_curvature_rate :=
    clip desired_curvature_rate (- max_curvature_rate)%Q max_curvature_rate in
  let safe_desired_curvature :=
    clip (desired_curvature * (105 # 100))%Q
      (current_curvature_desired - max_curvature_rate * DT_MDL)%Q
      (current_curvature_desired + max_curvature_rate * DT_MDL)%Q in
  Ok (safe_desired_curvature, safe_desired_curvature_rate).

End WithConstants.

(** The model's time grid, [10 * (i / 32)^2] for [i] from 0 to 32, for the
    examples. *)
Definition T_IDXS_model : list Q :=
  map (fun i : nat => (10 * (Z.of_nat i # 32) * (Z.of_nat i # 32))%Q) (seq 0 33).

End Curvature.

(** ** longitudinal_planner.py: limit_accel_in_turns *)

Module TurnLimit.
Import NumpyFast.

Definition _A_TOTAL_MAX_V : list R := [1.7; 3.2]%R.
Definition _A_TOTAL_MAX_BP : list R := [20; 40]%R.

(** [CV.DEG_TO_RAD] (common.conversions, outside these sources): the
    specification gives it as pi / 180. *)
Definition DEG_TO_RAD : R := (PI / 180)%R.

(** The fields of [CP] the function reads. *)
Record CarParams : Type := mkCarParams {
  steerRatio : R;
  wheelbase : R
}.

(** [math.sqrt(x)]: the square root of a number that is not negative, a
    ValueError (math domain error) below zero. *)
Definition math_sqrt (x : R) : result R :=
  if Rlt_dec x 0 then Raise ValueError else Ok (sqrt x).

(** [limit_accel_in_turns(v_ego, angle_steers, a_target, CP)]; the squares
    [x ** 2] are written [x * x]. *)
Definition limit_accel_in_turns (v_ego angle_steers : R) (a_target : list R)
    (CP : CarParams) : result (list R) :=
  a_total_max ← interp v_ego _A_TOTAL_MAX_BP _A_TOTAL_MAX_V;
  let denominator := (steerRatio CP * wheelbase CP)%R in
  if Req_dec_T denominator 0 then Raise ZeroDivisionError
  else
    let a_y := (v_ego * v_ego * angle_steers * DEG_TO_RAD / denominator)%R in
    a_x_allowed ←
      math_sqrt (py_max (a_total_max * a_total_max - a_y * a_y)%R 0%R);
    lo ← getitem a_target 0;
    hi ← getitem a_target 1;
    Ok [lo; py_min hi a_x_allowed].

(** The total-acceleration envelope: 1.7 up to 20, 3.2 beyond 40, the line
    between the two in between. *)
Definition a_total_max_of (v_ego : R) : R :=
  (if Rlt_dec 20 v_ego
   then if Rlt_dec 40 v_ego then 3.2
        else (v_ego - 20) * (3.2 - 1.7) / (40 - 20) + 1.7
   else 1.7)%R.

End TurnLimit.

(** ** drive_helpers.py: dead zones, rate limit, speed error, friction *)

Module DriveHelpers.
Import NumpyFast.

Definition V_CRUISE_ENABLE_MIN : Q := 30.
Definition MAX_VEL_ERR : Q := 5.

(** [apply_deadzone(error, deadzone)]. *)
Definition apply_deadzone (error deadzone : Q) : Q :=
  if a_ltb deadzone error then (error - deadzone)%Q
  else if a_ltb error (- deadzone)%Q then (error + deadzone)%Q
  else 0%Q.

(** [apply_center_deadzone(error, deadzone)]. *)
Definition apply_center_deadzone (error deadzone : Q) : Q :=
  if a_ltb (- deadzone)%Q error && a_ltb error deadzone then 0%Q else error.

(** [rate_limit(new_value, last_value, dw_step, up_step)]. *)
Definition rate_limit (new_value last_value dw_step up_step : Q) : Q :=
  clip new_value (last_value + dw_step)%Q (last_value + up_step)%Q.

(** [round(x)]: to the nearest integer, a tie to the even one. *)
Definition py_round (x : Q) : Z :=
  let f := Qfloor x in
  match Qcompare (x - inject_Z f) (1 # 2) with
  | Lt => f
  | Gt => (f + 1)%Z
  | Eq => if Z.even f then f else (f + 1)%Z
  end.

(** [get_speed_error(modelV2, v_ego)]; [trans] is
    [modelV2.temporalPose.trans]. *)
Definition get_speed_error (trans : list Q) (v_ego : Q) : Q :=
  match trans with
  | [] => 0%Q
  | t0 :: _ => clip (t0 - v_ego)%Q (- MAX_VEL_ERR)%Q MAX_VEL_ERR
  end.

(** [car.CarParams.LateralTorqueTuning]: the fields read here. *)
Record LateralTorqueTuning : Type := mkLateralTorqueTuning {
  friction : Q;
  latAccelFactor : Q
}.

(** [get_friction]; the interpolation runs whether or not the friction is
    used. *)
Definition get_friction (lateral_accel_error lateral_accel_deadzone
    friction_threshold : Q) (torque_params : LateralTorqueTuning)
    (friction_compensation : bool) : result Q :=
  friction_interp ←
    interp (apply_center_deadzone lateral_accel_error lateral_accel_deadzone)
      [(- friction_threshold)%Q; friction_threshold]
      [(- friction torque_params)%Q; friction torque_params];
  Ok (if friction_compensation then friction_interp else 0%Q).

Section WithConversions.

(** [CV.MS_TO_KPH] (common.conversions, outside these sources). *)
Variable MS_TO_KPH : Q.

(** [initialize_v_cruise(v_ego, buttonEvents, v_cruise_last)]: the loop over
    the events, then the statement after it. *)
Fixpoint initialize_v_cruise (v_ego : Q) (buttonEvents : list Cruise.ButtonEvent)
    (v_cruise_last : Q) : Q :=
  match buttonEvents with
  | [] =>
      inject_Z (py_round (clip (v_ego * MS_TO_KPH)%Q V_CRUISE_ENABLE_MIN
                            Cruise.V_CRUISE_MAX))
  | b :: rest =>
      if (Cruise.raw (Cruise.type_ b) =? Cruise.raw Cruise.accelCruise)%Z
         && a_ltb v_cruise_last 250%Q
      then v_cruise_last
      else initialize_v_cruise v_ego rest v_cruise_last
  end.

End WithConversions.

End DriveHelpers.

(** ** longitudinal_planner.py: get_max_accel and the acceleration limits
    of Planner.update *)

Module Planner.
Import NumpyFast TurnLimit.

Definition A_CRUISE_MIN : R := (-1.2)%R.
Definition A_CRUISE_MAX_VALS : list R := [1.8; 1.3; 0.8; 0.6]%R.
Definition A_CRUISE_MAX_BP : list R := [0; 10; 25; 40]%R.

(** [ACCEL_MAX] and [ACCEL_MIN] of interfaces.py. *)
Definition ACCEL_MAX : R := 2%R.
Definition ACCEL_MIN : R := (-4)%R.

Definition get_max_accel (v_ego : R) : result R :=
  interp v_ego A_CRUISE_MAX_BP A_CRUISE_MAX_VALS.

(** [self.mpc.mode]: ['acc'], or anything else (['blended']). *)
Inductive Mode : Type := acc | blended.

(** [self.accel_controller] (selfdrive.controls.lib.accel_controller,
    outside these sources) as [update] uses it. *)
Record AccelController : Type := mkAccelController {
  is_enabled : bool;
  get_accel_limits : R -> list R -> R * R
}.

(** [Planner.update], lines 135 to 152: [accel_limits] and
    [accel_limits_turns]. *)
Definition accel_limits_of (mode : Mode) (accel_controller : AccelController)
    (v_ego steeringAngleDeg : R) (CP : CarParams) : result (list R * list R) :=
  '(accel_limits, accel_limits_turns) ←
    match mode with
    | acc =>
        max_accel ← get_max_accel v_ego;
        let accel_limits := [A_CRUISE_MIN; max_accel] in
        accel_limits_turns ←
          limit_accel_in_turns v_ego steeringAngleDeg accel_limits CP;
        Ok (accel_limits, accel_limits_turns)
    | blended => Ok ([ACCEL_MIN; ACCEL_MAX], [ACCEL_MIN; ACCEL_MAX])
    end;
  (* override accel using Accel controller *)
  if is_enabled accel_controller then
    let '(min_limit, max_limit) :=
      get_accel_limits accel_controller v_ego accel_limits in
    match mode with
    | acc =>
        let accel_limits := [A_CRUISE_MIN; max_limit] in
        accel_limits_turns ←
          limit_accel_in_turns v_ego steeringAngleDeg accel_limits CP;
        Ok (accel_limits, accel_limits_turns)
    | blended => Ok ([ACCEL_MIN; ACCEL_MAX], [ACCEL_MIN; ACCEL_MAX])
    end
  else Ok (accel_limits, accel_limits_turns).

(** [Planner.update], lines 135 to 174, as far as [self.a_desired] and the
    limits handed to [self.mpc.set_accel_limits] go: the limits above, the
    reset of [a_desired] (lines 154 to 157) and the widening of the turn
    limits (lines 170 and 171).  The statements in between assign neither.
    Returns the new [a_desired] and the two limits. *)
Definition mpc_accel_limits (mode : Mode) (accel_controller : AccelController)
    (v_ego steeringAngleDeg : R) (CP : CarParams) (reset_state : bool)
    (aEgo a_desired : R) : result (R * (R * R)) :=
  '(accel_limits, accel_limits_turns) ←
    accel_limits_of mode accel_controller v_ego steeringAngleDeg CP;
  a_desired ←
    (if reset_state
     then lo ← getitem accel_limits 0;
          hi ← getitem accel_limits 1;
          Ok (clip aEgo lo hi)
     else Ok a_desired);
  (* clip limits, cannot init MPC outside of bounds *)
  t0 ← getitem accel_limits_turns 0;
  let t0 := py_min t0 (a_desired + 0.05)%R in
  t1 ← getitem accel_limits_turns 1;
  let t1 := py_max t1 (a_desired - 0.05)%R in
  Ok (a_desired, (t0, t1)).

End Planner.

(** ** interfaces.py: CarStateBase, the lamp-based blinker and the gear
    letters *)

Module CarStateHelpers.
Import Blinker CommonEvents.

(** [CarStateBase.update_blinker_from_lamp]; the two [_prev] fields are not
    touched. *)
Definition update_blinker_from_lamp (self : CarStateBase) (blinker_time : Z)
    (left_blinker_lamp right_blinker_lamp : bool)
  : CarStateBase * (bool * bool) :=
  let lc := if left_blinker_lamp then blinker_time
            else Z.max (left_blinker_cnt self - 1) 0 in
  let rc := if right_blinker_lamp then blinker_time
            else Z.max (right_blinker_cnt self - 1) 0 in
  (mkCarStateBase lc rc (left_blinker_prev self) (right_blinker_prev self),
   ((0 <? lc)%Z, (0 <? rc)%Z)).

Definition lamp_step (self : CarStateBase) (c : call) : CarStateBase :=
  let '(bt, l, r) := c in fst (update_blinker_from_lamp self bt l r).

(** The dict of [parse_gear_shifter]. *)
Definition gear_letters : gmap string GearShifter :=
  list_to_map
    [("P", park); ("R", reverse); ("N", neutral); ("E", eco);
     ("T", manumatic); ("D", drive); ("S", sport); ("L", low);
     ("B", brake)]%string.

(** [CarStateBase.parse_gear_shifter(gear)]: [d.get(gear, unknown)]. *)
Definition parse_gear_shifter (gear : string) : GearShifter :=
  default unknown (gear_letters !! gear).

End CarStateHelpers.

(** ** interfaces.py: CarInterfaceBase.torque_from_lateral_accel_linear *)

Module TorqueLinear.
Import NumpyFast DriveHelpers.

Definition FRICTION_THRESHOLD : Q := 3 # 10.

Record LatControlInputs : Type := mkLatControlInputs {
  lateral_acceleration : Q;
  roll_compensation : Q;
  vego : Q;
  aego : Q
}.

(** [torque_from_lateral_accel_linear]; [gravity_adjusted] is not read. *)
Definition torque_from_lateral_accel_linear
    (latcontrol_inputs : LatControlInputs) (torque_params : LateralTorqueTuning)
    (lateral_accel_error lateral_accel_deadzone : Q)
    (friction_compensation gravity_adjusted : bool) : result Q :=
  friction ← get_friction lateral_accel_error lateral_accel_deadzone
               FRICTION_THRESHOLD torque_params friction_compensation;
  linear ← Curvature.py_div (lateral_acceleration latcontrol_inputs)
             (latAccelFactor torque_params);
  Ok (linear + friction)%Q.

End TorqueLinear.

(** ** hyundai/interface.py: CarInterface.get_pid_accel_limits and parts of
    CarInterface.update *)

Module HyundaiUpdate.
Import NumpyFast CommonEvents.

Definition gas_max_bp : list Q := [10; 20; 50; 70; 130; 150]%Q.
Definition gas_max_v : list Q :=
  [14 # 10; 11 # 10; 5 # 10; 3 # 10; 15 # 100; 1 # 10]%Q.

(** [CarInterface.update], lines 384 to 388: the low-speed steer alert of
    one cycle, from [self.CP.minSteerSpeed], the alert so far and
    [ret.vEgo]. *)
Definition low_speed_alert_update (minSteerSpeed : Q) (low_speed_alert : bool)
    (vEgo : Q) : bool :=
  let low_speed_alert :=
    if a_ltb vEgo (minSteerSpeed + (2 # 10))%Q && a_ltb 10%Q minSteerSpeed
    then true else low_speed_alert in
  if a_ltb (minSteerSpeed + (7 # 10))%Q vEgo then false else low_speed_alert.

Section WithConstants.

(** [CV.MS_TO_KPH] and [CV.KPH_TO_MS] (common.conversions),
    [CarControllerParams.ACCEL_MIN] (hyundai/values.py) and
    [int(1.5 / DT_CTRL)] (common.realtime): defined outside these
    sources. *)
Variable MS_TO_KPH : Q.
Variable KPH_TO_MS : Q.
Variable ACCEL_MIN : Q.
Variable unpressed_limit : Z.

(** [CarInterface.get_pid_accel_limits(CP, current_speed, cruise_speed)]. *)
Definition get_pid_accel_limits (current_speed cruise_speed : Q)
  : result (Q * Q) :=
  let v_current_kph := (current_speed * MS_TO_KPH)%Q in
  gas_max ← interp v_current_kph gas_max_bp gas_max_v;
  Ok (ACCEL_MIN, gas_max).

(** [CarInterface.update], line 413 and line 461: the common events of a
    cycle are computed against the car state of the previous cycle, which
    is then replaced by the car state [ret] of this one.  The lines in
    between assign none of the fields that [create_common_events] keeps on
    the interface and none of the fields of [ret] that it reads. *)
Definition common_events_cycle (self : CarInterfaceBase) (ret : CarState)
  : CarInterfaceBase * Events :=
  let '(self', events) :=
    create_common_events KPH_TO_MS unpressed_limit self ret true in
  (mkCarInterfaceBase (steering_unpressed self') (silent_steer_warning self')
     (no_steer_warning self') ret,
   events).

(** The interface after a sequence of cycles, with the common events of
    each cycle, oldest first. *)
Fixpoint run_cycles (self : CarInterfaceBase) (rets : list CarState)
  : CarInterfaceBase * list Events :=
  match rets with
  | [] => (self, [])
  | ret :: rest =>
      let '(self', events) := common_events_cycle self ret in
      let '(self'', later) := run_cycles self' rest in
      (self'', events :: later)
  end.

End WithConstants.

End HyundaiUpdate.

(** ** hyundai/radar_interface.py: RadarInterface.update *)

Module RadarUpdate.
Import Radar.

(** The interface object as [update] uses it: the fields of [_update], the
    set of updated message addresses, and the two fields set once in
    [__init__]. *)
Record RadarInterface : Type := mkRadarInterface {
  base : Radar.RadarInterface;
  updated_messages : gset Z;
  trigger_msg : Z;
  radar_off_can : bool
}.

(** [RadarInterface.__init__]: [new_radar] is false, so the trigger message
    is 0x420. *)
Definition init (radarOffCan : bool) (rcp : option CANParser) : RadarInterface :=
  mkRadarInterface (Radar.init rcp) ∅ 1056 radarOffCan.

(** The object once its parser has decoded new frames. *)
Definition with_parser (self : Radar.RadarInterface) (parser : CANParser)
  : Radar.RadarInterface :=
  Radar.mkRadarInterface (pts self) (track_id self) (prev_dist self)
    (Some parser).

(** At most one track is held, in slot 0. *)
Definition single_slot (s : Radar.RadarInterface) : Prop :=
  pts s = ∅ \/ exists p, pts s = {[0%Z := p]}.

Section WithParser.

(** [self.rcp.update_strings(can_strings)] (opendbc.can.parser, outside
    these sources): the parser after decoding the frames, and the addresses
    of the messages that were updated. *)
Variable can_strings : Type.
Variable update_strings : CANParser -> can_strings -> CANParser * list Z.

(** [RadarInterface.update(can_strings)]; [None] is Python's [None].  The
    base class's [update] returns an empty message (after sleeping for one
    radar time step, which is not modelled). *)
Definition update (self : RadarInterface) (frames : can_strings)
  : RadarInterface * option RadarData :=
  match (if radar_off_can self then None else rcp (base self)) with
  | None => (self, Some (mkRadarData [] []))
  | Some parser =>
      let '(parser, vls) := update_strings parser frames in
      let base1 := with_parser (base self) parser in
      let updated := updated_messages self ∪ list_to_set vls in
      if bool_decide (trigger_msg self ∈ updated) then
        let '(base2, rr) := _update base1 in
        (mkRadarInterface base2 ∅ (trigger_msg self) (radar_off_can self),
         Some rr)
      else
        (mkRadarInterface base1 updated (trigger_msg self) (radar_off_can self),
         None)
  end.

(** The interface after a sequence of calls, oldest first. *)
Definition run (radarOffCan : bool) (rcp : option CANParser)
    (calls : list can_strings) : RadarInterface :=
  fold_left (fun self frames => fst (update self frames)) calls
    (init radarOffCan rcp).

End WithParser.

Arguments update {can_strings} update_strings self frames.
Arguments run {can_strings} update_strings radarOffCan rcp calls.

End RadarUpdate.

(** ** interfaces.py: get_nn_model_path *)

Module NNModelPath.
Import NumpyFast.

(** [s.replace(old, new)] for a non-empty [old]: the occurrences of [old]
    are replaced from the left, without overlap.  [skip] counts the
    characters of an occurrence still to pass over. *)
Fixpoint replace_from (old new : string) (skip : nat) (s : string) : string :=
  match s with
  | EmptyString => EmptyString
  | String c rest =>
      match skip with
      | S n => replace_from old new n rest
      | O =>
          if String.prefix old s
          then new +:+ replace_from old new (String.length old - 1) rest
          else String c (replace_from old new 0 rest)
      end
  end.

Definition replace (old new s : string) : string := replace_from old new 0 s.

(** [s.endswith(suffix)]. *)
Fixpoint endswith (s suffix : string) : bool :=
  String.eqb s suffix
  || match s with
     | EmptyString => false
     | String _ rest => endswith rest suffix
     end.

(** [sub in s]. *)
Fixpoint contains (sub s : string) : bool :=
  String.prefix sub s
  || match s with
     | EmptyString => false
     | String _ rest => contains sub rest
     end.

(** The one-character string of a backslash. *)
Definition backslash : string := String (Ascii.ascii_of_nat 92) EmptyString.

Section WithFiles.

(** Outside these sources: [TORQUE_NN_MODEL_PATH] (built from BASEDIR),
    the names [os.listdir] gives for it, [os.path.join] and the ratio of
    difflib's SequenceMatcher behind [similarity]. *)
Variable TORQUE_NN_MODEL_PATH : string.
Variable listdir : list string.
Variable path_join : string -> string -> string.
Variable similarity : string -> string -> Q.

(** The name a file is scored under. *)
Definition model_name (f : string) : string :=
  replace (TORQUE_NN_MODEL_PATH +:+ "/") EmptyString
    (replace ".json" EmptyString f).

(** The test [f.endswith(".json") and car in f]. *)
Definition is_model_of (car f : string) : bool :=
  endswith f ".json" && contains car f.

(** The body of the loop of [check_nn_path], on [(model_path,
    max_similarity)]. *)
Definition check_file (car check_model : string) (best : option string * Q)
    (f : string) : option string * Q :=
  if is_model_of car f then
    let similarity_score := similarity (model_name f) check_model in
    if a_ltb (snd best) similarity_score
    then (Some (path_join TORQUE_NN_MODEL_PATH f), similarity_score)
    else best
  else best.

(** The inner function [check_nn_path]; [car] is the variable of the
    enclosing function as it is when the inner function is called. *)
Definition check_nn_path (car check_model : string) : option string * Q :=
  fold_left (check_file car check_model) listdir (None, (-1)%Q).

(** The car name as the function rewrites it before any search. *)
Definition car_name (car : string) : string :=
  let car1 := replace "_" " " car in
  let car1 := replace " HEV" " HYBRID" car1 in
  replace "EV " "ELECTRIC " car1.

(** [get_nn_model_path(car, eps_firmware)]; the two [print] calls are left
    out. *)
Definition get_nn_model_path (car eps_firmware : string) : option string * Q :=
  let car := car_name car in
  let check_model :=
    if (3 <? String.length eps_firmware)%nat
    then car +:+ " " +:+ replace backslash EmptyString eps_firmware
    else car in
  let '(model_path, max_similarity) := check_nn_path car check_model in
  if a_ltb max_similarity (9 # 10)%Q then
    let check_model := car in
    let '(model_path, max_similarity) := check_nn_path car check_model in
    if a_ltb max_similarity (9 # 10)%Q
    then (None, max_similarity)
    else (model_path, max_similarity)
  else (model_path, max_similarity).

End WithFiles.

End NNModelPath.

(** * Theorems *)

Module NumpyFastFacts.
Import NumpyFast.

Section WithArith.
Context {A : Type} `{Arith A}.

Lemma find_hi_bounds (xv : A) (xp : list A) :
  forall h, h <= find_hi xv xp h <= h + length xp.
Proof.
  induction xp as [|x xp IH]; intros h; simpl; [lia|].
  destruct (a_ltb x xv); [|lia]. specialize (IH (S h)). lia.
Qed.

(** When the loop runs through all breakpoints, [xv] is beyond each. *)
Lemma find_hi_all (xv : A) (xp : list A) :
  forall h, find_hi xv xp h = h + length xp ->
            forall i x, xp !! i = Some x -> a_ltb x xv = true.
Proof.
  induction xp as [|x0 xp IH]; intros h Hall i x Hi; simpl in *;
    [discriminate|].
  destruct (a_ltb x0 xv) eqn:E; [|lia].
  destruct i as [|i]; simpl in Hi.
  - now injection Hi as <-.
  - apply (IH (S h)) with i; [lia | exact Hi].
Qed.

Lemma getitem_lt (l : list A) (i : nat) :
  i < length l -> exists x, getitem l i = Ok x /\ l !! i = Some x.
Proof.
  intros Hi. unfold getitem.
  destruct (lookup_lt_is_Some_2 l i Hi) as [x Hx]. rewrite Hx. eauto.
Qed.

(** [interp] returns whenever there is a breakpoint and a value for each
    breakpoint. *)
Lemma interp_total (xv : A) (xp fp : list A) :
  xp <> [] -> length xp <= length fp -> exists y, interp xv xp fp = Ok y.
Proof.
  intros Hne Hlen. unfold interp.
  assert (HN : 0 < length xp) by (destruct xp; [congruence | simpl; lia]).
  pose proof (find_hi_bounds xv xp 0) as Hb.
  set (hi := find_hi xv xp 0) in *.
  destruct (Nat.eqb hi (length xp)) eqn:E.
  - apply Nat.eqb_eq in E.
    destruct hi as [|h] eqn:Ehi; [lia|]. cbn [Nat.pred].
    destruct (getitem_lt xp h ltac:(lia)) as (xl & Hxl & Hlk). rewrite Hxl.
    cbn [mbind result_bind].
    rewrite (find_hi_all xv xp 0 ltac:(subst hi; lia) h xl Hlk).
    destruct (last fp) as [y|] eqn:Hlast; [eauto|].
    apply last_None in Hlast. subst fp. simpl in Hlen. lia.
  - apply Nat.eqb_neq in E. cbn [mbind result_bind].
    destruct (Nat.eqb hi 0) eqn:E0.
    + destruct (getitem_lt fp 0 ltac:(lia)) as (y & Hy & _). eauto.
    + apply Nat.eqb_neq in E0.
      destruct (getitem_lt xp (Nat.pred hi) ltac:(lia)) as (xl & -> & _).
      destruct (getitem_lt fp hi ltac:(lia)) as (fh & -> & _).
      destruct (getitem_lt fp (Nat.pred hi) ltac:(lia)) as (fl & -> & _).
      destruct (getitem_lt xp hi ltac:(lia)) as (xh & -> & _).
      cbn [mbind result_bind]. eauto.
Qed.

End WithArith.

(** Comparisons and [clip] on the rationals. *)

Lemma ltb_Q_true (x y : Q) : a_ltb x y = true <-> (x < y)%Q.
Proof.
  cbn. rewrite negb_true_iff. split.
  - intros Hle. apply Qnot_le_lt. intros Hyx.
    apply Qle_bool_iff in Hyx. congruence.
  - intros Hlt. destruct (Qle_bool y x) eqn:E; [|reflexivity].
    apply Qle_bool_iff in E. exfalso. exact (Qlt_not_le _ _ Hlt E).
Qed.

Lemma ltb_Q_false (x y : Q) : a_ltb x y = false <-> (y <= x)%Q.
Proof.
  cbn. rewrite negb_false_iff. apply Qle_bool_iff.
Qed.

Lemma ltb_Q_comp (x x' y y' : Q) :
  x == x' -> y == y' -> a_ltb x y = a_ltb x' y'.
Proof. intros Hx Hy. cbn. now rewrite Hx, Hy. Qed.

Lemma clip_bounds (x lo hi : Q) :
  (lo <= hi)%Q -> (lo <= clip x lo hi)%Q /\ (clip x lo hi <= hi)%Q.
Proof.
  intros Hlohi. unfold clip, py_max, py_min.
  destruct (a_ltb x hi) eqn:Exh.
  - apply ltb_Q_true in Exh.
    destruct (a_ltb lo x) eqn:Elx.
    + apply ltb_Q_true in Elx. split; now apply Qlt_le_weak.
    + split; [apply Qle_refl | exact Hlohi].
  - destruct (a_ltb lo hi) eqn:Elh.
    + split; [exact Hlohi | apply Qle_refl].
    + split; [apply Qle_refl | exact Hlohi].
Qed.

Lemma clip_comp (x x' lo hi : Q) : x == x' -> clip x lo hi == clip x' lo hi.
Proof.
  intros Hx. unfold clip, py_max, py_min.
  rewrite (ltb_Q_comp x x' hi hi Hx (Qeq_refl hi)).
  destruct (a_ltb x' hi).
  - rewrite (ltb_Q_comp lo lo x x' (Qeq_refl lo) Hx).
    destruct (a_ltb lo x'); [exact Hx | reflexivity].
  - reflexivity.
Qed.

End NumpyFastFacts.

Module BlinkerFacts.
Import Blinker.

Lemma update_keeps_one_side_idle self bt l r :
  one_side_idle self ->
  one_side_idle (fst (update_blinker_from_stalk self bt l r)).
Proof.
  unfold one_side_idle, update_blinker_from_stalk; simpl.
  destruct l, r, (left_blinker_prev self), (right_blinker_prev self);
    simpl; lia.
Qed.

Lemma run_calls_snoc calls c : run (calls ++ [c]) = step (run calls) c.
Proof. unfold run. now rewrite fold_left_app. Qed.

Lemma run_one_side_idle calls : one_side_idle (run calls).
Proof.
  induction calls as [|c calls IH] using rev_ind.
  - now left.
  - rewrite run_calls_snoc. destruct c as [[bt l] r]. simpl.
    now apply update_keeps_one_side_idle.
Qed.

Lemma both_outputs_need_both_stalks self bt l r :
  one_side_idle self ->
  snd (update_blinker_from_stalk self bt l r) = (true, true) ->
  l = true /\ r = true.
Proof.
  unfold one_side_idle, update_blinker_from_stalk; simpl.
  intros Hidle Hout. injection Hout as Hl Hr.
  destruct l, r; auto; simpl in *;
    apply Z.ltb_lt in Hl || apply Z.ltb_lt in Hr;
    destruct (left_blinker_prev self), (right_blinker_prev self);
    simpl in *; lia.
Qed.

(** C10.  From a freshly constructed [CarStateBase], after any sequence of
    calls of [update_blinker_from_stalk] followed by one more call, at least
    one of [left_blinker_cnt] and [right_blinker_cnt] is zero: an engaged
    right stalk leaves the left counter at zero, an engaged left stalk leaves
    the right counter at zero unless the right stalk is engaged too (its
    block runs second and may re-arm the right counter, the left one then
    being zero).  And when that call reports both blinkers, both stalk
    inputs were held in it. *)
Theorem stalk_debounce_one_counter_zero :
  forall (calls : list call) (bt : Z) (l r : bool),
    let self := run calls in
    let '(self', (left_out, right_out)) :=
      update_blinker_from_stalk self bt l r in
    one_side_idle self'
    /\ (l = true -> r = false -> right_blinker_cnt self' = 0%Z)
    /\ (r = true -> left_blinker_cnt self' = 0%Z)
    /\ (left_out = true /\ right_out = true -> l = true /\ r = true).
Proof.
  intros calls bt l r self.
  pose proof (run_one_side_idle calls) as Hidle. fold self in Hidle.
  pose proof (update_keeps_one_side_idle self bt l r Hidle) as Hstep.
  pose proof (both_outputs_need_both_stalks self bt l r Hidle) as Hboth.
  destruct (update_blinker_from_stalk self bt l r) as [self' [lo ro]] eqn:E.
  simpl in Hstep, Hboth.
  assert (Hs : self' = fst (update_blinker_from_stalk self bt l r))
    by now rewrite E.
  split; [exact Hstep|]. split; [|split].
  - intros Hl Hr. subst l r self'. unfold update_blinker_from_stalk; simpl. lia.
  - intros Hr. subst r self'. unfold update_blinker_from_stalk; simpl.
    destruct l, (left_blinker_prev self); simpl; lia.
  - intros [Hl Hr]. subst lo ro. now apply Hboth.
Qed.

End BlinkerFacts.

Module CommonEventsFacts.
Import CommonEvents.

Lemma has_add events e x : has (add events e) x = has events x || event_eqb x e.
Proof.
  unfold has, add. rewrite existsb_app. simpl. now rewrite orb_false_r.
Qed.

Lemma has_add_if c e events x :
  has (add_if c e events) x = has events x || (c && event_eqb x e).
Proof.
  unfold add_if. destruct c; simpl.
  - apply has_add.
  - now rewrite orb_false_r.
Qed.

(** What the steering-fault block adds, event by event. *)
Lemma steering_faults_has limit self cs events x :
  let '(_, _, _, events') := steering_faults limit self cs events in
  has events' x =
    has events x
    || (steerFaultTemporary cs
        && negb (steeringPressed cs
                 && (negb (steerFaultTemporary (CS_out self))
                     || no_steer_warning self))
        && (if silent_steer_warning self || standstill cs
               || ((if steeringPressed cs then 0
                    else steering_unpressed self + 1) <? limit)%Z
            then event_eqb x steerTempUnavailableSilent
            else event_eqb x steerTempUnavailable))
    || (steerFaultPermanent cs && event_eqb x steerUnavailable).
Proof.
  unfold steering_faults.
  destruct (steerFaultTemporary cs); simpl.
  - destruct (steeringPressed cs
              && (negb (steerFaultTemporary (CS_out self))
                  || no_steer_warning self)); simpl.
    + now rewrite has_add_if, orb_false_r.
    + destruct (silent_steer_warning self || standstill cs
                || ((if steeringPressed cs then 0
                     else steering_unpressed self + 1) <? limit)%Z);
        now rewrite has_add_if, has_add.
  - now rewrite has_add_if, orb_false_r.
Qed.

(** The events of a call, for the three steering events: only the
    steering-fault block adds them. *)
Lemma create_common_events_steer kph limit self cs pcm x :
  x = steerTempUnavailableSilent \/ x = steerTempUnavailable
  \/ x = steerUnavailable ->
  has (snd (create_common_events kph limit self cs pcm)) x =
  has (snd (steering_faults limit self cs [])) x.
Proof.
  intros Hx. unfold create_common_events.
  pose proof (steering_faults_has limit self cs) as Hblock.
  match goal with
  | |- context [steering_faults limit self cs ?ev] =>
      specialize (Hblock ev x) as H1; specialize (Hblock [] x) as H2;
      destruct (steering_faults limit self cs ev) as [[[u s] n] ev1];
      destruct (steering_faults limit self cs []) as [[[u0 s0] n0] ev0]
  end.
  simpl. rewrite H2.
  assert (Hpre : forall c e ev, e <> x -> has (add_if c e ev) x = has ev x).
  { intros c e ev Hne. rewrite has_add_if.
    destruct c, x, e; simpl; try congruence; now rewrite orb_false_r. }
  assert (Hlate : forall ev, has
     (add_if (cruise_enabled cs && gear_eqb (gearShifter cs) drive
              && negb (Qle_bool (vEgo cs) (5 * kph))) pcmEnable
        (if pcm
         then if cruise_enabled cs && negb (cruise_enabled (CS_out self))
              then add ev pcmEnable
              else add_if (negb (cruise_enabled cs)) pcmDisable ev
         else ev)) x = has ev x).
  { intros ev. rewrite Hpre by (destruct Hx as [-> | [-> | ->]]; discriminate).
    destruct pcm; [|reflexivity].
    destruct (cruise_enabled cs && negb (cruise_enabled (CS_out self))).
    - change (add ev pcmEnable) with (add_if true pcmEnable ev).
      apply Hpre. destruct Hx as [-> | [-> | ->]]; discriminate.
    - apply Hpre. destruct Hx as [-> | [-> | ->]]; discriminate. }
  rewrite Hlate, H1.
  rewrite !Hpre by (destruct Hx as [-> | [-> | ->]]; discriminate).
  reflexivity.
Qed.

(** The new object state is decided by the steering-fault block alone. *)
Lemma create_common_events_state kph limit self cs pcm :
  fst (create_common_events kph limit self cs pcm) =
  let '(u, s, n, _) := steering_faults limit self cs [] in
  mkCarInterfaceBase u s n (CS_out self).
Proof.
  unfold create_common_events, steering_faults.
  destruct (steerFaultTemporary cs); [|reflexivity].
  destruct (steeringPressed cs
            && (negb (steerFaultTemporary (CS_out self))
                || no_steer_warning self)); [reflexivity|].
  destruct (silent_steer_warning self || standstill cs
            || ((if steeringPressed cs then 0
                 else steering_unpressed self + 1) <? limit)%Z); reflexivity.
Qed.

(** C1, as stated, fails: the driver presses the wheel, the temporary fault
    flag is set and no no-steer warning is carried over, but the previous
    cycle reported no fault; the call adds neither temporary-unavailable
    event and latches the no-steer warning instead. *)
Lemma fault_onset_while_pressed_adds_no_event :
  let res := create_common_events (5 # 18) 150 self_fresh cs_fault_pressed true in
  steerFaultTemporary cs_fault_pressed = true
  /\ steeringPressed cs_fault_pressed = true
  /\ no_steer_warning self_fresh = false
  /\ has (snd res) steerTempUnavailableSilent = false
  /\ has (snd res) steerTempUnavailable = false
  /\ no_steer_warning (fst res) = true.
Proof. vm_compute. repeat split. Qed.

(** C1, amended.  In a cycle whose temporary steering fault flag is set:
    when the driver presses the wheel, no no-steer warning is carried over
    and the previous cycle's car state already reported the fault, the
    silent temporary-unavailable event is added; when the driver presses the
    wheel and the fault is new or the no-steer warning is carried over,
    neither temporary-unavailable event is added and the no-steer warning is
    latched; when the driver does not press, the count of cycles since the
    last press has reached the 1.5 s limit, the vehicle is not at standstill
    and no silent warning is latched, the loud event is added.  Whenever the
    permanent fault flag is set, the steerUnavailable event is added. *)
Theorem steering_fault_events :
  forall (kph : Q) (limit : Z) (self : CarInterfaceBase) (cs : CarState)
         (pcm : bool),
    let res := create_common_events kph limit self cs pcm in
    (steerFaultTemporary cs = true ->
     ((0 < limit)%Z -> steeringPressed cs = true ->
      no_steer_warning self = false ->
      steerFaultTemporary (CS_out self) = true ->
      has (snd res) steerTempUnavailableSilent = true)
     /\ (steeringPressed cs = true ->
         steerFaultTemporary (CS_out self) = false
         \/ no_steer_warning self = true ->
         has (snd res) steerTempUnavailableSilent = false
         /\ has (snd res) steerTempUnavailable = false
         /\ no_steer_warning (fst res) = true)
     /\ (steeringPressed cs = false ->
         (limit <= steering_unpressed self + 1)%Z ->
         standstill cs = false ->
         silent_steer_warning self = false ->
         has (snd res) steerTempUnavailable = true))
    /\ (steerFaultPermanent cs = true ->
        has (snd res) steerUnavailable = true).
Proof.
  intros kph limit self cs pcm res. subst res.
  rewrite !create_common_events_steer by tauto.
  rewrite create_common_events_state.
  pose proof (steering_faults_has limit self cs []) as Hhas.
  destruct (steering_faults limit self cs []) as [[[u s] n] ev] eqn:E.
  cbn [snd].
  split.
  - intros Hfault. rewrite !Hhas, Hfault. cbn [has existsb orb andb].
    split; [|split].
    + intros Hlim Hpressed Hno Hprev. rewrite Hpressed, Hno, Hprev.
      apply Z.ltb_lt in Hlim. rewrite Hlim. cbn.
      now rewrite ?orb_true_r.
    + intros Hpressed Hcase.
      assert (Hguard : negb (steerFaultTemporary (CS_out self))
                       || no_steer_warning self = true)
        by (destruct Hcase as [-> | ->]; [reflexivity | apply orb_true_r]).
      rewrite Hpressed, Hguard. cbn. rewrite !andb_false_r.
      repeat split.
      unfold steering_faults in E. rewrite Hfault, Hpressed, Hguard in E.
      cbn in E. now injection E as _ _ <- _.
    + intros Hpressed Hlim Hstand Hsilent.
      rewrite Hpressed, Hstand, Hsilent.
      apply Z.ltb_ge in Hlim. rewrite Hlim. cbn. now rewrite ?orb_true_r.
  - intros Hperm. rewrite Hhas, Hperm. cbn. now rewrite ?orb_true_r.
Qed.

(** The amended statement at concrete cycles: the fault persists under the
    driver's hand (silent), the fault starts under the driver's hand
    (nothing), and the fault is reported 150 cycles after the last press
    (loud), with a permanent fault on top. *)
Lemma steering_fault_events_witness :
  has (snd (create_common_events (5 # 18) 150 self_faulted cs_fault_pressed true))
    steerTempUnavailableSilent = true
  /\ no_steer_warning
       (fst (create_common_events (5 # 18) 150 self_fresh cs_fault_pressed true))
     = true
  /\ has (snd (create_common_events (5 # 18) 150
                (mkCarInterfaceBase 149 false false cs_empty)
                (mkCarState drive true true false false false false 20 false
                   false true true false) true))
       steerTempUnavailable = true.
Proof.
  split; [|split].
  - destruct (steering_fault_events (5 # 18) 150 self_faulted
                cs_fault_pressed true) as [Htemp _].
    destruct (Htemp eq_refl) as (Hsilent & _ & _).
    apply Hsilent; [lia | reflexivity | reflexivity | reflexivity].
  - destruct (steering_fault_events (5 # 18) 150 self_fresh
                cs_fault_pressed true) as [Htemp _].
    destruct (Htemp eq_refl) as (_ & Hnone & _).
    apply Hnone; [reflexivity | left; reflexivity].
  - destruct (steering_fault_events (5 # 18) 150
                (mkCarInterfaceBase 149 false false cs_empty)
                (mkCarState drive true true false false false false 20 false
                   false true true false) true) as [Htemp _].
    destruct (Htemp eq_refl) as (_ & _ & Hloud).
    apply Hloud; [reflexivity | simpl; lia | reflexivity | reflexivity].
Defined.

End CommonEventsFacts.

Module TorqueParamsFacts.
Import TorqueParams.

Section WithValues.
Context `{Countable V}.

(** A row at least as long as the legend gives a record; a key outside the
    legend keeps what it had, and the key at position [j] of a legend
    without repetition holds the cell at position [j] of the row. *)
Lemma keyed_by_spec (legend : list (cell V)) :
  forall (i : nat) (out : list (cell V)) (acc : gmap (cell V) (cell V)),
    i + length legend <= length out ->
    exists m, keyed_by legend i out acc = Ok m
      /\ (forall key, key ∉ legend -> m !! key = acc !! key)
      /\ (NoDup legend -> forall j key,
            legend !! j = Some key -> m !! key = out !! (i + j)).
Proof.
  induction legend as [|key0 legend IH]; intros i out acc Hlen; simpl in *.
  - exists acc. repeat split; auto. intros _ j key Hj. discriminate.
  - destruct (lookup_lt_is_Some_2 out i ltac:(lia)) as [v Hv]. rewrite Hv.
    destruct (IH (S i) out (<[key0 := v]> acc) ltac:(lia))
      as (m & Hm & Hout & Hin).
    exists m. split; [exact Hm|]. split.
    + intros key Hkey. apply not_elem_of_cons in Hkey as [Hne Hkey].
      rewrite Hout by exact Hkey. now apply lookup_insert_ne.
    + intros Hnd j key Hj. apply NoDup_cons in Hnd as [Hfresh Hnd].
      destruct j as [|j]; simpl in Hj.
      * injection Hj as <-. rewrite Hout by exact Hfresh.
        rewrite lookup_insert_eq, Nat.add_0_r. now symmetry.
      * rewrite (Hin Hnd j key Hj). f_equal. lia.
Qed.

Lemma py_in_true {A} (k : string) (d : gmap string A) (a : A) :
  d !! k = Some a -> py_in k d = true.
Proof. intros Hk. unfold py_in. apply bool_decide_eq_true. eauto. Qed.

Lemma py_in_false {A} (k : string) (d : gmap string A) :
  d !! k = None -> py_in k d = false.
Proof.
  intros Hk. unfold py_in. apply bool_decide_eq_false.
  rewrite Hk. now intros [? ?].
Qed.

(** C2, amended.  With [c] the candidate after the substitution table:
    [c] in the base table alone gives the base row keyed by the legend; [c]
    in the override table alone gives the override row keyed by the legend;
    [c] in more than one of the three tables, the base and the override
    table among the cases, raises the configuration conflict; [c] in
    neither the base nor the override table raises not-found.  A row at
    least as long as the legend does give a record, each legend key (the
    legend having no repetition) holding the row's cell at its position. *)
Theorem get_torque_params_layers :
  forall (sub : gmap string string)
         (params override : gmap string (list (cell V)))
         (candidate : string),
    let c := default candidate (sub !! candidate) in
    let r := get_torque_params sub params override candidate in
    (forall row legend,
        sub !! c = None -> override !! c = None -> params !! c = Some row ->
        params !! "legend"%string = Some legend ->
        r = keyed_by legend 0 row ∅)
    /\ (forall row legend,
        sub !! c = None -> params !! c = None -> override !! c = Some row ->
        params !! "legend"%string = Some legend ->
        r = keyed_by legend 0 row ∅)
    /\ ((1 < bool_to_Z (py_in c sub) + bool_to_Z (py_in c params)
             + bool_to_Z (py_in c override))%Z ->
        r = Raise RuntimeError)
    /\ (is_Some (params !! c) -> is_Some (override !! c) ->
        r = Raise RuntimeError)
    /\ (params !! c = None -> override !! c = None ->
        r = Raise NotImplementedError)
    /\ (forall legend row : list (cell V),
        length legend <= length row -> NoDup legend ->
        exists m, keyed_by legend 0 row ∅ = Ok m
          /\ forall j key, legend !! j = Some key -> m !! key = row !! j).
Proof.
  intros sub params override candidate c r.
  assert (Hr : r =
    if (1 <? bool_to_Z (py_in c sub) + bool_to_Z (py_in c params)
             + bool_to_Z (py_in c override))%Z
    then Raise RuntimeError
    else
      out ← match override !! c with
            | Some row => Ok row
            | None => match params !! c with
                      | Some row => Ok row
                      | None => Raise NotImplementedError
                      end
            end;
      legend ← match params !! "legend"%string with
               | Some l => Ok l
               | None => Raise KeyError
               end;
      keyed_by legend 0 out ∅).
  { subst r c. unfold get_torque_params.
    now destruct (sub !! candidate). }
  rewrite Hr. clear Hr r.
  split; [|split; [|split; [|split; [|split]]]].
  - intros row legend Hs Ho Hp Hl.
    rewrite (py_in_false _ _ Hs), (py_in_false _ _ Ho), (py_in_true _ _ _ Hp).
    cbn. now rewrite Ho, Hp, Hl.
  - intros row legend Hs Hp Ho Hl.
    rewrite (py_in_false _ _ Hs), (py_in_false _ _ Hp), (py_in_true _ _ _ Ho).
    cbn. now rewrite Ho, Hl.
  - intros Hmany. apply Z.ltb_lt in Hmany. now rewrite Hmany.
  - intros [rp Hp] [ro Ho].
    rewrite (py_in_true _ _ _ Hp), (py_in_true _ _ _ Ho).
    destruct (py_in c sub); reflexivity.
  - intros Hp Ho.
    rewrite (py_in_false _ _ Hp), (py_in_false _ _ Ho).
    destruct (py_in c sub); cbn; now rewrite Ho, Hp.
  - intros legend row Hlen Hnd.
    destruct (keyed_by_spec legend 0 row ∅ ltac:(simpl; lia))
      as (m & Hm & _ & Hin).
    exists m. split; [exact Hm|]. intros j key Hj. now apply Hin.
Qed.

End WithValues.

(** C2, as stated, fails: a candidate in both the base and the override
    table does not get the override row, the call raises the configuration
    conflict. *)
Lemma base_and_override_is_a_conflict :
  is_Some (params_ex !! "KIA NIRO"%string)
  /\ is_Some (override_ex !! "KIA NIRO"%string)
  /\ sub_ex !! "KIA NIRO"%string = None
  /\ get_torque_params sub_ex params_ex override_ex "KIA NIRO"%string
     = Raise RuntimeError.
Proof. vm_compute. repeat split; eauto. Qed.

(** The amended statement on the example files: a substituted candidate
    found in the base table alone, a candidate in the override table alone,
    a candidate in both, and a candidate in neither. *)
Lemma get_torque_params_layers_witness :
  get_torque_params sub_ex params_ex override_ex "GENESIS G90"%string
    = keyed_by legend_ex 0 [CNum 25%Z; CNum 27%Z; CNum 2%Z] ∅
  /\ get_torque_params sub_ex params_ex override_ex "KIA STINGER"%string
    = keyed_by legend_ex 0 [CNum 31%Z; CNum 18%Z; CNum 2%Z] ∅
  /\ get_torque_params sub_ex params_ex override_ex "KIA NIRO"%string
    = Raise RuntimeError
  /\ get_torque_params sub_ex params_ex override_ex "KIA SOUL"%string
    = Raise NotImplementedError
  /\ exists m, keyed_by legend_ex 0 [CNum 25%Z; CNum 27%Z; CNum 2%Z] ∅ = Ok m
       /\ m !! CStr "FRICTION" = Some (CNum 2%Z).
Proof.
  split; [|split; [|split; [|split]]].
  - destruct (get_torque_params_layers sub_ex params_ex override_ex
                "GENESIS G90"%string) as (Hbase & _).
    apply Hbase; vm_compute; reflexivity.
  - destruct (get_torque_params_layers sub_ex params_ex override_ex
                "KIA STINGER"%string) as (_ & Hover & _).
    apply Hover; vm_compute; reflexivity.
  - destruct (get_torque_params_layers sub_ex params_ex override_ex
                "KIA NIRO"%string) as (_ & _ & _ & Hboth & _).
    apply Hboth; vm_compute; eauto.
  - destruct (get_torque_params_layers sub_ex params_ex override_ex
                "KIA SOUL"%string) as (_ & _ & _ & _ & Hnone & _).
    apply Hnone; vm_compute; reflexivity.
  - destruct (get_torque_params_layers sub_ex params_ex override_ex
                "KIA SOUL"%string) as (_ & _ & _ & _ & _ & Hrec).
    destruct (Hrec legend_ex [CNum 25%Z; CNum 27%Z; CNum 2%Z]) as (m & Hm & Hkey).
    + simpl; lia.
    + apply (bool_decide_unpack _). vm_compute. exact I.
    + exists m. split; [exact Hm|]. apply (Hkey 2%nat). reflexivity.
Defined.

End TorqueParamsFacts.

Module FluxModelFacts.
Import FluxModel.

Lemma length_padded (input : list Q) (n : nat) :
  length (input ++ repeat (0 : Q) n) = (length input + n)%nat.
Proof. now rewrite length_app, repeat_length. Qed.

(** The outcome of the length handling in the four cases of the two tests. *)
Lemma pad_input_cases (size : Z) (input : list Q) :
  let in_len := Z.of_nat (length input) in
  (in_len = size -> pad_input size input = Ok input)
  /\ (in_len <> size -> (2 <= in_len)%Z ->
      pad_input size input
      = Ok (input ++ repeat (0 : Q) (Z.to_nat (size - in_len))))
  /\ (in_len <> size -> (in_len < 2)%Z ->
      pad_input size input = Raise ValueError).
Proof.
  intros in_len. unfold pad_input. fold in_len.
  split; [|split].
  - intros Heq. apply Z.eqb_eq in Heq. now rewrite Heq.
  - intros Hne Hge. apply Z.eqb_neq in Hne. apply Z.leb_le in Hge.
    now rewrite Hne, Hge.
  - intros Hne Hlt. apply Z.eqb_neq in Hne. apply Z.leb_gt in Hlt.
    now rewrite Hne, Hlt.
Qed.

(** C8, as stated, fails: a 1-long input to a model that declares input
    size 1 passes the length handling, no invalid-input error is raised. *)
Lemma one_long_input_of_declared_size_passes :
  length [1 # 2] = 1%nat
  /\ pad_input (input_size one_input_model) [1 # 2] = Ok [1 # 2]
  /\ evaluate one_input_model [1 # 2] = Ok (1 # 2)
  /\ evaluate one_input_model [1 # 2] <> Raise ValueError.
Proof. repeat split. discriminate. Qed.

(** C8, amended.  An input of length at least 2 and less than the declared
    input size is handed on with zeros appended, its length then being the
    declared size; an input of length 0 or 1 that differs from the declared
    input size raises the invalid-input error (an input whose length is the
    declared size is always handed on as it is).  For a declared size of 5,
    a 2-long and a 3-long input are padded to length 5 and a 1-long input
    raises. *)
Theorem evaluate_pads_short_input :
  forall (self : FluxModel) (input : list Q),
    let in_len := Z.of_nat (length input) in
    ((2 <= in_len < input_size self)%Z ->
     let padded := input ++ repeat (0 : Q) (Z.to_nat (input_size self - in_len)) in
     pad_input (input_size self) input = Ok padded
     /\ Z.of_nat (length padded) = input_size self
     /\ evaluate self input = rescale_and_forward self padded)
    /\ ((in_len < 2)%Z -> in_len <> input_size self ->
        pad_input (input_size self) input = Raise ValueError
        /\ evaluate self input = Raise ValueError)
    /\ (input_size self = 5%Z ->
        (length input = 2%nat ->
         pad_input 5 input = Ok (input ++ [0; 0; 0]%Q))
        /\ (length input = 3%nat ->
            pad_input 5 input = Ok (input ++ [0; 0]%Q))
        /\ (length input = 1%nat ->
            evaluate self input = Raise ValueError)).
Proof.
  intros self input in_len.
  destruct (pad_input_cases (input_size self) input) as (Hsame & Hpad & Hraise).
  fold in_len in Hsame, Hpad, Hraise.
  split; [|split].
  - intros [Hlo Hhi] padded.
    assert (Hp : pad_input (input_size self) input = Ok padded)
      by (apply Hpad; lia).
    split; [exact Hp|]. split.
    + subst padded. rewrite length_padded. subst in_len. lia.
    + unfold evaluate. now rewrite Hp.
  - intros Hlt Hne.
    assert (Hp : pad_input (input_size self) input = Raise ValueError)
      by (apply Hraise; lia).
    split; [exact Hp|]. unfold evaluate. now rewrite Hp.
  - intros Hfive. rewrite Hfive in *. subst in_len.
    split; [|split]; intros Hlen; rewrite Hlen in *.
    + rewrite Hpad by lia. reflexivity.
    + rewrite Hpad by lia. reflexivity.
    + unfold evaluate. rewrite Hfive, Hraise by lia. reflexivity.
Qed.

Lemma evaluate_pads_short_input_witness :
  pad_input 5 [10; 0]%Q = Ok [10; 0; 0; 0; 0]%Q
  /\ evaluate five_input_model [10; 0; 1 # 5]%Q = Ok 5%Q
  /\ evaluate five_input_model [10]%Q = Raise ValueError.
Proof.
  split; [|split].
  - destruct (evaluate_pads_short_input five_input_model [10; 0]%Q)
      as (Hpad & _).
    apply Hpad. simpl. lia.
  - destruct (evaluate_pads_short_input five_input_model [10; 0; 1 # 5]%Q)
      as (Hpad & _).
    destruct Hpad as (_ & _ & Hev); [simpl; lia|]. exact Hev.
  - destruct (evaluate_pads_short_input five_input_model [10]%Q)
      as (_ & Hraise & _).
    apply Hraise; simpl; lia.
Defined.

(** C9, as stated, fails: a 1-long input has fewer than 2 elements, and for
    a model that declares input size 1 the length handling raises nothing
    and hands the input on. *)
Lemma short_input_of_declared_size_raises_nothing :
  (length [3 # 10]%Q < 2)%nat
  /\ pad_input (input_size one_input_model) [3 # 10]%Q = Ok [3 # 10]%Q
  /\ pad_input (input_size one_input_model) [3 # 10]%Q <> Raise ValueError.
Proof. repeat split; [simpl; lia | discriminate]. Qed.

(** C9, amended.  The length handling raises the invalid-input error exactly
    when the input has fewer than 2 elements and its length differs from
    the declared input size, and it raises nothing else.  An input of
    length 2 or more raises nothing; one longer than the declared size is
    handed on unmodified, the padding appending no element. *)
Theorem pad_input_raises_iff :
  forall (size : Z) (input : list Q),
    let in_len := Z.of_nat (length input) in
    (pad_input size input = Raise ValueError
     <-> (in_len < 2)%Z /\ in_len <> size)
    /\ (forall e, pad_input size input = Raise e -> e = ValueError)
    /\ ((2 <= in_len)%Z -> exists l, pad_input size input = Ok l)
    /\ ((2 <= in_len)%Z -> (size < in_len)%Z ->
        repeat (0 : Q) (Z.to_nat (size - in_len)) = []
        /\ pad_input size input = Ok input).
Proof.
  intros size input in_len.
  destruct (pad_input_cases size input) as (Hsame & Hpad & Hraise).
  fold in_len in Hsame, Hpad, Hraise.
  destruct (Z.eq_dec in_len size) as [Heq | Hne];
    [| destruct (Z_lt_ge_dec in_len 2) as [Hlt | Hge]].
  - rewrite (Hsame Heq).
    split; [split; [discriminate | intros [_ Hne]; contradiction]|].
    split; [discriminate|]. split; [eauto|]. lia.
  - rewrite (Hraise Hne Hlt).
    split; [split; [split; assumption | reflexivity]|].
    split; [congruence|]. split; lia.
  - rewrite (Hpad Hne ltac:(lia)).
    split; [split; [discriminate | lia]|].
    split; [discriminate|]. split; [eauto|].
    intros _ Hlong.
    assert (Hz : Z.to_nat (size - in_len) = 0%nat) by lia.
    rewrite Hz. simpl. now rewrite app_nil_r.
Qed.

Lemma pad_input_raises_iff_witness :
  pad_input 3 [1; 2; 3; 4; 5]%Q = Ok [1; 2; 3; 4; 5]%Q
  /\ pad_input 5 [1]%Q = Raise ValueError.
Proof.
  split.
  - destruct (pad_input_raises_iff 3 [1; 2; 3; 4; 5]%Q) as (_ & _ & _ & Hlong).
    apply Hlong; simpl; lia.
  - destruct (pad_input_raises_iff 5 [1]%Q) as (Hiff & _).
    apply Hiff. simpl. split; lia.
Defined.

End FluxModelFacts.

Module HyundaiFacts.
Import Hyundai.

(** C3.  For a fingerprint that has the maps of buses 0, 1 and 2,
    [_get_params] returns, and in the returned parameters: sccBus is 0 when
    id 1056 is on bus 0; otherwise 1 when 1056 is on bus 1 and 1296 is not;
    otherwise 2 when 1056 is on bus 2; otherwise -1.  When sccBus is -1,
    radarOffCan is true, pcmCruise is false and the community safety
    profile is selected.  The community profile is selected exactly when
    radarOffCan holds, or mdpsBus is 1, or openpilot longitudinal control is
    enabled, or sccBus is 1, or the mad-mode flag is set; the legacy profile
    is kept otherwise. *)
Theorem scc_bus_and_safety_profile :
  forall (params : Params) (ret : CarParams) (fp : fingerprint)
         (f0 f1 f2 : gmap Z Z),
    fp !! 0%Z = Some f0 -> fp !! 1%Z = Some f1 -> fp !! 2%Z = Some f2 ->
    exists ret', _get_params params ret fp = Ok ret'
      /\ sccBus ret' = scc_bus_of f0 f1 f2
      /\ radarOffCan ret' = (sccBus ret' =? -1)%Z
      /\ pcmCruise ret' = negb (radarOffCan ret')
      /\ (sccBus ret' = (-1)%Z ->
          radarOffCan ret' = true /\ pcmCruise ret' = false
          /\ safetyConfigs ret' = [(hyundaiCommunity, 0%Z)])
      /\ safetyConfigs ret'
         = (if radarOffCan ret' || (mdpsBus ret' =? 1)%Z
               || openpilotLongitudinalControl ret' || (sccBus ret' =? 1)%Z
               || MadModeEnabled params
            then [(hyundaiCommunity, 0%Z)]
            else [(hyundaiLegacy, 0%Z)])
      /\ openpilotLongitudinalControl ret' = LongControlEnabled params.
Proof.
  intros params ret fp f0 f1 f2 H0 H1 H2.
  unfold _get_params, getitem, scc_bus_of.
  rewrite H0, H1. cbn [mbind result_bind].
  destruct (seen 1056 f0) eqn:E0; cbn [mbind result_bind].
  - change (0 <=? 0)%Z with true. cbn iota. rewrite H0. cbn [mbind result_bind].
    eexists. split; [reflexivity|]. cbn.
    repeat split; try reflexivity; discriminate.
  - destruct (seen 1056 f1 && negb (seen 1296 f1)) eqn:E1;
      cbn [mbind result_bind].
    + change (0 <=? 1)%Z with true. cbn iota. rewrite H1.
      cbn [mbind result_bind].
      eexists. split; [reflexivity|]. cbn.
      repeat split; try reflexivity; discriminate.
    + rewrite H2. cbn [mbind result_bind].
      destruct (seen 1056 f2) eqn:E2.
      * change (0 <=? 2)%Z with true. cbn iota. rewrite H2.
        cbn [mbind result_bind].
        eexists. split; [reflexivity|]. cbn.
        repeat split; try reflexivity; discriminate.
      * change (0 <=? -1)%Z with false. cbn iota. cbn [mbind result_bind].
        eexists. split; [reflexivity|]. cbn.
        repeat split; reflexivity.
Qed.

(** The statement on a fingerprint without SCC (community profile, no PCM
    cruise) and on one with SCC on bus 2 (legacy profile kept). *)
Lemma scc_bus_and_safety_profile_witness :
  (exists ret', _get_params (mkParams false false) std_params fp_no_scc = Ok ret'
     /\ sccBus ret' = (-1)%Z /\ pcmCruise ret' = false
     /\ safetyConfigs ret' = [(hyundaiCommunity, 0%Z)])
  /\ (exists ret', _get_params (mkParams false false) std_params fp_scc_bus2
                   = Ok ret'
       /\ sccBus ret' = 2%Z
       /\ safetyConfigs ret' = [(hyundaiLegacy, 0%Z)]).
Proof.
  split.
  - destruct (scc_bus_and_safety_profile (mkParams false false) std_params
                fp_no_scc (<[593%Z := 8%Z]> (<[1151%Z := 6%Z]> ∅)) ∅ ∅)
      as (ret' & Hret & Hscc & _ & _ & Hoff & _);
      [vm_compute; reflexivity ..|].
    assert (Hminus : sccBus ret' = (-1)%Z) by (rewrite Hscc; vm_compute; reflexivity).
    destruct (Hoff Hminus) as (_ & Hpcm & Hsafety).
    exists ret'. repeat split; assumption.
  - destruct (scc_bus_and_safety_profile (mkParams false false) std_params
                fp_scc_bus2 (<[593%Z := 8%Z]> ∅) ∅
                (<[1056%Z := 8%Z]> (<[1290%Z := 8%Z]> ∅)))
      as (ret' & Hret & Hscc & Hradar & _ & _ & Hsafety & Hlong);
      [vm_compute; reflexivity ..|].
    assert (Htwo : sccBus ret' = 2%Z) by (rewrite Hscc; vm_compute; reflexivity).
    exists ret'. split; [exact Hret|]. split; [exact Htwo|].
    rewrite Hsafety, Hradar, Hlong, Htwo.
    injection Hret as <-. vm_compute. reflexivity.
Defined.

End HyundaiFacts.

Module RadarFacts.
Import NumpyFast Radar.

(** A cycle with an invalid reading. *)
Lemma step_invalid self parser :
  truthy (ACC_ObjStatus (vl_SCC11 parser)) = false ->
  step self parser
  = mkRadarInterface ∅ (track_id self) (prev_dist self) (Some parser).
Proof.
  intros Hv. unfold step, _update. cbn [rcp pts track_id prev_dist].
  now rewrite Hv.
Qed.

(** A cycle with a valid reading that finds no track in slot 0 once the
    jump test has run: a track is created under the next id. *)
Lemma step_create self parser :
  let msg := vl_SCC11 parser in
  let dist := ACC_ObjDist msg in
  let pts1 := if jumped dist (prev_dist self) then ∅ else pts self in
  truthy (ACC_ObjStatus msg) = true ->
  pts1 !! 0%Z = None ->
  step self parser
  = mkRadarInterface
      (<[0%Z := set_fields dist msg
                  (mkRadarPoint (track_id self) 0 0 0 (Fin 0) (Fin 0) false)]>
         pts1)
      (track_id self + 1) dist (Some parser).
Proof.
  intros msg dist pts1 Hv Hnone. subst msg dist pts1.
  unfold step, _update. cbn [rcp pts track_id prev_dist]. rewrite Hv, Hnone.
  cbn [fst]. now rewrite alter_insert_eq.
Qed.

(** A cycle with a valid reading within tolerance that finds a track in
    slot 0: the track is updated. *)
Lemma step_update self parser p :
  let msg := vl_SCC11 parser in
  let dist := ACC_ObjDist msg in
  truthy (ACC_ObjStatus msg) = true ->
  jumped dist (prev_dist self) = false ->
  pts self !! 0%Z = Some p ->
  step self parser
  = mkRadarInterface (alter (set_fields dist msg) 0%Z (pts self))
      (track_id self) dist (Some parser).
Proof.
  intros msg dist Hv Hj Hsome. subst msg dist.
  unfold step, _update. cbn [rcp pts track_id prev_dist].
  rewrite Hv, Hj, Hsome. reflexivity.
Qed.

Lemma step_ids_below self parser : ids_below self -> ids_below (step self parser).
Proof.
  intros Hinv.
  destruct (truthy (ACC_ObjStatus (vl_SCC11 parser))) eqn:Hv.
  - destruct (jumped (ACC_ObjDist (vl_SCC11 parser)) (prev_dist self)) eqn:Hj.
    + pose proof (step_create self parser Hv) as Hs. cbn zeta in Hs.
      rewrite Hj in Hs. rewrite (Hs (lookup_empty _)).
      intros k p. cbn. rewrite insert_empty.
      intros [_ Hp]%lookup_singleton_Some. subst p. cbn. lia.
    + destruct (pts self !! 0%Z) as [p0|] eqn:Hp.
      * rewrite (step_update self parser p0 Hv Hj Hp).
        intros k p. cbn. intros Hk.
        apply lookup_alter_Some in Hk as [(_ & q & Hq & Hy) | [_ Hk]].
        -- subst p. cbn. exact (Hinv _ _ Hq).
        -- exact (Hinv _ _ Hk).
      * pose proof (step_create self parser Hv) as Hs. cbn zeta in Hs.
        rewrite Hj in Hs. rewrite (Hs Hp).
        intros k p. cbn.
        intros [[_ Hq] | [_ Hk]]%lookup_insert_Some.
        -- subst p. cbn. lia.
        -- specialize (Hinv _ _ Hk). lia.
  - rewrite (step_invalid self parser Hv). intros k p. cbn.
    now rewrite lookup_empty.
Qed.

Lemma run_cycles_snoc cycles parser : run (cycles ++ [parser]) = step (run cycles) parser.
Proof. unfold run. now rewrite fold_left_app. Qed.

Lemma run_ids_below cycles : ids_below (run cycles).
Proof.
  induction cycles as [|parser cycles IH] using rev_ind.
  - intros k p. cbn. now rewrite lookup_empty.
  - rewrite run_cycles_snoc. now apply step_ids_below.
Qed.

(** C4.  In single-object mode, after any sequence of cycles, a further
    cycle with a valid SCC11 reading whose distance differs from the
    previous cycle's distance by more than clip(distance/20, 1, 5) leaves
    exactly one track, in slot 0, whose track id is the freshly allocated
    one, strictly larger than the id of every track held before; a valid
    reading within that tolerance updates the track found in slot 0 in
    place, keeping its track id, and allocates nothing.  From a previous
    distance of 50, a reading of 55 is a jump and a reading of 51 is not.
    An invalid reading clears all tracks. *)
Theorem single_object_tracking :
  forall (cycles : list CANParser) (parser : CANParser),
    let self := run cycles in
    let self' := step self parser in
    let msg := vl_SCC11 parser in
    let dist := ACC_ObjDist msg in
    (truthy (ACC_ObjStatus msg) = true ->
     (jumped dist (prev_dist self) = true ->
      exists p', pts self' = {[0%Z := p']}
        /\ trackId p' = track_id self
        /\ track_id self' = (track_id self + 1)%Z
        /\ dRel p' = dist /\ measured p' = true
        /\ forall k p, pts self !! k = Some p -> (trackId p < trackId p')%Z)
     /\ (jumped dist (prev_dist self) = false ->
         forall p, pts self !! 0%Z = Some p ->
           exists p', pts self' !! 0%Z = Some p'
             /\ trackId p' = trackId p
             /\ dRel p' = dist /\ measured p' = true
             /\ track_id self' = track_id self
             /\ forall k, k <> 0%Z -> pts self' !! k = pts self !! k)
     /\ prev_dist self' = dist)
    /\ (truthy (ACC_ObjStatus msg) = false -> pts self' = ∅)
    /\ jumped 55 50 = true /\ jumped 51 50 = false.
Proof.
  intros cycles parser self self' msg dist.
  pose proof (run_ids_below cycles) as Hinv. fold self in Hinv.
  split; [|split; [|split; reflexivity]].
  - intros Hv. split; [|split].
    + intros Hj.
      pose proof (step_create self parser Hv) as Hs. cbn zeta in Hs.
      fold msg dist in Hs. rewrite Hj in Hs.
      specialize (Hs (lookup_empty _)). fold self' in Hs.
      eexists. rewrite Hs. cbn. rewrite insert_empty.
      split; [reflexivity|]. cbn.
      repeat split; try reflexivity.
      intros k p Hk. exact (Hinv _ _ Hk).
    + intros Hj p Hp.
      pose proof (step_update self parser p Hv Hj Hp) as Hs.
      fold msg dist self' in Hs. rewrite Hs. cbn.
      exists (set_fields dist msg p). rewrite lookup_alter_eq, Hp. cbn.
      repeat split; try reflexivity.
      intros k Hk. now apply lookup_alter_ne.
    + subst self' msg dist. unfold step, _update.
      cbn [rcp pts track_id prev_dist]. rewrite Hv.
      destruct ((if jumped (ACC_ObjDist (vl_SCC11 parser)) (prev_dist self)
                 then ∅ else pts self) !! 0%Z);
        reflexivity.
  - intros Hv. subst self'. now rewrite (step_invalid self parser Hv).
Qed.

(** The statement on the cycles of the specification's example: a first
    reading at 50 m, then a reading at 55 m (new track, id 1 after id 0),
    or a reading at 51 m (the track with id 0 stays), or an invalid one. *)
Lemma single_object_tracking_witness :
  (exists p', pts (step (run [reading 50]) (reading 55)) = {[0%Z := p']}
     /\ trackId p' = 1%Z)
  /\ (exists p', pts (step (run [reading 50]) (reading 51)) !! 0%Z = Some p'
       /\ trackId p' = 0%Z)
  /\ pts (step (run [reading 50]) (mkCANParser true (mkSCC11 0 0 0 0))) = ∅.
Proof.
  split; [|split].
  - destruct (single_object_tracking [reading 50] (reading 55)) as (Hvalid & _).
    destruct (Hvalid eq_refl) as (Hjump & _).
    destruct (Hjump eq_refl) as (p' & Hp & Hid & _).
    exists p'. split; [exact Hp | exact Hid].
  - destruct (single_object_tracking [reading 50] (reading 51)) as (Hvalid & _).
    destruct (Hvalid eq_refl) as (_ & Hkeep & _).
    destruct (Hkeep eq_refl (mkRadarPoint 0 50 (-0) 0 NaN NaN true))
      as (p' & Hp & Hid & _).
    + vm_compute. reflexivity.
    + exists p'. split; [exact Hp | exact Hid].
  - destruct (single_object_tracking [reading 50]
                (mkCANParser true (mkSCC11 0 0 0 0))) as (_ & Hinvalid & _).
    apply Hinvalid. reflexivity.
Defined.

End RadarFacts.

Module CruiseFacts.
Import NumpyFast Cruise NumpyFastFacts.

(** Without a release of a tracked button among the events, the loop over
    the events runs to its end. *)
Lemma scan_no_release (events : list ButtonEvent) (tm : timers) :
  (forall b, In b events -> tracked (type_ b) tm -> pressed b = true) ->
  scan_events events tm = NoBreak.
Proof.
  induction events as [|b events IH]; intros Hheld; simpl; [reflexivity|].
  assert (Hrest : scan_events events tm = NoBreak)
    by (apply IH; intros b' Hb'; apply Hheld; now right).
  destruct (lookup_timer (type_ b) tm) as [n|] eqn:Hn; [|exact Hrest].
  rewrite (Hheld b (or_introl eq_refl)); [exact Hrest|].
  unfold tracked. now rewrite Hn.
Qed.

(** Rounding to a tenth leaves a whole number as it is. *)
Lemma round1_integer (x : Q) (m : Z) : x == inject_Z m -> round1 x == x.
Proof.
  intros Hx. unfold round1.
  assert (Ht : (x * 10)%Q == inject_Z (m * 10))
    by (rewrite Hx, inject_Z_mult; reflexivity).
  rewrite (Qfloor_comp _ _ Ht), Qfloor_Z.
  assert (Hr : ((x * 10 - inject_Z (m * 10)) ?= 1 # 2)%Q = Lt).
  { apply Qlt_alt. rewrite Ht. unfold Qminus. rewrite Qplus_opp_r.
    reflexivity. }
  rewrite Hr, Hx. unfold Qeq, inject_Z. simpl. lia.
Qed.

(** A release held for more than 50 cycles ends the call before the held
    buttons are looked at: no release qualifies as a short press (the one
    release, of decelCruise, comes after 60 cycles) and accelCruise is held
    at exactly 50 cycles, yet the call returns 71.3 unchanged. *)
Lemma release_after_long_press_returns_unchanged :
  let events := [mkButtonEvent decelCruise false] in
  let tm := [(decelCruise, 60%Z); (accelCruise, 50%Z)] in
  (forall b n, In b events -> pressed b = false ->
     lookup_timer (type_ b) tm = Some n -> (CRUISE_LONG_PRESS < n)%Z)
  /\ held_button tm = Some accelCruise
  /\ update_v_cruise (713 # 10) events tm true true = Ok (713 # 10)%Q
  /\ ~ (713 # 10 == 75)%Q.
Proof.
  cbn zeta. split; [|split; [|split]].
  - intros b n [<- | []] _ Hn. cbn in Hn. injection Hn as <-.
    unfold CRUISE_LONG_PRESS. lia.
  - reflexivity.
  - reflexivity.
  - intros Heq. discriminate Heq.
Qed.

(** Lines 82 to 87 on a long press of accelCruise or decelCruise, metric:
    the increment is 5 times 1.0; a set speed that is not a multiple of 5.0
    snaps to the next multiple (ceiling for accelCruise, floor for
    decelCruise), a multiple moves by one increment in the button's
    direction; the value is rounded to 0.1 (which leaves a snapped value as
    it is) and clamped to [8, 180]. *)
Lemma long_press_stepped_speed (v : Q) (k : ButtonType) (nearest : Q -> Z)
    (sign : Q) :
  (k = accelCruise /\ nearest = Qceiling /\ sign = 1%Q)
  \/ (k = decelCruise /\ nearest = Qfloor /\ sign = (-1)%Q) ->
  let aligned := Qeq_bool (fmod v 5) 0 in
  let stepped := if aligned then (v + 5 * sign)%Q
                 else (inject_Z (nearest (v / 5)%Q) * 5)%Q in
  let clamped := clip (round1 stepped) V_CRUISE_MIN V_CRUISE_MAX in
  stepped_speed v 5 k true = Ok clamped
  /\ (aligned = false ->
      clamped
      == clip (inject_Z (nearest (v / 5)%Q) * 5)%Q V_CRUISE_MIN V_CRUISE_MAX)
  /\ (8 <= clamped)%Q /\ (clamped <= 180)%Q.
Proof.
  intros Hbutton aligned stepped clamped.
  split; [|split; [|split]].
  - subst clamped stepped aligned. unfold stepped_speed.
    destruct Hbutton as [(-> & -> & ->) | (-> & -> & ->)];
      cbn -[fmod round1 clip Qmult Qplus Qdiv Qminus Qceiling Qfloor];
      destruct (Qeq_bool (fmod v 5) 0); reflexivity.
  - intros Hal. subst clamped stepped. rewrite Hal.
    apply clip_comp.
    apply (round1_integer _ (nearest (v / 5)%Q * 5)).
    now rewrite inject_Z_mult.
  - apply clip_bounds. discriminate.
  - apply clip_bounds. discriminate.
Qed.

(** Every long press of accelCruise or decelCruise ends in a NameError: in
    an enabled call whose button events hold no release of a tracked button
    and whose first tracked button with a nonzero hold time that is a
    multiple of 50 is accelCruise or decelCruise, lines 82 to 87 compute the
    step and line 89 then reads [set_speed_offset]. *)
Lemma long_press_reads_unbound_name (v : Q) (events : list ButtonEvent)
    (tm : timers) (k : ButtonType) (metric : bool) :
  (forall b, In b events -> tracked (type_ b) tm -> pressed b = true) ->
  held_button tm = Some k ->
  k = accelCruise \/ k = decelCruise ->
  (exists stepped,
     stepped_speed v ((if metric then 1 else 16 # 10) * 5) k true = Ok stepped)
  /\ update_v_cruise v events tm true metric = Raise NameError.
Proof.
  intros Hheld Hk Hbutton.
  assert (Hstep : exists stepped,
            stepped_speed v ((if metric then 1 else 16 # 10) * 5) k true
            = Ok stepped).
  { unfold stepped_speed.
    destruct Hbutton as [-> | ->];
      destruct (true && negb (Qeq_bool (fmod v _) 0));
      cbn [CRUISE_NEAREST_FUNC CRUISE_INTERVAL_SIGN mbind result_bind];
      eexists; reflexivity. }
  split; [exact Hstep|].
  destruct Hstep as [stepped Hstepped].
  unfold update_v_cruise. cbn [negb].
  rewrite (scan_no_release events tm Hheld), Hk.
  assert (Hraw : negb (raw k =? 0)%Z = true)
    by (destruct Hbutton as [-> | ->]; reflexivity).
  rewrite Hraw, Hstepped. reflexivity.
Qed.

(** C5.  The code fails where the claim gives a speed.  At the claim's
    example (an enabled, metric call at 71.3 kph, no button event,
    accelCruise held for exactly 50 cycles) lines 82 to 87 compute the
    long-press step the claim describes, 75.0 kph, and line 89 then reads
    [set_speed_offset], a name the module binds nowhere: the call raises a
    NameError and returns no speed.  The same holds of every long press of
    accelCruise or decelCruise: in an enabled call whose button events hold
    no release of a tracked button and whose first tracked button with a
    nonzero hold time that is a multiple of 50 is accelCruise or
    decelCruise, the step is computed and the call raises a NameError. *)
Theorem long_press_raises_name_error :
  let tm := [(decelCruise, 0%Z); (accelCruise, 50%Z)] in
  (exists stepped,
     scan_events [] tm = NoBreak
     /\ held_button tm = Some accelCruise
     /\ stepped_speed (713 # 10) 5 accelCruise true = Ok stepped
     /\ stepped == 75
     /\ update_v_cruise (713 # 10) [] tm true true = Raise NameError)
  /\ (forall (v : Q) (events : list ButtonEvent) (tm : timers)
             (k : ButtonType) (metric : bool),
        (forall b, In b events -> tracked (type_ b) tm -> pressed b = true) ->
        held_button tm = Some k ->
        k = accelCruise \/ k = decelCruise ->
        (exists stepped,
           stepped_speed v ((if metric then 1 else 16 # 10) * 5) k true
           = Ok stepped)
        /\ update_v_cruise v events tm true metric = Raise NameError).
Proof.
  cbn zeta. split.
  - destruct (long_press_stepped_speed (713 # 10) accelCruise Qceiling 1%Q)
      as (Hstep & _); [left; repeat split|].
    eexists. split; [reflexivity|]. split; [reflexivity|].
    split; [exact Hstep|]. split; reflexivity.
  - intros v events tm k metric.
    apply long_press_reads_unbound_name.
Qed.

End CruiseFacts.


Module CurvatureFacts.
Import NumpyFast Curvature NumpyFastFacts.

Lemma py_div_ok (x y : Q) : ~ y == 0 -> py_div x y = Ok (x / y)%Q.
Proof.
  intros Hy. unfold py_div. destruct (Qeq_bool y 0) eqn:E; [|reflexivity].
  apply Qeq_bool_iff in E. contradiction.
Qed.

(** [max(lo, x)] is at least [lo]. *)
Lemma py_max_ge (lo x : Q) : (lo <= py_max lo x)%Q.
Proof.
  unfold py_max. destruct (a_ltb lo x) eqn:E.
  - apply ltb_Q_true in E. now apply Qlt_le_weak.
  - apply Qle_refl.
Qed.

Lemma positive_not_zero (lo x : Q) : (0 < lo)%Q -> (lo <= x)%Q -> ~ x == 0.
Proof.
  intros Hlo Hx Hz. rewrite Hz in Hx. exact (Qlt_not_le _ _ Hlo Hx).
Qed.

(** C6, as stated, fails: the curvature trajectory is malformed (empty)
    while the headings and the distances have 17 samples; nothing is
    replaced, and the call fails on reading [curvatures[0]]. *)
Lemma malformed_curvatures_are_not_replaced :
  length (@nil Q) <> 17%nat
  /\ select_trajectories zeros [] zeros zeros = (zeros, [], zeros, zeros)
  /\ select_trajectories zeros [] zeros zeros <> (zeros, zeros, zeros, zeros)
  /\ get_lag_adjusted_curvature T_IDXS_model (1 # 10) (5 # 100) 20
       zeros [] zeros zeros true = Raise IndexError.
Proof. repeat split; try discriminate. Qed.

(** C6, amended.  When the heading trajectory or the distance trajectory
    does not have exactly 17 samples, all four trajectories are replaced by
    all-zero 17-sample ones before any computation, and the call then
    returns (the time grid having a sample and, on the speed-based path,
    the delay not being zero).  When those two have 17 samples, none is
    replaced, whatever the lengths of the other two. *)
Theorem malformed_trajectories_fall_back :
  forall (T_IDXS : list Q) (steerActuatorDelay DT_MDL v_ego : Q)
         (psis curvatures curvature_rates distances : list Q)
         (average_desired_curvature : bool),
    (length psis <> 17%nat \/ length distances <> 17%nat ->
     select_trajectories psis curvatures curvature_rates distances
     = (zeros, zeros, zeros, zeros)
     /\ get_lag_adjusted_curvature T_IDXS steerActuatorDelay DT_MDL v_ego
          psis curvatures curvature_rates distances average_desired_curvature
        = get_lag_adjusted_curvature T_IDXS steerActuatorDelay DT_MDL v_ego
            zeros zeros zeros zeros average_desired_curvature
     /\ (T_IDXS <> [] ->
         average_desired_curvature = true
         \/ ~ (steerActuatorDelay + (2 # 10))%Q == 0 ->
         exists c r,
           get_lag_adjusted_curvature T_IDXS steerActuatorDelay DT_MDL v_ego
             psis curvatures curvature_rates distances
             average_desired_curvature = Ok (c, r)))
    /\ (length psis = 17%nat -> length distances = 17%nat ->
        select_trajectories psis curvatures curvature_rates distances
        = (psis, curvatures, curvature_rates, distances)).
Proof.
  intros T_IDXS sad DT_MDL v_ego psis curvatures rates distances avg.
  split.
  - intros Hbad.
    assert (Hsel : select_trajectories psis curvatures rates distances
                   = (zeros, zeros, zeros, zeros)).
    { unfold select_trajectories.
      destruct Hbad as [Hp | Hd].
      - apply Nat.eqb_neq in Hp. unfold CONTROL_N. now rewrite Hp.
      - apply Nat.eqb_neq in Hd. unfold CONTROL_N. rewrite Hd.
        now rewrite orb_true_r. }
    assert (Hzero : select_trajectories zeros zeros zeros zeros
                    = (zeros, zeros, zeros, zeros)) by reflexivity.
    assert (Hsame :
      get_lag_adjusted_curvature T_IDXS sad DT_MDL v_ego
        psis curvatures rates distances avg
      = get_lag_adjusted_curvature T_IDXS sad DT_MDL v_ego
          zeros zeros zeros zeros avg).
    { unfold get_lag_adjusted_curvature. now rewrite Hsel, Hzero. }
    split; [exact Hsel|]. split; [exact Hsame|].
    intros HT Hpath. rewrite Hsame.
    unfold get_lag_adjusted_curvature. rewrite Hzero.
    change (getitem zeros 0) with (Ok 0%Q). cbn [mbind result_bind].
    assert (Hgrid : firstn CONTROL_N T_IDXS <> [])
      by (destruct T_IDXS; [congruence | discriminate]).
    assert (Hlen : length (firstn CONTROL_N T_IDXS) <= length zeros)
      by (rewrite length_firstn; unfold zeros; rewrite repeat_length; lia).
    destruct (interp_total (sad + (2 # 10))%Q _ zeros Hgrid Hlen) as (y & ->).
    cbn [mbind result_bind].
    pose proof (py_max_ge MIN_DIST y) as Hdist.
    pose proof (py_max_ge MIN_SPEED v_ego) as Hspeed.
    set (distance := py_max MIN_DIST y) in *.
    set (v := py_max MIN_SPEED v_ego) in *.
    assert (Hd0 : ~ distance == 0)
      by (apply (positive_not_zero MIN_DIST); [reflexivity | exact Hdist]).
    assert (Hv0 : ~ v == 0)
      by (apply (positive_not_zero MIN_SPEED); [reflexivity | exact Hspeed]).
    assert (Hvv : ~ (v * v)%Q == 0)
      by (intros Hz; apply Qmult_integral in Hz; tauto).
    rewrite (py_div_ok MAX_LATERAL_JERK _ Hvv).
    destruct avg.
    + rewrite (py_div_ok y _ Hd0). cbn [mbind result_bind]. eauto.
    + destruct Hpath as [Habs | Hdelay]; [discriminate|].
      assert (Hvd : ~ (v * (sad + (2 # 10)))%Q == 0)
        by (intros Hz; apply Qmult_integral in Hz; tauto).
      rewrite (py_div_ok y _ Hvd). cbn [mbind result_bind]. eauto.
  - intros Hp Hd. unfold select_trajectories, CONTROL_N.
    now rewrite Hp, Hd.
Qed.

(** The amended statement on a heading trajectory that is too short. *)
Lemma malformed_trajectories_fall_back_witness :
  select_trajectories [1 # 100] [3 # 1000] [0%Q] zeros
  = (zeros, zeros, zeros, zeros)
  /\ exists c r,
       get_lag_adjusted_curvature T_IDXS_model (1 # 10) (5 # 100) 20
         [1 # 100] [3 # 1000] [0%Q] zeros false = Ok (c, r).
Proof.
  destruct (malformed_trajectories_fall_back T_IDXS_model (1 # 10) (5 # 100) 20
              [1 # 100] [3 # 1000] [0%Q] zeros false) as (Hbad & _).
  destruct Hbad as (Hsel & _ & Hret); [left; discriminate|].
  split; [exact Hsel|].
  apply Hret; [discriminate | right; discriminate].
Defined.

End CurvatureFacts.

Module TurnLimitFacts.
Import NumpyFast TurnLimit.
Local Open Scope R_scope.

Lemma interp_a_total_max (v_ego : R) :
  interp v_ego _A_TOTAL_MAX_BP _A_TOTAL_MAX_V = Ok (a_total_max_of v_ego).
Proof.
  unfold interp, a_total_max_of, _A_TOTAL_MAX_BP, _A_TOTAL_MAX_V.
  cbn [find_hi a_ltb R_arith length].
  destruct (Rlt_dec 20 v_ego) as [H20 | H20]; cbn [find_hi a_ltb R_arith].
  - destruct (Rlt_dec 40 v_ego) as [H40 | H40]; cbn.
    + destruct (Rlt_dec 40 v_ego); [reflexivity | contradiction].
    + reflexivity.
  - reflexivity.
Qed.

Lemma py_max_Rmax (a b : R) : py_max a b = Rmax a b.
Proof.
  unfold py_max, Rmax. cbn.
  destruct (Rlt_dec a b), (Rle_dec a b); try reflexivity; lra.
Qed.

Lemma py_min_Rmin (a b : R) : py_min a b = Rmin a b.
Proof.
  unfold py_min, Rmin. cbn.
  destruct (Rlt_dec b a), (Rle_dec a b); try reflexivity; lra.
Qed.

(** The floor [max(x, 0.)] keeps [math.sqrt] inside its domain: the root of
    the floored number is returned, never a ValueError. *)
Lemma math_sqrt_floored (x : R) :
  math_sqrt (py_max x 0) = Ok (sqrt (Rmax x 0)).
Proof.
  rewrite py_max_Rmax. unfold math_sqrt.
  destruct (Rlt_dec (Rmax x 0) 0) as [Hneg | _]; [|reflexivity].
  pose proof (Rmax_r x 0). lra.
Qed.

(** Below zero [math.sqrt] fails: without the floor, a lateral estimate
    whose square exceeds the envelope's square would end the call. *)
Lemma math_sqrt_negative (x : R) : x < 0 -> math_sqrt x = Raise ValueError.
Proof.
  intros Hneg. unfold math_sqrt.
  destruct (Rlt_dec x 0); [reflexivity | contradiction].
Qed.

(** What [math.sqrt] returns is the root that is not negative. *)
Lemma math_sqrt_ok (x r : R) : math_sqrt x = Ok r -> 0 <= r /\ r * r = x.
Proof.
  unfold math_sqrt. destruct (Rlt_dec x 0) as [Hneg | Hpos]; [discriminate|].
  intros [= <-]. split; [apply sqrt_pos|]. apply sqrt_sqrt. lra.
Qed.

(** [limit_accel_in_turns] on a pair of limits, for a car whose
    steerRatio * wheelbase is not zero. *)
Lemma limit_accel_in_turns_pair (v_ego angle_steers lo hi : R) (CP : CarParams) :
  steerRatio CP * wheelbase CP <> 0 ->
  limit_accel_in_turns v_ego angle_steers [lo; hi] CP
  = Ok [lo;
        Rmin hi
          (sqrt (Rmax (a_total_max_of v_ego * a_total_max_of v_ego
                       - (v_ego * v_ego * angle_steers * DEG_TO_RAD
                          / (steerRatio CP * wheelbase CP))
                         * (v_ego * v_ego * angle_steers * DEG_TO_RAD
                            / (steerRatio CP * wheelbase CP))) 0))].
Proof.
  intros Hden. unfold limit_accel_in_turns. rewrite interp_a_total_max.
  cbn [mbind result_bind].
  destruct (Req_dec_T (steerRatio CP * wheelbase CP) 0) as [Hz | _];
    [contradiction|].
  rewrite math_sqrt_floored.
  cbn [getitem lookup list_lookup mbind result_bind].
  now rewrite py_min_Rmin.
Qed.

(** C7.  For a car whose steerRatio * wheelbase is not zero, every v_ego,
    steering angle and limit pair [lo, hi]: the function returns
    [lo, min(hi, a_x_allowed)] with
    a_x_allowed = sqrt(max(a_total^2 - a_y^2, 0)),
    a_total = interp(v_ego, {20, 40}, {1.7, 3.2}) and
    a_y = v_ego^2 * angle * (pi/180) / (steerRatio * wheelbase).  The lower
    bound is unchanged and the returned upper bound is at most hi.  The
    floor is what makes the headroom a number: [math.sqrt] of the floored
    difference returns a_x_allowed, which is not negative and whose square
    is the floored difference, for every input; when a_y^2 exceeds
    a_total^2, [math.sqrt] of the difference itself is a ValueError, the
    floor replaces the difference by 0, a_x_allowed is 0 and the call
    returns [lo, min(hi, 0)]. *)
Theorem limit_accel_in_turns_bounds :
  forall (v_ego angle_steers lo hi : R) (CP : CarParams),
    steerRatio CP * wheelbase CP <> 0 ->
    let a_total := a_total_max_of v_ego in
    let a_y := v_ego * v_ego * angle_steers * (PI / 180)
               / (steerRatio CP * wheelbase CP) in
    let difference := a_total * a_total - a_y * a_y in
    let a_x_allowed := sqrt (Rmax difference 0) in
    interp v_ego _A_TOTAL_MAX_BP _A_TOTAL_MAX_V = Ok a_total
    /\ math_sqrt (py_max difference 0) = Ok a_x_allowed
    /\ limit_accel_in_turns v_ego angle_steers [lo; hi] CP
       = Ok [lo; Rmin hi a_x_allowed]
    /\ Rmin hi a_x_allowed <= hi
    /\ 0 <= a_x_allowed
    /\ a_x_allowed * a_x_allowed = Rmax difference 0
    /\ (a_total * a_total < a_y * a_y ->
        math_sqrt difference = Raise ValueError
        /\ py_max difference 0 = 0
        /\ a_x_allowed = 0
        /\ limit_accel_in_turns v_ego angle_steers [lo; hi] CP
           = Ok [lo; Rmin hi 0])
    /\ 1.7 <= a_total <= 3.2.
Proof.
  intros v_ego angle lo hi CP Hden a_total a_y difference a_x_allowed.
  pose proof (math_sqrt_floored difference) as Hroot.
  fold a_x_allowed in Hroot.
  destruct (math_sqrt_ok _ _ Hroot) as [Hpos Hsquare].
  rewrite py_max_Rmax in Hsquare.
  assert (Hret : limit_accel_in_turns v_ego angle [lo; hi] CP
                 = Ok [lo; Rmin hi a_x_allowed])
    by (apply limit_accel_in_turns_pair; exact Hden).
  split; [apply interp_a_total_max|].
  split; [exact Hroot|].
  split; [exact Hret|].
  split; [apply Rmin_l|].
  split; [exact Hpos|].
  split; [exact Hsquare|].
  split.
  - intros Hexceeds.
    assert (Hneg : difference < 0) by (subst difference; lra).
    assert (Hfloor : Rmax difference 0 = 0) by (apply Rmax_right; lra).
    assert (Hzero : a_x_allowed = 0).
    { rewrite Hfloor in Hsquare.
      destruct (Rmult_integral _ _ Hsquare); assumption. }
    split; [apply math_sqrt_negative; exact Hneg|].
    split; [rewrite py_max_Rmax; exact Hfloor|].
    split; [exact Hzero|].
    rewrite Hret, Hzero. reflexivity.
  - subst a_total. unfold a_total_max_of.
    destruct (Rlt_dec 20 v_ego); [|lra].
    destruct (Rlt_dec 40 v_ego); lra.
Qed.

(** The statement for a car with steer ratio 15 and wheelbase 2.7 m, at
    30 m/s with the wheel at 90 degrees: the lateral estimate, above
    33 m/s^2, exceeds the envelope, at most 3.2 m/s^2; the root of the
    difference is a ValueError, and the floor makes the call return an
    upper limit of 0. *)
Lemma limit_accel_in_turns_bounds_witness :
  (exists a_total a_y,
      interp 30 _A_TOTAL_MAX_BP _A_TOTAL_MAX_V = Ok a_total
      /\ a_y = 30 * 30 * 90 * (PI / 180) / (15 * 2.7)
      /\ a_total * a_total < a_y * a_y
      /\ math_sqrt (a_total * a_total - a_y * a_y) = Raise ValueError)
  /\ limit_accel_in_turns 30 90 [-1.2; 1.5] (mkCarParams 15 2.7)
     = Ok [-1.2; 0].
Proof.
  destruct (limit_accel_in_turns_bounds 30 90 (-1.2) 1.5 (mkCarParams 15 2.7))
    as (Htotal & _ & _ & _ & _ & _ & Hfloor & Hrange).
  - cbn. lra.
  - cbn [steerRatio wheelbase] in Hfloor.
    assert (Hexceeds :
              a_total_max_of 30 * a_total_max_of 30
              < 30 * 30 * 90 * (PI / 180) / (15 * 2.7)
                * (30 * 30 * 90 * (PI / 180) / (15 * 2.7))).
    { pose proof PI2_3_2 as Hpi.
      assert (Hy : 33 < 30 * 30 * 90 * (PI / 180) / (15 * 2.7)) by lra.
      nra. }
    destruct (Hfloor Hexceeds) as (Hsqrt & _ & _ & Hret).
    split.
    + exists (a_total_max_of 30), (30 * 30 * 90 * (PI / 180) / (15 * 2.7)).
      split; [exact Htotal|]. split; [reflexivity|].
      split; [exact Hexceeds | exact Hsqrt].
    + rewrite Hret. rewrite Rmin_right by lra. reflexivity.
Defined.

End TurnLimitFacts.

Module DriveHelpersFacts.
Import NumpyFast NumpyFastFacts DriveHelpers.
Import Lqa.

(** Case analysis on every comparison of the goal. *)
Ltac ltb_cases :=
  repeat match goal with
  | |- context [a_ltb ?x ?y] =>
      let E := fresh "E" in
      destruct (a_ltb x y) eqn:E;
      [apply ltb_Q_true in E | apply ltb_Q_false in E]
  end.

(** [clip] with ordered bounds, by cases. *)
Lemma clip_cases (x lo hi : Q) :
  (lo <= hi)%Q ->
  ((x < lo)%Q /\ clip x lo hi == lo)
  \/ ((lo <= x)%Q /\ (x <= hi)%Q /\ clip x lo hi == x)
  \/ ((hi < x)%Q /\ clip x lo hi == hi).
Proof.
  intros Hlohi. unfold clip, py_max, py_min.
  destruct (a_ltb x hi) eqn:E1;
    [apply ltb_Q_true in E1 | apply ltb_Q_false in E1];
    ltb_cases; destruct (Qlt_le_dec x lo); destruct (Qlt_le_dec hi x);
    first [ exfalso; lra
          | left; split; lra
          | right; right; split; lra
          | right; left; repeat split; lra ].
Qed.

(** X1.  For a dead zone that is not negative, [apply_deadzone] removes from
    the error what [clip] keeps of it inside the zone: the result is the
    error minus the error clipped to the zone.  It is zero exactly on the
    zone, never larger in magnitude than the error, and odd in the error. *)
Theorem apply_deadzone_removes_clipped_part :
  forall error deadzone : Q,
    (0 <= deadzone)%Q ->
    apply_deadzone error deadzone
      == error - clip error (- deadzone) deadzone
    /\ (apply_deadzone error deadzone == 0
        <-> (- deadzone <= error <= deadzone)%Q)
    /\ (Qabs (apply_deadzone error deadzone) <= Qabs error)%Q
    /\ apply_deadzone (- error) deadzone == - apply_deadzone error deadzone.
Proof.
  intros e d Hd.
  split; [|split; [|split]].
  - destruct (clip_cases e (- d) d ltac:(lra))
      as [[Hc Hr] | [(Hc & Hc' & Hr) | [Hc Hr]]];
      rewrite Hr; unfold apply_deadzone; ltb_cases; lra.
  - unfold apply_deadzone; ltb_cases; split; intros; lra.
  - unfold apply_deadzone; ltb_cases;
      apply Qabs_case; intros; apply Qabs_case; intros; lra.
  - unfold apply_deadzone; ltb_cases; lra.
Qed.

Lemma apply_deadzone_removes_clipped_part_witness :
  apply_deadzone (3 # 2) (1 # 2) == 1
  /\ apply_deadzone (- (1 # 4)) (1 # 2) == 0.
Proof.
  destruct (apply_deadzone_removes_clipped_part (3 # 2) (1 # 2)) as (H1 & _);
    [discriminate|].
  destruct (apply_deadzone_removes_clipped_part (- (1 # 4)) (1 # 2))
    as (_ & H2 & _); [discriminate|].
  split.
  - rewrite H1. reflexivity.
  - apply H2. split; discriminate.
Defined.

(** X2.  [apply_center_deadzone] returns the error itself or zero, zero
    exactly when the error is strictly inside the zone or is zero itself;
    applying it twice changes nothing more.  For a dead zone that is not
    negative its magnitude lies between that of [apply_deadzone] and that
    of the error. *)
Theorem apply_center_deadzone_keeps_or_zeroes :
  forall error deadzone : Q,
    (apply_center_deadzone error deadzone = error
     \/ apply_center_deadzone error deadzone = 0%Q)
    /\ (apply_center_deadzone error deadzone == 0
        <-> (- deadzone < error /\ error < deadzone)%Q \/ error == 0)
    /\ apply_center_deadzone (apply_center_deadzone error deadzone) deadzone
       = apply_center_deadzone error deadzone
    /\ ((0 <= deadzone)%Q ->
        (Qabs (apply_deadzone error deadzone)
         <= Qabs (apply_center_deadzone error deadzone))%Q
        /\ (Qabs (apply_center_deadzone error deadzone) <= Qabs error)%Q).
Proof.
  intros e d. split; [|split; [|split]].
  - unfold apply_center_deadzone.
    destruct (a_ltb (- d) e && a_ltb e d); auto.
  - unfold apply_center_deadzone.
    destruct (a_ltb (- d) e) eqn:E1;
      [apply ltb_Q_true in E1 | apply ltb_Q_false in E1];
      (destruct (a_ltb e d) eqn:E2;
       [apply ltb_Q_true in E2 | apply ltb_Q_false in E2]);
      cbn [andb]; split; intros Hz;
      first [ left; split; lra | right; lra | reflexivity
            | destruct Hz as [[? ?] | ?]; lra ].
  - unfold apply_center_deadzone.
    destruct (a_ltb (- d) e && a_ltb e d) eqn:E.
    + now destruct (a_ltb (- d) 0%Q && a_ltb 0%Q d).
    + now rewrite E.
  - intros Hd. unfold apply_center_deadzone, apply_deadzone.
    destruct (a_ltb (- d) e) eqn:E1;
      [apply ltb_Q_true in E1 | apply ltb_Q_false in E1];
      (destruct (a_ltb e d) eqn:E2;
       [apply ltb_Q_true in E2 | apply ltb_Q_false in E2]);
      (destruct (a_ltb d e) eqn:E3;
       [apply ltb_Q_true in E3 | apply ltb_Q_false in E3]);
      (destruct (a_ltb e (- d)) eqn:E4;
       [apply ltb_Q_true in E4 | apply ltb_Q_false in E4]);
      cbn [andb]; try (exfalso; lra);
      split; apply Qabs_case; intros; try (apply Qabs_case; intros); lra.
Qed.

Lemma apply_center_deadzone_keeps_or_zeroes_witness :
  (Qabs (apply_deadzone (3 # 2) (1 # 2))
   <= Qabs (apply_center_deadzone (3 # 2) (1 # 2)))%Q.
Proof.
  destruct (apply_center_deadzone_keeps_or_zeroes (3 # 2) (1 # 2))
    as (_ & _ & _ & Habs).
  apply Habs. discriminate.
Defined.

(** X3.  [rate_limit] with [dw_step <= up_step] returns a value within
    [last_value + dw_step, last_value + up_step], and the new value itself
    when that is in the interval.  With [dw_step <= 0 <= up_step] the result
    lies between the last value and the new one: it never moves away from
    the new value and never passes it. *)
Theorem rate_limit_between_last_and_new :
  forall new_value last_value dw_step up_step : Q,
    (dw_step <= up_step)%Q ->
    let r := rate_limit new_value last_value dw_step up_step in
    (last_value + dw_step <= r)%Q /\ (r <= last_value + up_step)%Q
    /\ ((last_value + dw_step <= new_value)%Q ->
        (new_value <= last_value + up_step)%Q -> r == new_value)
    /\ ((dw_step <= 0)%Q -> (0 <= up_step)%Q ->
        ((last_value <= new_value)%Q -> (last_value <= r)%Q /\ (r <= new_value)%Q)
        /\ ((new_value <= last_value)%Q ->
            (new_value <= r)%Q /\ (r <= last_value)%Q)).
Proof.
  intros n l dw up Hsteps r. subst r. unfold rate_limit.
  destruct (clip_cases n (l + dw) (l + up) ltac:(lra))
    as [[Hc Hr] | [(Hc & Hc' & Hr) | [Hc Hr]]];
    rewrite Hr; repeat split; intros; lra.
Qed.

Lemma rate_limit_between_last_and_new_witness :
  (1 <= rate_limit 5 1 (- (1 # 10)) (2 # 10))%Q
  /\ (rate_limit 5 1 (- (1 # 10)) (2 # 10) <= 5)%Q.
Proof.
  destruct (rate_limit_between_last_and_new 5 1 (- (1 # 10)) (2 # 10))
    as (_ & _ & _ & Hmove); [discriminate|].
  destruct Hmove as [Hup _]; [discriminate | discriminate|].
  apply Hup. discriminate.
Defined.

(** X4.  [get_speed_error] is never outside [-5, 5]: it is zero without a
    pose translation, and otherwise the difference between the model's
    forward speed and [v_ego], exactly so when that difference is within
    5 m/s. *)
Theorem get_speed_error_within_max_vel_err :
  forall (trans : list Q) (v_ego : Q),
    (- MAX_VEL_ERR <= get_speed_error trans v_ego)%Q
    /\ (get_speed_error trans v_ego <= MAX_VEL_ERR)%Q
    /\ (trans = [] -> get_speed_error trans v_ego = 0%Q)
    /\ (forall t0 rest, trans = t0 :: rest ->
          (- MAX_VEL_ERR <= t0 - v_ego)%Q -> (t0 - v_ego <= MAX_VEL_ERR)%Q ->
          get_speed_error trans v_ego == t0 - v_ego).
Proof.
  intros trans v.
  destruct trans as [|t0 rest]; cbn [get_speed_error].
  - repeat split; discriminate.
  - unfold MAX_VEL_ERR.
    destruct (clip_cases (t0 - v) (- (5)) 5 ltac:(discriminate))
      as [[Hc Hr] | [(Hc & Hc' & Hr) | [Hc Hr]]];
      (split; [|split; [|split]]);
      [rewrite Hr; lra | rewrite Hr; lra | discriminate | | rewrite Hr; lra
      | rewrite Hr; lra | discriminate | | rewrite Hr; lra | rewrite Hr; lra
      | discriminate | ];
      intros t0' rest' Heq; injection Heq as <- <-; intros; rewrite Hr; lra.
Qed.

Lemma get_speed_error_within_max_vel_err_witness :
  get_speed_error [] 20 = 0%Q
  /\ get_speed_error [22; 0; 0]%Q 20 == 2.
Proof.
  destruct (get_speed_error_within_max_vel_err [] 20) as (_ & _ & Hnone & _).
  destruct (get_speed_error_within_max_vel_err [22; 0; 0]%Q 20)
    as (_ & _ & _ & Hin).
  split; [now apply Hnone|].
  rewrite (Hin 22%Q [0; 0]%Q eq_refl); [reflexivity | discriminate | discriminate].
Defined.

(** The interpolation of [get_friction], in closed form. *)
Lemma interp_friction (x thr f : Q) :
  interp x [(- thr)%Q; thr] [(- f)%Q; f]
  = Ok (if a_ltb (- thr)%Q x
        then if a_ltb thr x then f
             else ((x - - thr) * (f - - f) / (thr - - thr) + - f)%Q
        else (- f)%Q).
Proof.
  unfold interp. cbn [find_hi length].
  destruct (a_ltb (- thr)%Q x) eqn:E1; cbn [find_hi].
  - destruct (a_ltb thr x) eqn:E2; cbn in E2 |- *.
    + now rewrite E2.
    + reflexivity.
  - reflexivity.
Qed.

(** The friction of [get_friction], for a positive threshold and a
    friction coefficient that is not negative. *)
Lemma get_friction_closed_form :
  forall (err dz thr : Q) (tp : LateralTorqueTuning) (comp : bool),
    (0 < thr)%Q -> (0 <= friction tp)%Q ->
    exists y, get_friction err dz thr tp comp = Ok y
      /\ (- friction tp <= y)%Q /\ (y <= friction tp)%Q
      /\ (comp = false -> y = 0%Q)
      /\ (comp = true ->
          y == friction tp * clip (apply_center_deadzone err dz) (- thr) thr / thr)
      /\ ((- dz < err)%Q -> (err < dz)%Q -> y == 0)
      /\ (comp = true -> (thr < err)%Q -> (dz <= err)%Q -> y == friction tp)
      /\ (comp = true -> (err < - thr)%Q -> (err <= - dz)%Q -> y == - friction tp).
Proof.
  intros err dz thr tp comp Hthr Hf.
  unfold get_friction. rewrite interp_friction. cbn [mbind result_bind].
  eexists. split; [reflexivity|].
  set (x := apply_center_deadzone err dz).
  set (f := friction tp) in *.
  assert (Hmid : ((x - - thr) * (f - - f) / (thr - - thr) + - f == f * x / thr)%Q)
    by (field; split; lra).
  assert (Hclosed :
    (if a_ltb (- thr)%Q x
     then if a_ltb thr x then f
          else ((x - - thr) * (f - - f) / (thr - - thr) + - f)%Q
     else (- f)%Q) == f * clip x (- thr) thr / thr).
  { destruct (clip_cases x (- thr) thr ltac:(lra))
      as [[Hc Hr] | [(Hc & Hc' & Hr) | [Hc Hr]]]; rewrite Hr.
    - destruct (a_ltb (- thr)%Q x) eqn:E1;
        [apply ltb_Q_true in E1; lra|]. field. lra.
    - destruct (a_ltb (- thr)%Q x) eqn:E1;
        [apply ltb_Q_true in E1 | apply ltb_Q_false in E1].
      + destruct (a_ltb thr x) eqn:E2;
          [apply ltb_Q_true in E2; lra | exact Hmid].
      + assert (Hx : x == - thr) by lra. rewrite Hx. field. lra.
    - destruct (a_ltb (- thr)%Q x) eqn:E1;
        [|apply ltb_Q_false in E1; lra].
      destruct (a_ltb thr x) eqn:E2;
        [|apply ltb_Q_false in E2; lra]. field. lra. }
  assert (Hbound : forall c, (- thr <= c)%Q -> (c <= thr)%Q ->
            (- f <= f * c / thr)%Q /\ (f * c / thr <= f)%Q).
  { intros c Hlo Hhi. split.
    - apply Qle_shift_div_l; [exact Hthr | nra].
    - apply Qle_shift_div_r; [exact Hthr | nra]. }
  assert (Hclip : (- thr <= clip x (- thr) thr)%Q /\ (clip x (- thr) thr <= thr)%Q)
    by (apply clip_bounds; lra).
  destruct (Hbound _ (proj1 Hclip) (proj2 Hclip)) as [Hlo Hhi].
  assert (Hzone : (- dz < err)%Q -> (err < dz)%Q -> x = 0%Q).
  { intros H1 H2. subst x. unfold apply_center_deadzone.
    apply ltb_Q_true in H1, H2. now rewrite H1, H2. }
  assert (Hout : (dz <= err)%Q \/ (err <= - dz)%Q -> x = err).
  { intros Hcase. subst x. unfold apply_center_deadzone.
    destruct Hcase as [H1 | H1]; apply ltb_Q_false in H1; rewrite H1;
      [now rewrite andb_false_r | reflexivity]. }
  split; [|split; [|split; [|split; [|split; [|split]]]]].
  - destruct comp; [rewrite Hclosed; exact Hlo | lra].
  - destruct comp; [rewrite Hclosed; exact Hhi | lra].
  - now intros ->.
  - intros ->. exact Hclosed.
  - intros H1 H2. destruct comp; [|reflexivity].
    rewrite (Hzone H1 H2).
    destruct (a_ltb (- thr)%Q 0%Q) eqn:E1;
      [|apply ltb_Q_false in E1; lra].
    destruct (a_ltb thr 0%Q) eqn:E2; [apply ltb_Q_true in E2; lra|].
    field. lra.
  - intros -> H1 H2. rewrite (Hout (or_introl H2)).
    destruct (a_ltb (- thr)%Q err) eqn:E1;
      [|apply ltb_Q_false in E1; lra].
    destruct (a_ltb thr err) eqn:E2; [reflexivity|].
    apply ltb_Q_false in E2; lra.
  - intros -> H1 H2. rewrite (Hout (or_intror H2)).
    destruct (a_ltb (- thr)%Q err) eqn:E1; [|reflexivity].
    apply ltb_Q_true in E1; lra.
Qed.

(** X5.  With a positive threshold and a friction coefficient that is not
    negative, [get_friction] returns, and the friction is within
    [-friction, friction].  With compensation it is
    [friction * clip(e, -threshold, threshold) / threshold] for [e] the
    error after the centre dead zone: zero for an error strictly inside the
    dead zone, and the full coefficient, with the sign of the error, beyond
    the threshold.  Without compensation it is zero. *)
Theorem get_friction_saturates :
  forall (err dz thr : Q) (tp : LateralTorqueTuning) (comp : bool),
    (0 < thr)%Q -> (0 <= friction tp)%Q ->
    exists y, get_friction err dz thr tp comp = Ok y
      /\ (- friction tp <= y)%Q /\ (y <= friction tp)%Q
      /\ (comp = false -> y = 0%Q)
      /\ (comp = true ->
          y == friction tp * clip (apply_center_deadzone err dz) (- thr) thr / thr)
      /\ ((- dz < err)%Q -> (err < dz)%Q -> y == 0)
      /\ (comp = true -> (thr < err)%Q -> (dz <= err)%Q -> y == friction tp)
      /\ (comp = true -> (err < - thr)%Q -> (err <= - dz)%Q -> y == - friction tp).
Proof.
  intros err dz thr tp comp Hthr Hf.
  exact (get_friction_closed_form err dz thr tp comp Hthr Hf).
Qed.

Lemma get_friction_saturates_witness :
  exists y, get_friction (1 # 2) (1 # 10) (3 # 10)
              (mkLateralTorqueTuning (1 # 5) 2) true = Ok y
    /\ y == 1 # 5.
Proof.
  destruct (get_friction_saturates (1 # 2) (1 # 10) (3 # 10)
              (mkLateralTorqueTuning (1 # 5) 2) true)
    as (y & Hy & _ & _ & _ & _ & _ & Hsat & _);
    [reflexivity | discriminate|].
  exists y. split; [exact Hy|].
  apply Hsat; [reflexivity | reflexivity | discriminate].
Defined.

Lemma py_round_bounds (x : Q) (a b : Z) :
  (inject_Z a <= x)%Q -> (x <= inject_Z b)%Q -> (a <= py_round x <= b)%Z.
Proof.
  intros Ha Hb. unfold py_round.
  pose proof (Qfloor_le x) as Hfl.
  assert (Hfa : (a <= Qfloor x)%Z)
    by (rewrite <- (Qfloor_Z a); now apply Qfloor_resp_le).
  assert (Hfb : (Qfloor x <= b)%Z)
    by (rewrite <- (Qfloor_Z b); now apply Qfloor_resp_le).
  destruct (Z.eq_dec (Qfloor x) b) as [Heq | Hne].
  - rewrite Heq in *.
    destruct (Qcompare_spec (x - inject_Z b) (1 # 2)); [lra | lia | lra].
  - destruct (Qcompare (x - inject_Z (Qfloor x)) (1 # 2));
      [destruct (Z.even (Qfloor x)) | |]; lia.
Qed.

Lemma is_accel_iff (t : Cruise.ButtonType) :
  (Cruise.raw t =? Cruise.raw Cruise.accelCruise)%Z = true
  <-> t = Cruise.accelCruise.
Proof. destruct t; cbn; split; congruence. Qed.

(** X6.  [initialize_v_cruise] returns the last set speed as it is, without
    any clamping, when the events hold an accelCruise event (pressed or
    released) and the last set speed is below 250; otherwise it returns a
    whole number of kph between 30 and 180, whatever the speed of the car. *)
Theorem initialize_v_cruise_resumes_or_clamps :
  forall (MS_TO_KPH v_ego : Q) (buttonEvents : list Cruise.ButtonEvent)
         (v_cruise_last : Q),
    let r := initialize_v_cruise MS_TO_KPH v_ego buttonEvents v_cruise_last in
    ((exists b, In b buttonEvents /\ Cruise.type_ b = Cruise.accelCruise) ->
     (v_cruise_last < 250)%Q -> r = v_cruise_last)
    /\ ((forall b, In b buttonEvents -> Cruise.type_ b <> Cruise.accelCruise)
        \/ (250 <= v_cruise_last)%Q ->
        exists n : Z, r = inject_Z n /\ (30 <= n <= 180)%Z).
Proof.
  intros kph v events last r. subst r. split.
  - intros (b & Hin & Hb) Hlast. apply ltb_Q_true in Hlast.
    induction events as [|b0 events IH]; [destruct Hin|].
    cbn [initialize_v_cruise]. rewrite Hlast, andb_true_r.
    destruct (Cruise.raw (Cruise.type_ b0) =? Cruise.raw Cruise.accelCruise)%Z
      eqn:E; [reflexivity|].
    destruct Hin as [-> | Hin]; [|now apply IH].
    apply is_accel_iff in Hb. congruence.
  - intros Hcase.
    induction events as [|b0 events IH].
    + cbn [initialize_v_cruise]. eexists. split; [reflexivity|].
      apply py_round_bounds; apply clip_bounds; discriminate.
    + cbn [initialize_v_cruise].
      destruct ((Cruise.raw (Cruise.type_ b0) =? Cruise.raw Cruise.accelCruise)%Z
                && a_ltb last 250%Q) eqn:E.
      * exfalso. apply andb_true_iff in E as [Ht Hl].
        apply is_accel_iff in Ht. apply ltb_Q_true in Hl.
        destruct Hcase as [Hno | Hbig]; [|lra].
        exact (Hno b0 (or_introl eq_refl) Ht).
      * apply IH. destruct Hcase as [Hno | Hbig]; [left | now right].
        intros b Hb. apply Hno. now right.
Qed.

Lemma initialize_v_cruise_resumes_or_clamps_witness :
  initialize_v_cruise (36 # 10) 3 [Cruise.mkButtonEvent Cruise.accelCruise false] 5
    = 5%Q
  /\ exists n : Z,
       initialize_v_cruise (36 # 10) 3 [Cruise.mkButtonEvent Cruise.decelCruise false] 5
         = inject_Z n
       /\ (30 <= n <= 180)%Z.
Proof.
  split.
  - destruct (initialize_v_cruise_resumes_or_clamps (36 # 10) 3
                [Cruise.mkButtonEvent Cruise.accelCruise false] 5) as [Hres _].
    apply Hres; [|reflexivity].
    eexists. split; [left; reflexivity | reflexivity].
  - destruct (initialize_v_cruise_resumes_or_clamps (36 # 10) 3
                [Cruise.mkButtonEvent Cruise.decelCruise false] 5) as [_ Hclamp].
    apply Hclamp. left. intros b [<- | []]. discriminate.
Defined.

End DriveHelpersFacts.

Module CruiseButtonFacts.
Import NumpyFast Cruise NumpyFastFacts CruiseFacts.
Import Lqa.

(** Presses and events of untracked buttons ahead of an event do not end the
    loop over the events. *)
Lemma scan_skips_presses (pre rest : list ButtonEvent) (tm : timers) :
  (forall b, In b pre -> tracked (type_ b) tm -> pressed b = true) ->
  scan_events (pre ++ rest) tm = scan_events rest tm.
Proof.
  induction pre as [|b pre IH]; intros Hpre; [reflexivity|].
  cbn [app scan_events].
  assert (Hrest : scan_events (pre ++ rest) tm = scan_events rest tm)
    by (apply IH; intros b' Hb'; apply Hpre; now right).
  destruct (lookup_timer (type_ b) tm) as [n|] eqn:Hn; [|exact Hrest].
  rewrite (Hpre b (or_introl eq_refl)); [exact Hrest|].
  unfold tracked. now rewrite Hn.
Qed.

(** The loop breaks at the first release of a tracked button. *)
Lemma scan_first_release (pre rest : list ButtonEvent) (b : ButtonEvent)
    (tm : timers) (n : Z) :
  (forall b', In b' pre -> tracked (type_ b') tm -> pressed b' = true) ->
  pressed b = false -> lookup_timer (type_ b) tm = Some n ->
  scan_events (pre ++ b :: rest) tm
  = if (CRUISE_LONG_PRESS <? n)%Z then EndLongPress else ShortPress (type_ b).
Proof.
  intros Hpre Hb Hn. rewrite (scan_skips_presses pre _ tm Hpre).
  cbn [scan_events]. now rewrite Hn, Hb.
Qed.

(** X7.  A short press: when the first release of a tracked button among the
    events is a release of accelCruise or decelCruise held for at most 50
    cycles, an enabled call moves the set speed by one increment (1.0
    metric, 1.6 otherwise) in the button's direction, rounds to 0.1 and
    clamps: the returned speed is within [8, 180] and does not depend on
    the set-speed offset, which this path does not read, nor on the other
    hold times. *)
Theorem short_press_steps_and_clamps :
  forall (v : Q) (pre rest : list ButtonEvent) (b : ButtonEvent)
         (tm : timers) (n : Z) (metric : bool) (sign : Q),
    (forall b', In b' pre -> tracked (type_ b') tm -> pressed b' = true) ->
    pressed b = false -> lookup_timer (type_ b) tm = Some n ->
    (n <= CRUISE_LONG_PRESS)%Z ->
    (type_ b = accelCruise /\ sign = 1%Q)
    \/ (type_ b = decelCruise /\ sign = (-1)%Q) ->
    let delta : Q := if metric then 1%Q else (16 # 10)%Q in
    exists r,
      update_v_cruise v (pre ++ b :: rest) tm true metric = Ok r
      /\ r == clip (round1 (v + delta * sign)) V_CRUISE_MIN V_CRUISE_MAX
      /\ (8 <= r)%Q /\ (r <= 180)%Q.
Proof.
  intros v pre rest b tm n metric sign Hpre Hb Hn Hshort Hbutton delta.
  assert (Hscan : scan_events (pre ++ b :: rest) tm = ShortPress (type_ b)).
  { rewrite (scan_first_release pre rest b tm n Hpre Hb Hn).
    apply Z.ltb_ge in Hshort. now rewrite Hshort. }
  pose proof (clip_bounds (round1 (v + delta * sign)) V_CRUISE_MIN V_CRUISE_MAX
                ltac:(discriminate)) as [Hlo Hhi].
  unfold V_CRUISE_MIN in Hlo at 1. unfold V_CRUISE_MAX in Hhi at 2.
  exists (clip (round1 (v + delta * sign)) V_CRUISE_MIN V_CRUISE_MAX + 0)%Q.
  split; [|split; [|split]]; try lra.
  unfold update_v_cruise. cbn [negb]. rewrite Hscan.
  subst delta.
  destruct Hbutton as [[-> ->] | [-> ->]]; destruct metric; reflexivity.
Qed.

Lemma short_press_steps_and_clamps_witness :
  exists r,
    update_v_cruise (1795 # 10) [mkButtonEvent accelCruise false]
      [(decelCruise, 0%Z); (accelCruise, 12%Z)] true true = Ok r
    /\ r == 180.
Proof.
  destruct (short_press_steps_and_clamps (1795 # 10) []
              [] (mkButtonEvent accelCruise false)
              [(decelCruise, 0%Z); (accelCruise, 12%Z)] 12 true 1%Q)
    as (r & Hr & Hval & _).
  - intros b' [].
  - reflexivity.
  - reflexivity.
  - unfold CRUISE_LONG_PRESS. lia.
  - left. split; reflexivity.
  - exists r. split; [exact Hr|]. rewrite Hval. reflexivity.
Defined.

(** X8.  A tracked button that is neither accelCruise nor decelCruise: its
    short release, or its hold time at a nonzero multiple of 50 when no
    release ends the loop, makes an enabled call fail with a KeyError on
    the tables keyed by button type, unless its ordinal is 0, in which case
    the set speed is returned unchanged. *)
Theorem other_tracked_button_raises_key_error :
  forall (v : Q) (tm : timers) (metric : bool) (t : ButtonType),
    t <> accelCruise -> t <> decelCruise ->
    let outcome := if (raw t =? 0)%Z then Ok v else Raise KeyError in
    (forall (pre rest : list ButtonEvent) (b : ButtonEvent) (n : Z),
        (forall b', In b' pre -> tracked (type_ b') tm -> pressed b' = true) ->
        type_ b = t -> pressed b = false ->
        lookup_timer t tm = Some n -> (n <= CRUISE_LONG_PRESS)%Z ->
        update_v_cruise v (pre ++ b :: rest) tm true metric = outcome)
    /\ (forall events : list ButtonEvent,
        (forall b, In b events -> tracked (type_ b) tm -> pressed b = true) ->
        held_button tm = Some t ->
        update_v_cruise v events tm true metric = outcome).
Proof.
  intros v tm metric t Hna Hnd outcome. subst outcome. split.
  - intros pre rest b n Hpre Ht Hb Hn Hshort. subst t.
    assert (Hscan : scan_events (pre ++ b :: rest) tm = ShortPress (type_ b)).
    { rewrite (scan_first_release pre rest b tm n Hpre Hb Hn).
      apply Z.ltb_ge in Hshort. now rewrite Hshort. }
    unfold update_v_cruise. cbn [negb]. rewrite Hscan.
    destruct (type_ b); try congruence; reflexivity.
  - intros events Hheld Hk.
    unfold update_v_cruise. cbn [negb].
    rewrite (scan_no_release events tm Hheld), Hk.
    destruct t; try congruence; cbn [raw Z.eqb negb];
      try reflexivity;
      unfold stepped_speed;
      cbn [andb CRUISE_NEAREST_FUNC CRUISE_INTERVAL_SIGN mbind result_bind];
      now destruct (negb (Qeq_bool _ 0)).
Qed.

Lemma other_tracked_button_raises_key_error_witness :
  update_v_cruise 60 [mkButtonEvent gapAdjustCruise false]
    [(gapAdjustCruise, 3%Z)] true true = Raise KeyError
  /\ update_v_cruise 60 [] [(gapAdjustCruise, 100%Z)] true true
     = Raise KeyError.
Proof.
  destruct (other_tracked_button_raises_key_error 60 [(gapAdjustCruise, 3%Z)]
              true gapAdjustCruise) as [Hshort _]; [discriminate ..|].
  destruct (other_tracked_button_raises_key_error 60 [(gapAdjustCruise, 100%Z)]
              true gapAdjustCruise) as [_ Hlong]; [discriminate ..|].
  split.
  - apply (Hshort [] [] (mkButtonEvent gapAdjustCruise false) 3%Z);
      [intros b' [] | reflexivity | reflexivity | reflexivity
      | unfold CRUISE_LONG_PRESS; lia].
  - apply (Hlong []); [intros b [] | reflexivity].
Defined.

End CruiseButtonFacts.

Module CurvatureLimitFacts.
Import NumpyFast Curvature NumpyFastFacts CurvatureFacts.
Import Lqa.

(** The curvature-rate bound [MAX_LATERAL_JERK / v_ego**2] for the floored
    speed: positive and at most 10. *)
Lemma max_curvature_rate_range (v_ego : Q) :
  let v := py_max MIN_SPEED v_ego in
  py_div MAX_LATERAL_JERK (v * v)%Q = Ok (MAX_LATERAL_JERK / (v * v))%Q
  /\ (0 < MAX_LATERAL_JERK / (v * v))%Q
  /\ (MAX_LATERAL_JERK / (v * v) <= 10)%Q.
Proof.
  intros v. pose proof (py_max_ge MIN_SPEED v_ego) as Hv. fold v in Hv.
  unfold MIN_SPEED in Hv. unfold MAX_LATERAL_JERK.
  assert (Hvv : (1 <= v * v)%Q) by nra.
  split; [|split].
  - apply py_div_ok. lra.
  - apply Qlt_shift_div_l; lra.
  - apply Qle_shift_div_r; lra.
Qed.

(** X9.  Whenever [get_lag_adjusted_curvature] returns, with a model time
    step that is not negative, the returned curvature rate is within
    [-m, m] and the returned curvature within [c0 - m * DT_MDL,
    c0 + m * DT_MDL], for [c0] the first curvature sample the function read
    and [m = 10 / max(1, v_ego)^2], which is at most 10.  And it does return
    for 17 headings and distances, a curvature and a rate sample, a time
    grid with a sample and, on the speed-based path, a delay that is not
    zero. *)
Theorem lag_adjusted_curvature_is_rate_limited :
  forall (T_IDXS : list Q) (steerActuatorDelay DT_MDL v_ego : Q)
         (psis curvatures curvature_rates distances : list Q)
         (average_desired_curvature : bool),
    (0 <= DT_MDL)%Q ->
    let out := get_lag_adjusted_curvature T_IDXS steerActuatorDelay DT_MDL v_ego
                 psis curvatures curvature_rates distances
                 average_desired_curvature in
    let v := py_max MIN_SPEED v_ego in
    let m := (MAX_LATERAL_JERK / (v * v))%Q in
    (forall c r, out = Ok (c, r) ->
       exists c0,
         getitem (snd (fst (fst (select_trajectories psis curvatures
                                   curvature_rates distances)))) 0 = Ok c0
         /\ (- m <= r)%Q /\ (r <= m)%Q
         /\ (c0 - m * DT_MDL <= c)%Q /\ (c <= c0 + m * DT_MDL)%Q
         /\ (m <= 10)%Q)
    /\ (T_IDXS <> [] -> length psis = 17%nat -> length distances = 17%nat ->
        curvatures <> [] -> curvature_rates <> [] ->
        average_desired_curvature = true
        \/ ~ (steerActuatorDelay + (2 # 10))%Q == 0 ->
        exists c r, out = Ok (c, r)).
Proof.
  intros T_IDXS sad DT v_ego psis curvatures rates distances avg HDT out v m.
  destruct (max_curvature_rate_range v_ego) as (Hdiv & Hpos & Hten).
  fold v in Hdiv, Hpos, Hten. fold m in Hdiv, Hpos, Hten.
  subst out. unfold get_lag_adjusted_curvature.
  destruct (select_trajectories psis curvatures rates distances)
    as [[[psis' curvatures'] rates'] distances'] eqn:Hsel.
  cbn [fst snd]. fold v.
  split.
  - intros c r.
    destruct (getitem curvatures' 0) as [c0|e]; cbn [mbind result_bind];
      [|discriminate].
    destruct (interp _ _ psis') as [psi|e]; cbn [mbind result_bind];
      [|discriminate].
    destruct (interp _ _ distances') as [dist|e]; cbn [mbind result_bind];
      [|discriminate].
    destruct (if avg then _ else _) as [acd|e]; cbn [mbind result_bind];
      [|discriminate].
    destruct (getitem rates' 0) as [r0|e]; cbn [mbind result_bind];
      [|discriminate].
    rewrite Hdiv. cbn [mbind result_bind].
    intros Hout. injection Hout as <- <-.
    exists c0. split; [reflexivity|].
    assert (HmDT : (0 <= m * DT)%Q) by nra.
    pose proof (clip_bounds r0 (- m) m ltac:(lra)) as [Hr1 Hr2].
    pose proof (clip_bounds
                  ((2 * acd - c0) * (105 # 100)) (c0 - m * DT) (c0 + m * DT)
                  ltac:(lra)) as [Hc1 Hc2].
    repeat split; assumption.
  - intros HT Hp Hd Hc Hr Hpath.
    assert (Hsame : (psis', curvatures', rates', distances')
                    = (psis, curvatures, rates, distances)).
    { rewrite <- Hsel. unfold select_trajectories, CONTROL_N.
      now rewrite Hp, Hd. }
    injection Hsame as -> -> -> ->.
    destruct curvatures as [|c0 curvatures]; [congruence|].
    destruct rates as [|r0 rates]; [congruence|].
    cbn [getitem lookup list_lookup mbind result_bind].
    assert (Hgrid : firstn CONTROL_N T_IDXS <> [])
      by (destruct T_IDXS; [congruence | discriminate]).
    assert (Hlen : forall l : list Q, length l = 17%nat ->
              length (firstn CONTROL_N T_IDXS) <= length l)
      by (intros l Hl; rewrite length_firstn, Hl; unfold CONTROL_N; lia).
    destruct (interp_total (sad + (2 # 10))%Q _ psis Hgrid (Hlen _ Hp))
      as (psi & ->).
    destruct (interp_total (sad + (2 # 10))%Q _ distances Hgrid (Hlen _ Hd))
      as (dist & ->).
    cbn [mbind result_bind].
    pose proof (py_max_ge MIN_DIST dist) as Hdist.
    pose proof (py_max_ge MIN_SPEED v_ego) as Hspeed. fold v in Hspeed.
    unfold MIN_DIST in Hdist at 1. unfold MIN_SPEED in Hspeed at 1.
    rewrite Hdiv.
    destruct avg.
    + rewrite py_div_ok by lra. cbn [mbind result_bind]. eauto.
    + destruct Hpath as [Habs | Hdelay]; [discriminate|].
      rewrite py_div_ok; [cbn [mbind result_bind]; eauto|].
      intros Hz. apply Qmult_integral in Hz as [Hz | Hz]; [lra | tauto].
Qed.

Lemma lag_adjusted_curvature_is_rate_limited_witness :
  exists c r,
    get_lag_adjusted_curvature T_IDXS_model (1 # 10) (5 # 100) 20
      (repeat (1 # 100) 17) (repeat (3 # 1000) 17) (repeat 0%Q 17)
      (repeat 5%Q 17) false = Ok (c, r)
    /\ (c <= (3 # 1000) + 10 * (5 # 100))%Q.
Proof.
  destruct (lag_adjusted_curvature_is_rate_limited T_IDXS_model (1 # 10)
              (5 # 100) 20 (repeat (1 # 100) 17) (repeat (3 # 1000) 17)
              (repeat 0%Q 17) (repeat 5%Q 17) false) as [Hbound Hret];
    [discriminate|].
  destruct Hret as (c & r & Hout);
    [discriminate | reflexivity | reflexivity | discriminate | discriminate
    | right; discriminate |].
  exists c, r. split; [exact Hout|].
  destruct (Hbound c r Hout) as (c0 & Hc0 & _ & _ & _ & Hhi & Hm).
  injection Hc0 as <-.
  eapply Qle_trans; [exact Hhi|].
  apply Qplus_le_r. apply Qmult_le_compat_r; [exact Hm | discriminate].
Defined.

End CurvatureLimitFacts.

Module PlannerFacts.
Import NumpyFast TurnLimit Planner TurnLimitFacts.
Local Open Scope R_scope.

(** [get_max_accel] in closed form. *)
Lemma get_max_accel_cases (v_ego : R) :
  get_max_accel v_ego
  = Ok (if Rlt_dec 0 v_ego
        then if Rlt_dec 10 v_ego
             then if Rlt_dec 25 v_ego
                  then if Rlt_dec 40 v_ego then 0.6
                       else (v_ego - 25) * (0.6 - 0.8) / (40 - 25) + 0.8
                  else (v_ego - 10) * (0.8 - 1.3) / (25 - 10) + 1.3
             else (v_ego - 0) * (1.3 - 1.8) / (10 - 0) + 1.8
        else 1.8).
Proof.
  unfold get_max_accel, interp, A_CRUISE_MAX_BP, A_CRUISE_MAX_VALS.
  cbn [find_hi a_ltb R_arith length].
  destruct (Rlt_dec 0 v_ego); cbn [find_hi a_ltb R_arith]; [|reflexivity].
  destruct (Rlt_dec 10 v_ego); cbn [find_hi a_ltb R_arith]; [|reflexivity].
  destruct (Rlt_dec 25 v_ego); cbn [find_hi a_ltb R_arith]; [|reflexivity].
  destruct (Rlt_dec 40 v_ego) as [H40 | H40]; cbn.
  - destruct (Rlt_dec 40 v_ego); [reflexivity | contradiction].
  - reflexivity.
Qed.

(** X10.  [get_max_accel] returns for every speed; the cruise acceleration
    ceiling is between 0.6 and 1.8 m/s^2, is 1.8 up to speed 0 and 0.6
    beyond 40, and never increases with speed. *)
Theorem get_max_accel_decreases_with_speed :
  forall v1 v2 : R,
    exists a1 a2,
      get_max_accel v1 = Ok a1 /\ get_max_accel v2 = Ok a2
      /\ 0.6 <= a1 <= 1.8
      /\ (v1 <= 0 -> a1 = 1.8) /\ (40 < v1 -> a1 = 0.6)
      /\ (v1 <= v2 -> a2 <= a1).
Proof.
  intros v1 v2. rewrite !get_max_accel_cases.
  eexists. eexists. split; [reflexivity|]. split; [reflexivity|].
  split; [|split; [|split]].
  - destruct (Rlt_dec 0 v1); [|lra].
    destruct (Rlt_dec 10 v1); [|lra].
    destruct (Rlt_dec 25 v1); [|lra].
    destruct (Rlt_dec 40 v1); lra.
  - intros Hv. destruct (Rlt_dec 0 v1); [lra | reflexivity].
  - intros Hv.
    destruct (Rlt_dec 0 v1); [|lra].
    destruct (Rlt_dec 10 v1); [|lra].
    destruct (Rlt_dec 25 v1); [|lra].
    destruct (Rlt_dec 40 v1); [reflexivity | lra].
  - intros Hle.
    destruct (Rlt_dec 0 v1), (Rlt_dec 10 v1), (Rlt_dec 25 v1), (Rlt_dec 40 v1),
      (Rlt_dec 0 v2), (Rlt_dec 10 v2), (Rlt_dec 25 v2), (Rlt_dec 40 v2); lra.
Qed.

Lemma get_max_accel_decreases_with_speed_witness :
  exists a1 a2,
    get_max_accel 5 = Ok a1 /\ get_max_accel 30 = Ok a2 /\ a2 <= a1.
Proof.
  destruct (get_max_accel_decreases_with_speed 5 30)
    as (a1 & a2 & H1 & H2 & _ & _ & _ & Hmono).
  exists a1, a2. split; [exact H1|]. split; [exact H2|]. apply Hmono. lra.
Defined.


(** X11.  The turn limit does not depend on the direction of the turn, and a
    larger steering angle, in magnitude, never allows more acceleration:
    for a car whose steerRatio * wheelbase is not zero, the upper limits
    returned for the angles [a1] and [a2] are equal when [a2 = -a1], and
    the one for [a2] is at most the one for [a1] when [|a1| <= |a2|]. *)
Theorem turn_limit_mirrored_and_monotone :
  forall (v_ego a1 a2 lo hi : R) (CP : CarParams),
    steerRatio CP * wheelbase CP <> 0 ->
    exists h1 h2,
      limit_accel_in_turns v_ego a1 [lo; hi] CP = Ok [lo; h1]
      /\ limit_accel_in_turns v_ego a2 [lo; hi] CP = Ok [lo; h2]
      /\ (a2 = - a1 -> h2 = h1)
      /\ (Rabs a1 <= Rabs a2 -> h2 <= h1).
Proof.
  intros v a1 a2 lo hi CP Hden.
  rewrite !limit_accel_in_turns_pair by exact Hden.
  eexists. eexists. split; [reflexivity|]. split; [reflexivity|].
  set (T := a_total_max_of v).
  set (k := v * v * DEG_TO_RAD / (steerRatio CP * wheelbase CP)).
  assert (Hy : forall a, v * v * a * DEG_TO_RAD / (steerRatio CP * wheelbase CP)
                         = k * a)
    by (intros a; subst k; field; split; intros Hz; apply Hden; rewrite Hz; ring).
  rewrite !Hy.
  split.
  - intros ->. do 3 f_equal. ring.
  - intros Habs. apply Rle_min_compat_l. apply sqrt_le_1_alt.
    apply Rle_max_compat_r.
    apply Rsqr_le_abs_1 in Habs. unfold Rsqr in Habs.
    assert (Hk : 0 <= k * k) by nra. nra.
Qed.

Lemma turn_limit_mirrored_and_monotone_witness :
  exists h1 h2,
    limit_accel_in_turns 30 5 [-1.2; 1.5] (mkCarParams 15 2.7) = Ok [-1.2; h1]
    /\ limit_accel_in_turns 30 (-5) [-1.2; 1.5] (mkCarParams 15 2.7)
       = Ok [-1.2; h2]
    /\ h2 = h1.
Proof.
  destruct (turn_limit_mirrored_and_monotone 30 5 (-5) (-1.2) 1.5
              (mkCarParams 15 2.7)) as (h1 & h2 & H1 & H2 & Hmirror & _).
  - cbn. lra.
  - exists h1, h2. split; [exact H1|]. split; [exact H2|].
    apply Hmirror. reflexivity.
Defined.

(** X12.  [limit_accel_in_turns] fails with a ZeroDivisionError for a car
    whose steerRatio * wheelbase is zero, whatever the limits; otherwise it
    fails with an IndexError when fewer than two limits are given, and it
    ignores any limit after the second. *)
Theorem turn_limit_errors :
  forall (v_ego angle_steers : R) (a_target : list R) (CP : CarParams),
    (steerRatio CP * wheelbase CP = 0 ->
     limit_accel_in_turns v_ego angle_steers a_target CP
     = Raise ZeroDivisionError)
    /\ (steerRatio CP * wheelbase CP <> 0 ->
        (length a_target < 2)%nat ->
        limit_accel_in_turns v_ego angle_steers a_target CP = Raise IndexError)
    /\ (forall lo hi rest, a_target = lo :: hi :: rest ->
        limit_accel_in_turns v_ego angle_steers a_target CP
        = limit_accel_in_turns v_ego angle_steers [lo; hi] CP).
Proof.
  intros v a tgt CP. unfold limit_accel_in_turns.
  rewrite interp_a_total_max. cbn [mbind result_bind].
  split; [|split].
  - intros Hz.
    destruct (Req_dec_T (steerRatio CP * wheelbase CP) 0); [reflexivity|].
    contradiction.
  - intros Hden Hlen.
    destruct (Req_dec_T (steerRatio CP * wheelbase CP) 0); [contradiction|].
    rewrite math_sqrt_floored. cbn [mbind result_bind].
    destruct tgt as [|lo [|hi rest]]; [reflexivity | reflexivity|].
    cbn in Hlen. lia.
  - intros lo hi rest ->.
    destruct (Req_dec_T (steerRatio CP * wheelbase CP) 0); [reflexivity|].
    rewrite math_sqrt_floored. reflexivity.
Qed.

Lemma turn_limit_errors_witness :
  limit_accel_in_turns 30 5 [-1.2; 1.5] (mkCarParams 0 2.7)
  = Raise ZeroDivisionError
  /\ limit_accel_in_turns 30 5 [-1.2] (mkCarParams 15 2.7) = Raise IndexError.
Proof.
  split.
  - destruct (turn_limit_errors 30 5 [-1.2; 1.5] (mkCarParams 0 2.7))
      as (Hzero & _).
    apply Hzero. cbn. lra.
  - destruct (turn_limit_errors 30 5 [-1.2] (mkCarParams 15 2.7))
      as (_ & Hshort & _).
    apply Hshort; [cbn; lra | cbn; lia].
Defined.


Lemma clip_Rmax_Rmin (x lo hi : R) : clip x lo hi = Rmax lo (Rmin hi x).
Proof. unfold clip. now rewrite py_max_Rmax, py_min_Rmin. Qed.

(** The limits of the 'acc' mode without the acceleration controller. *)
Lemma accel_limits_of_acc (ctl : AccelController) (v_ego angle : R)
    (CP : CarParams) :
  is_enabled ctl = false -> steerRatio CP * wheelbase CP <> 0 ->
  exists max_accel a_x,
    accel_limits_of acc ctl v_ego angle CP
    = Ok ([A_CRUISE_MIN; max_accel], [A_CRUISE_MIN; Rmin max_accel a_x])
    /\ 0.6 <= max_accel <= 1.8 /\ 0 <= a_x.
Proof.
  intros Hoff Hden. unfold accel_limits_of. rewrite Hoff.
  rewrite get_max_accel_cases. cbn [mbind result_bind].
  rewrite limit_accel_in_turns_pair by exact Hden. cbn [mbind result_bind].
  eexists. eexists. split; [reflexivity|]. split; [|apply sqrt_pos].
  destruct (Rlt_dec 0 v_ego); [|lra].
  destruct (Rlt_dec 10 v_ego); [|lra].
  destruct (Rlt_dec 25 v_ego); [|lra].
  destruct (Rlt_dec 40 v_ego); lra.
Qed.

(** X13.  The limits [Planner.update] hands to the MPC always contain the
    desired acceleration [a'] it starts from, within 0.05: the lower one is
    at most [a' + 0.05] and the upper one at least [a' - 0.05].  In a mode
    other than 'acc' they are [min(-4, a' + 0.05)] and [max(2, a' - 0.05)]
    whatever the acceleration controller says.  In 'acc' mode with the
    controller off, for a car whose steerRatio * wheelbase is not zero, the
    call returns, the lower limit is at most -1.2, the upper one is not
    negative (so the limits are ordered), and a reset leaves [a'] within
    [-1.2, 1.8]. *)
Theorem mpc_limits_contain_desired_accel :
  forall (ctl : AccelController) (v_ego angle : R) (CP : CarParams)
         (reset_state : bool) (aEgo a_desired : R),
    (forall mode a' lo hi,
        mpc_accel_limits mode ctl v_ego angle CP reset_state aEgo a_desired
        = Ok (a', (lo, hi)) ->
        lo <= a' + 0.05 /\ a' - 0.05 <= hi)
    /\ (let a' := if reset_state then clip aEgo ACCEL_MIN ACCEL_MAX
                  else a_desired in
        mpc_accel_limits blended ctl v_ego angle CP reset_state aEgo a_desired
        = Ok (a', (Rmin (-4) (a' + 0.05), Rmax 2 (a' - 0.05))))
    /\ (is_enabled ctl = false -> steerRatio CP * wheelbase CP <> 0 ->
        exists a' lo hi,
          mpc_accel_limits acc ctl v_ego angle CP reset_state aEgo a_desired
          = Ok (a', (lo, hi))
          /\ lo <= -1.2 /\ 0 <= hi /\ lo <= hi
          /\ (reset_state = true -> -1.2 <= a' <= 1.8)
          /\ (reset_state = false -> a' = a_desired)).
Proof.
  intros ctl v angle CP reset aEgo a. split; [|split].
  - intros mode a' lo hi. unfold mpc_accel_limits.
    destruct (accel_limits_of mode ctl v angle CP) as [[al alt]|e];
      cbn [mbind result_bind]; [|discriminate].
    destruct (if reset then _ else _) as [a1|e]; cbn [mbind result_bind];
      [|discriminate].
    destruct (getitem alt 0) as [t0|e]; cbn [mbind result_bind];
      [|discriminate].
    destruct (getitem alt 1) as [t1|e]; cbn [mbind result_bind];
      [|discriminate].
    intros Hout. injection Hout as <- <- <-.
    rewrite py_min_Rmin, py_max_Rmax.
    split; [apply Rmin_r | apply Rmax_r].
  - unfold mpc_accel_limits, accel_limits_of. cbn [mbind result_bind].
    destruct (is_enabled ctl);
      [destruct (get_accel_limits ctl v [ACCEL_MIN; ACCEL_MAX])|];
      destruct reset;
      cbn [getitem lookup list_lookup mbind result_bind];
      now rewrite py_min_Rmin, py_max_Rmax.
  - intros Hoff Hden.
    destruct (accel_limits_of_acc ctl v angle CP Hoff Hden)
      as (max_accel & a_x & Hlimits & Hmax & Hax).
    unfold mpc_accel_limits. rewrite Hlimits.
    cbn [getitem lookup list_lookup mbind result_bind].
    destruct reset; cbn [mbind result_bind];
      rewrite py_min_Rmin, py_max_Rmax;
      (eexists; eexists; eexists; split; [reflexivity|]).
    + rewrite clip_Rmax_Rmin. unfold A_CRUISE_MIN.
      pose proof (Rmin_l (-1.2) (Rmax (-1.2) (Rmin max_accel aEgo) + 0.05)).
      pose proof (Rmax_l (Rmin max_accel a_x)
                    (Rmax (-1.2) (Rmin max_accel aEgo) - 0.05)).
      pose proof (Rmax_l (-1.2) (Rmin max_accel aEgo)).
      pose proof (Rmin_l max_accel aEgo).
      assert (0 <= Rmin max_accel a_x) by (apply Rmin_glb; lra).
      assert (Rmax (-1.2) (Rmin max_accel aEgo) <= 1.8)
        by (apply Rmax_lub; lra).
      repeat split; first [lra | discriminate | intros; lra].
    + unfold A_CRUISE_MIN.
      pose proof (Rmin_l (-1.2) (a + 0.05)).
      pose proof (Rmax_l (Rmin max_accel a_x) (a - 0.05)).
      assert (0 <= Rmin max_accel a_x) by (apply Rmin_glb; lra).
      repeat split; first [lra | discriminate | intros; lra].
Qed.

Lemma mpc_limits_contain_desired_accel_witness :
  exists a' lo hi,
    mpc_accel_limits acc (mkAccelController false (fun _ _ => (0, 0))) 30 5
      (mkCarParams 15 2.7) true 3 0 = Ok (a', (lo, hi))
    /\ lo <= hi.
Proof.
  destruct (mpc_limits_contain_desired_accel
              (mkAccelController false (fun _ _ => (0, 0))) 30 5
              (mkCarParams 15 2.7) true 3 0) as (_ & _ & Hacc).
  destruct Hacc as (a' & lo & hi & Hout & _ & _ & Hord & _);
    [reflexivity | cbn; lra |].
  exists a', lo, hi. split; [exact Hout | exact Hord].
Defined.

End PlannerFacts.

Module CarStateHelpersFacts.
Import Blinker CommonEvents CarStateHelpers.

(** Calls with the left lamp off count the left counter down. *)
Lemma lamp_off_counts_down (calls : list call) :
  forall self : CarStateBase,
    (0 <= left_blinker_cnt self)%Z ->
    (forall bt l r, In (bt, l, r) calls -> l = false) ->
    left_blinker_cnt (fold_left lamp_step calls self)
    = Z.max (left_blinker_cnt self - Z.of_nat (length calls)) 0.
Proof.
  induction calls as [|[[bt l] r] calls IH]; intros self Hpos Hoff.
  - cbn. lia.
  - assert (l = false) as -> by (apply (Hoff bt l r); now left).
    cbn [fold_left]. rewrite IH.
    + cbn [lamp_step update_blinker_from_lamp fst left_blinker_cnt length]. lia.
    + cbn [lamp_step update_blinker_from_lamp fst left_blinker_cnt]. lia.
    + intros bt' l' r' Hin. apply (Hoff bt' l' r'). now right.
Qed.

(** X14.  The lamp-based blinker holds for exactly [blinker_time] calls: after
    a call that sees the left lamp on with a hold time [T >= 0], and then
    any [k] calls that see it off (whatever their hold times and right
    lamps), the left counter is [max(T - k, 0)], and one more such call
    reports the left blinker exactly when [k + 1 < T]; the call that sees
    the lamp reports it exactly when [0 < T]. *)
Theorem lamp_blinker_holds_for_blinker_time :
  forall (self : CarStateBase) (T : Z) (r0 : bool) (calls : list call)
         (bt : Z) (r : bool),
    (0 <= T)%Z ->
    (forall bt' l' r', In (bt', l', r') calls -> l' = false) ->
    let s := fold_left lamp_step calls
               (fst (update_blinker_from_lamp self T true r0)) in
    left_blinker_cnt s = Z.max (T - Z.of_nat (length calls)) 0
    /\ fst (snd (update_blinker_from_lamp s bt false r))
       = (Z.of_nat (length calls) + 1 <? T)%Z
    /\ fst (snd (update_blinker_from_lamp self T true r0)) = (0 <? T)%Z.
Proof.
  intros self T r0 calls bt r HT Hoff s.
  assert (Hcnt : left_blinker_cnt s = Z.max (T - Z.of_nat (length calls)) 0).
  { subst s. rewrite lamp_off_counts_down; [reflexivity | exact HT | exact Hoff]. }
  split; [exact Hcnt|]. split; [|reflexivity].
  cbn. rewrite Hcnt.
  destruct (Z.ltb_spec 0 (Z.max (Z.max (T - Z.of_nat (length calls)) 0 - 1) 0)),
    (Z.ltb_spec (Z.of_nat (length calls) + 1) T); lia || reflexivity.
Qed.

Lemma lamp_blinker_holds_for_blinker_time_witness :
  left_blinker_cnt
    (fold_left lamp_step [(50, false, true); (50, false, false)]%Z
       (fst (update_blinker_from_lamp init 50 true false))) = 48%Z.
Proof.
  destruct (lamp_blinker_holds_for_blinker_time init 50 false
              [(50, false, true); (50, false, false)]%Z 50 false) as (Hcnt & _).
  - lia.
  - intros bt' l' r' [Heq | [Heq | []]]; now injection Heq as _ <- _.
  - exact Hcnt.
Defined.

(** A call of the stalk-based blinker with the right stalk off, the right
    counter at zero and no rising edge of the left stalk. *)
Lemma stalk_no_edge (self : CarStateBase) (bt : Z) (l : bool) :
  right_blinker_cnt self = 0%Z ->
  (l = true -> left_blinker_prev self = true) ->
  step self (bt, l, false)
  = mkCarStateBase (Z.max (left_blinker_cnt self - 1) 0) 0 l false.
Proof.
  intros Hr Hprev. unfold step, update_blinker_from_stalk. cbn [fst].
  rewrite Hr.
  destruct l; [rewrite (Hprev eq_refl)|]; cbn; reflexivity.
Qed.

Lemma stalk_held_counts_down (held : list Z) :
  forall self : CarStateBase,
    (0 <= left_blinker_cnt self)%Z ->
    right_blinker_cnt self = 0%Z -> left_blinker_prev self = true ->
    let s := fold_left step (map (fun bt => (bt, true, false)) held) self in
    left_blinker_cnt s = Z.max (left_blinker_cnt self - Z.of_nat (length held)) 0
    /\ right_blinker_cnt s = 0%Z /\ left_blinker_prev s = true.
Proof.
  induction held as [|bt held IH]; intros self Hpos Hr Hp.
  - cbn. repeat split; [lia | exact Hr | exact Hp].
  - cbn [map fold_left].
    rewrite (stalk_no_edge self bt true Hr (fun _ => Hp)).
    destruct (IH (mkCarStateBase (Z.max (left_blinker_cnt self - 1) 0) 0 true false)
                ltac:(cbn; lia) eq_refl eq_refl) as (Hc & Hr' & Hp').
    cbn zeta in *. rewrite Hc, Hr', Hp'. repeat split.
    cbn [left_blinker_cnt length]. lia.
Qed.

Lemma stalk_released_counts_down (released : list Z) :
  forall self : CarStateBase,
    (0 <= left_blinker_cnt self)%Z ->
    right_blinker_cnt self = 0%Z ->
    let s := fold_left step (map (fun bt => (bt, false, false)) released) self in
    left_blinker_cnt s
    = Z.max (left_blinker_cnt self - Z.of_nat (length released)) 0
    /\ right_blinker_cnt s = 0%Z.
Proof.
  induction released as [|bt released IH]; intros self Hpos Hr.
  - cbn. split; [lia | exact Hr].
  - cbn [map fold_left].
    rewrite (stalk_no_edge self bt false Hr ltac:(discriminate)).
    destruct (IH (mkCarStateBase (Z.max (left_blinker_cnt self - 1) 0) 0 false false)
                ltac:(cbn; lia) eq_refl) as (Hc & Hr').
    cbn zeta in *. rewrite Hc, Hr'. split; [|reflexivity].
    cbn [left_blinker_cnt length]. lia.
Qed.

(** X15.  The stalk-based blinker counts from the rising edge, not from the
    release: after a call in which the left stalk goes from off to on with
    hold time [T] (right stalk off), then [h] calls with the left stalk held
    and [k] calls with both stalks off, the left counter is
    [max(T - 1 - h - k, 0)] and the right one 0; one more call with both
    stalks off reports the left blinker exactly when [h + k + 2 < T], and
    never the right one.  A tap with [T >= 2] therefore lights the blinker
    for [T - 1] calls in all, the call of the tap included. *)
Theorem stalk_blinker_counts_from_rising_edge :
  forall (self : CarStateBase) (T : Z) (held released : list Z) (bt : Z),
    left_blinker_prev self = false ->
    let s := fold_left step
               (map (fun bt => (bt, true, false)) held
                ++ map (fun bt => (bt, false, false)) released)
               (step self (T, true, false)) in
    let n := Z.of_nat (length held + length released) in
    left_blinker_cnt s = Z.max (T - 1 - n) 0
    /\ right_blinker_cnt s = 0%Z
    /\ snd (update_blinker_from_stalk s bt false false)
       = ((n + 2 <? T)%Z, false).
Proof.
  intros self T held released bt Hprev s n.
  set (s1 := step self (T, true, false)) in *.
  assert (Hs1 : left_blinker_cnt s1 = Z.max (T - 1) 0
                /\ right_blinker_cnt s1 = 0%Z /\ left_blinker_prev s1 = true).
  { subst s1. unfold step, update_blinker_from_stalk. cbn.
    rewrite Hprev. cbn. repeat split. }
  destruct Hs1 as (Hc1 & Hr1 & Hp1).
  destruct (stalk_held_counts_down held s1 ltac:(lia) Hr1 Hp1) as (Hc2 & Hr2 & _).
  cbn zeta in Hc2, Hr2.
  set (s2 := fold_left step (map (fun bt => (bt, true, false)) held) s1) in *.
  destruct (stalk_released_counts_down released s2 ltac:(lia) Hr2) as (Hc3 & Hr3).
  cbn zeta in Hc3, Hr3.
  assert (Hs : s = fold_left step (map (fun bt => (bt, false, false)) released) s2)
    by (subst s s2; now rewrite fold_left_app).
  rewrite <- Hs in Hc3, Hr3.
  assert (Hcnt : left_blinker_cnt s = Z.max (T - 1 - n) 0)
    by (rewrite Hc3, Hc2, Hc1; subst n; lia).
  split; [exact Hcnt|]. split; [exact Hr3|].
  unfold update_blinker_from_stalk. cbn. rewrite Hcnt, Hr3. cbn.
  f_equal.
  destruct (Z.ltb_spec 0 (Z.max (Z.max (T - 1 - n) 0 - 1) 0)),
    (Z.ltb_spec (n + 2) T); lia || reflexivity.
Qed.

Lemma stalk_blinker_counts_from_rising_edge_witness :
  snd (update_blinker_from_stalk
         (fold_left step [(50, false, false)]%Z (step init (3, true, false)%Z))
         50 false false) = (false, false).
Proof.
  destruct (stalk_blinker_counts_from_rising_edge init 3 [] [50%Z] 50)
    as (_ & _ & Hout); [reflexivity|].
  exact Hout.
Defined.


(** The letters of the dict and what they stand for. *)
Lemma parse_gear_shifter_cases (gear : string) :
  (gear = "P" /\ parse_gear_shifter gear = park)%string
  \/ (gear = "R" /\ parse_gear_shifter gear = reverse)%string
  \/ (gear = "N" /\ parse_gear_shifter gear = neutral)%string
  \/ (gear = "E" /\ parse_gear_shifter gear = eco)%string
  \/ (gear = "T" /\ parse_gear_shifter gear = manumatic)%string
  \/ (gear = "D" /\ parse_gear_shifter gear = drive)%string
  \/ (gear = "S" /\ parse_gear_shifter gear = sport)%string
  \/ (gear = "L" /\ parse_gear_shifter gear = low)%string
  \/ (gear = "B" /\ parse_gear_shifter gear = brake)%string
  \/ ((gear ∉ ["P"; "R"; "N"; "E"; "T"; "D"; "S"; "L"; "B"]%string)
      /\ parse_gear_shifter gear = unknown).
Proof.
  unfold parse_gear_shifter, gear_letters. cbn [list_to_map foldr fst snd].
  repeat match goal with
  | |- context [<[?k := _]> _ !! gear] =>
      destruct (decide (gear = k)) as [-> | ?];
      [rewrite lookup_insert_eq; cbn; tauto
      | rewrite lookup_insert_ne; [|congruence]]
  end.
  rewrite lookup_empty. cbn.
  do 9 right. split; [|reflexivity].
  rewrite !not_elem_of_cons. repeat split; try assumption.
  apply not_elem_of_nil.
Qed.

(** X16.  [parse_gear_shifter] reads exactly nine upper-case letters: any
    other string, a lower-case letter or the empty string included, gives
    [unknown]; two strings that give the same gear other than [unknown] are
    the same string; and every gear other than [unknown] has a letter. *)
Theorem parse_gear_shifter_one_letter_per_gear :
  (forall gear : string,
      parse_gear_shifter gear <> unknown
      <-> gear ∈ ["P"; "R"; "N"; "E"; "T"; "D"; "S"; "L"; "B"]%string)
  /\ (forall g1 g2 : string,
        parse_gear_shifter g1 = parse_gear_shifter g2 ->
        parse_gear_shifter g1 <> unknown -> g1 = g2)
  /\ (forall g : GearShifter,
        g <> unknown -> exists gear : string, parse_gear_shifter gear = g).
Proof.
  split; [|split].
  - intros gear.
    destruct (parse_gear_shifter_cases gear)
      as [[-> ->] | [[-> ->] | [[-> ->] | [[-> ->] | [[-> ->] | [[-> ->]
         | [[-> ->] | [[-> ->] | [[-> ->] | [Hout ->]]]]]]]]]];
      (split; [intros Hk | intros Hin]);
      first [ congruence | discriminate | contradiction
            | rewrite !elem_of_cons; tauto ].
  - intros g1 g2 Heq Hk.
    destruct (parse_gear_shifter_cases g1)
      as [[-> H1] | [[-> H1] | [[-> H1] | [[-> H1] | [[-> H1] | [[-> H1]
         | [[-> H1] | [[-> H1] | [[-> H1] | [_ H1]]]]]]]]]];
      [| | | | | | | | | congruence];
      rewrite H1 in Heq;
      (destruct (parse_gear_shifter_cases g2)
        as [[-> H2] | [[-> H2] | [[-> H2] | [[-> H2] | [[-> H2] | [[-> H2]
           | [[-> H2] | [[-> H2] | [[-> H2] | [_ H2]]]]]]]]]];
       rewrite H2 in Heq; first [reflexivity | discriminate]).
  - intros g Hg.
    destruct g; [congruence | | | | | | | | |];
      [exists "P"%string | exists "D"%string | exists "N"%string
      | exists "R"%string | exists "S"%string | exists "L"%string
      | exists "B"%string | exists "E"%string | exists "T"%string];
      reflexivity.
Qed.

End CarStateHelpersFacts.

Module TorqueLinearFacts.
Import NumpyFast NumpyFastFacts DriveHelpers DriveHelpersFacts TorqueLinear.
Import Lqa.

(** X17.  The linear torque model: for a lateral-acceleration factor that is
    not zero and a friction coefficient that is not negative, the call
    returns a torque that differs from
    [lateral_acceleration / latAccelFactor] by at most the friction
    coefficient, and by nothing without friction compensation.  A factor of
    zero makes the call fail with a ZeroDivisionError. *)
Theorem linear_torque_within_friction :
  forall (inputs : LatControlInputs) (tp : LateralTorqueTuning) (err dz : Q)
         (comp gravity_adjusted : bool),
    (0 <= friction tp)%Q ->
    (~ latAccelFactor tp == 0 ->
     exists t,
       torque_from_lateral_accel_linear inputs tp err dz comp gravity_adjusted
       = Ok t
       /\ (Qabs (t - lateral_acceleration inputs / latAccelFactor tp)
           <= friction tp)%Q
       /\ (comp = false ->
           t == lateral_acceleration inputs / latAccelFactor tp))
    /\ (latAccelFactor tp == 0 ->
        torque_from_lateral_accel_linear inputs tp err dz comp gravity_adjusted
        = Raise ZeroDivisionError).
Proof.
  intros inputs tp err dz comp grav Hf.
  destruct (get_friction_closed_form err dz FRICTION_THRESHOLD tp comp
              ltac:(reflexivity) Hf) as (y & Hy & Hlo & Hhi & Hoff & _).
  unfold torque_from_lateral_accel_linear. rewrite Hy.
  cbn [mbind result_bind]. split.
  - intros Hfactor. rewrite (CurvatureFacts.py_div_ok _ _ Hfactor).
    cbn [mbind result_bind]. eexists. split; [reflexivity|]. split.
    + apply Qabs_Qle_condition. split; lra.
    + intros Hc. rewrite (Hoff Hc). lra.
  - intros Hz. unfold Curvature.py_div.
    apply Qeq_bool_iff in Hz. now rewrite Hz.
Qed.

Lemma linear_torque_within_friction_witness :
  exists t,
    torque_from_lateral_accel_linear (mkLatControlInputs 1 0 20 0)
      (mkLateralTorqueTuning (1 # 5) 2) (1 # 2) (1 # 10) false false = Ok t
    /\ t == 1 # 2.
Proof.
  destruct (linear_torque_within_friction (mkLatControlInputs 1 0 20 0)
              (mkLateralTorqueTuning (1 # 5) 2) (1 # 2) (1 # 10) false false)
    as [Hok _]; [discriminate|].
  destruct Hok as (t & Ht & _ & Hoff); [discriminate|].
  exists t. split; [exact Ht|]. rewrite (Hoff eq_refl). reflexivity.
Defined.

End TorqueLinearFacts.

Module HyundaiUpdateFacts.
Import NumpyFast NumpyFastFacts CommonEvents CommonEventsFacts HyundaiUpdate.
Import Lqa.

(** A quotient by a constant, as a product. *)
Ltac qdiv_const :=
  repeat match goal with
  | |- context [(?a / ?c)%Q] =>
      let c' := eval vm_compute in (/ c)%Q in
      change (a / c)%Q with (a * c')%Q
  end.

(** The gas ceiling in closed form. *)
Lemma interp_gas_max (x : Q) :
  interp x gas_max_bp gas_max_v
  = Ok (if a_ltb 10 x
        then if a_ltb 20 x
        then if a_ltb 50 x
        then if a_ltb 70 x
        then if a_ltb 130 x
        then if a_ltb 150 x then (1 # 10)
             else (x - 130) * ((1 # 10) - (15 # 100)) / (150 - 130) + (15 # 100)
             else (x - 70) * ((15 # 100) - (3 # 10)) / (130 - 70) + (3 # 10)
             else (x - 50) * ((3 # 10) - (5 # 10)) / (70 - 50) + (5 # 10)
             else (x - 20) * ((5 # 10) - (11 # 10)) / (50 - 20) + (11 # 10)
             else (x - 10) * ((11 # 10) - (14 # 10)) / (20 - 10) + (14 # 10)
        else 14 # 10)%Q.
Proof.
  unfold interp, gas_max_bp, gas_max_v. cbn [find_hi length].
  destruct (a_ltb 10%Q x) eqn:E1; cbn [find_hi]; [|reflexivity].
  destruct (a_ltb 20%Q x) eqn:E2; cbn [find_hi]; [|reflexivity].
  destruct (a_ltb 50%Q x) eqn:E3; cbn [find_hi]; [|reflexivity].
  destruct (a_ltb 70%Q x) eqn:E4; cbn [find_hi]; [|reflexivity].
  destruct (a_ltb 130%Q x) eqn:E5; cbn [find_hi]; [|reflexivity].
  destruct (a_ltb 150%Q x) eqn:E6; cbn in E6 |- *.
  - now rewrite E6.
  - reflexivity.
Qed.

Ltac ltb_case a b :=
  let E := fresh "E" in
  destruct (a_ltb a b) eqn:E;
  [apply ltb_Q_true in E | apply ltb_Q_false in E].

Ltac gas_cases x :=
  ltb_case 10%Q x;
  [ltb_case 20%Q x;
   [ltb_case 50%Q x;
    [ltb_case 70%Q x;
     [ltb_case 130%Q x; [ltb_case 150%Q x | ] | ] | ] | ] | ].

(** X18.  The Hyundai acceleration limits for the PID controller: the call
    returns for every speed, the lower limit is the controller's ACCEL_MIN,
    and the upper one, which does not depend on the cruise speed, is
    between 0.1 and 1.4 m/s^2; for a conversion factor that is not
    negative it never increases with the current speed. *)
Theorem pid_accel_ceiling_decreases_with_speed :
  forall (MS_TO_KPH ACCEL_MIN v1 v2 cruise1 cruise2 : Q),
    exists g1 g2,
      get_pid_accel_limits MS_TO_KPH ACCEL_MIN v1 cruise1 = Ok (ACCEL_MIN, g1)
      /\ get_pid_accel_limits MS_TO_KPH ACCEL_MIN v2 cruise2 = Ok (ACCEL_MIN, g2)
      /\ (1 # 10 <= g1)%Q /\ (g1 <= 14 # 10)%Q
      /\ (v1 = v2 -> g1 = g2)
      /\ ((0 <= MS_TO_KPH)%Q -> (v1 <= v2)%Q -> (g2 <= g1)%Q).
Proof.
  intros kph amin v1 v2 c1 c2. unfold get_pid_accel_limits.
  rewrite !interp_gas_max. cbn [mbind result_bind].
  eexists. eexists. split; [reflexivity|]. split; [reflexivity|].
  split; [|split; [|split]].
  - set (x := (v1 * kph)%Q). gas_cases x; qdiv_const; lra.
  - set (x := (v1 * kph)%Q). gas_cases x; qdiv_const; lra.
  - now intros ->.
  - intros Hk Hv.
    assert (Hx : (v1 * kph <= v2 * kph)%Q) by nra.
    set (x1 := (v1 * kph)%Q) in *. set (x2 := (v2 * kph)%Q) in *.
    gas_cases x1; gas_cases x2; qdiv_const; lra.
Qed.

Lemma pid_accel_ceiling_decreases_with_speed_witness :
  exists g1 g2,
    get_pid_accel_limits (36 # 10) (- (35 # 10)) 5 30 = Ok (- (35 # 10), g1)%Q
    /\ get_pid_accel_limits (36 # 10) (- (35 # 10)) 25 30 = Ok (- (35 # 10), g2)%Q
    /\ (g2 <= g1)%Q.
Proof.
  destruct (pid_accel_ceiling_decreases_with_speed (36 # 10) (- (35 # 10))
              5 25 30 30) as (g1 & g2 & H1 & H2 & _ & _ & _ & Hmono).
  exists g1, g2. split; [exact H1|]. split; [exact H2|].
  apply Hmono; discriminate.
Defined.


(** One cycle, by the steering-fault block. *)
Lemma common_events_cycle_steer (kph : Q) (limit : Z) (self : CarInterfaceBase)
    (ret : CarState) :
  let '(u, s, n, ev) := steering_faults limit self ret [] in
  fst (common_events_cycle kph limit self ret) = mkCarInterfaceBase u s n ret
  /\ forall x,
       x = steerTempUnavailableSilent \/ x = steerTempUnavailable
       \/ x = steerUnavailable ->
       has (snd (common_events_cycle kph limit self ret)) x = has ev x.
Proof.
  pose proof (create_common_events_state kph limit self ret true) as Hstate.
  pose proof (create_common_events_steer kph limit self ret true) as Hev.
  unfold common_events_cycle.
  destruct (create_common_events kph limit self ret true) as [self' events].
  destruct (steering_faults limit self ret []) as [[[u s] n] ev].
  cbn [fst snd] in *. subst self'. split; [reflexivity | exact Hev].
Qed.

Lemma run_cycles_cons (kph : Q) (limit : Z) (self : CarInterfaceBase)
    (ret : CarState) (rest : list CarState) :
  run_cycles kph limit self (ret :: rest)
  = (fst (run_cycles kph limit (fst (common_events_cycle kph limit self ret)) rest),
     snd (common_events_cycle kph limit self ret)
     :: snd (run_cycles kph limit (fst (common_events_cycle kph limit self ret))
               rest)).
Proof.
  cbn [run_cycles].
  destruct (common_events_cycle kph limit self ret) as [self' events].
  cbn [fst snd]. now destruct (run_cycles kph limit self' rest).
Qed.

(** A cycle with a temporary fault under the driver's hand, the fault being
    new or the no-steer warning being latched. *)
Lemma masked_cycle (kph : Q) (limit : Z) (self : CarInterfaceBase)
    (ret : CarState) :
  steerFaultTemporary ret = true -> steeringPressed ret = true ->
  steerFaultTemporary (CS_out self) = false \/ no_steer_warning self = true ->
  let res := common_events_cycle kph limit self ret in
  fst res = mkCarInterfaceBase 0 (silent_steer_warning self) true ret
  /\ has (snd res) steerTempUnavailableSilent = false
  /\ has (snd res) steerTempUnavailable = false.
Proof.
  intros Hfault Hpressed Hcase res. subst res.
  pose proof (common_events_cycle_steer kph limit self ret) as Hcycle.
  assert (Hguard : negb (steerFaultTemporary (CS_out self))
                   || no_steer_warning self = true)
    by (destruct Hcase as [-> | ->]; [reflexivity | apply orb_true_r]).
  unfold steering_faults in Hcycle.
  rewrite Hfault, Hpressed, Hguard in Hcycle. cbn in Hcycle.
  destruct Hcycle as [Hstate Hev].
  split; [exact Hstate|].
  rewrite !Hev by tauto.
  now destruct (steerFaultPermanent ret).
Qed.

(** A cycle that reports the temporary fault with the wheel released, right
    after a cycle with the wheel pressed. *)
Lemma released_cycle (kph : Q) (limit : Z) (self : CarInterfaceBase)
    (ret : CarState) :
  steerFaultTemporary ret = true -> steeringPressed ret = false ->
  steering_unpressed self = 0%Z -> (1 < limit)%Z ->
  has (snd (common_events_cycle kph limit self ret)) steerTempUnavailableSilent
  = true.
Proof.
  intros Hfault Hreleased Hcount Hlim.
  pose proof (common_events_cycle_steer kph limit self ret) as Hcycle.
  pose proof (steering_faults_has limit self ret [] steerTempUnavailableSilent)
    as Hhas.
  destruct (steering_faults limit self ret []) as [[[u s] n] ev].
  destruct Hcycle as [_ Hev]. rewrite Hev by tauto. rewrite Hhas.
  rewrite Hfault, Hreleased, Hcount. change (0 + 1)%Z with 1%Z.
  apply Z.ltb_lt in Hlim. rewrite Hlim. cbn.
  now rewrite !orb_true_r.
Qed.

(** X19.  Steering override masks the temporary-fault alerts: over any run of
    cycles that all report a temporary steering fault with the wheel
    pressed, starting when the fault is new (the previous car state
    reported none) or the no-steer warning is latched, no cycle emits
    steerTempUnavailable or steerTempUnavailableSilent, and the no-steer
    warning stays latched.  The first cycle after them that reports the
    fault with the wheel released emits the silent event (the limit of
    unpressed cycles being more than 1). *)
Theorem override_masks_temporary_fault :
  forall (kph : Q) (limit : Z) (self : CarInterfaceBase) (rets : list CarState),
    (forall ret, In ret rets ->
       steerFaultTemporary ret = true /\ steeringPressed ret = true) ->
    steerFaultTemporary (CS_out self) = false \/ no_steer_warning self = true ->
    let self' := fst (run_cycles kph limit self rets) in
    Forall (fun events =>
              has events steerTempUnavailableSilent = false
              /\ has events steerTempUnavailable = false)
      (snd (run_cycles kph limit self rets))
    /\ (rets <> [] ->
        no_steer_warning self' = true
        /\ forall ret,
             steerFaultTemporary ret = true -> steeringPressed ret = false ->
             (1 < limit)%Z ->
             has (snd (common_events_cycle kph limit self' ret))
               steerTempUnavailableSilent = true).
Proof.
  intros kph limit self rets. revert self.
  induction rets as [|ret rets IH]; intros self Hall Hcase self'.
  - split; [constructor | congruence].
  - subst self'. rewrite run_cycles_cons. cbn [fst snd].
    destruct (Hall ret (or_introl eq_refl)) as [Hfault Hpressed].
    destruct (masked_cycle kph limit self ret Hfault Hpressed Hcase)
      as (Hstate & Hsilent & Hloud).
    cbn zeta in Hstate, Hsilent, Hloud.
    set (self1 := fst (common_events_cycle kph limit self ret)) in *.
    assert (Hnext : steerFaultTemporary (CS_out self1) = false
                    \/ no_steer_warning self1 = true)
      by (right; now rewrite Hstate).
    destruct (IH self1 (fun r Hr => Hall r (or_intror Hr)) Hnext)
      as [Hrest Hlast].
    split; [constructor; [split; assumption | exact Hrest]|].
    intros _. destruct rets as [|ret' rets'].
    + cbn [run_cycles fst]. split; [now rewrite Hstate|].
      intros ret1 Hf1 Hp1 Hlim.
      apply released_cycle; [exact Hf1 | exact Hp1 | now rewrite Hstate | exact Hlim].
    + apply Hlast. discriminate.
Qed.

Lemma override_masks_temporary_fault_witness :
  Forall (fun events =>
            has events steerTempUnavailableSilent = false
            /\ has events steerTempUnavailable = false)
    (snd (run_cycles (5 # 18) 150 self_fresh
            [cs_fault_pressed; cs_fault_pressed])).
Proof.
  destruct (override_masks_temporary_fault (5 # 18) 150 self_fresh
              [cs_fault_pressed; cs_fault_pressed]) as [Hnone _].
  - intros ret [<- | [<- | []]]; split; reflexivity.
  - left. reflexivity.
  - exact Hnone.
Defined.

(** A cycle with a temporary fault while the silent warning is latched. *)
Lemma silent_cycle (kph : Q) (limit : Z) (self : CarInterfaceBase)
    (ret : CarState) :
  steerFaultTemporary ret = true -> silent_steer_warning self = true ->
  let res := common_events_cycle kph limit self ret in
  silent_steer_warning (fst res) = true
  /\ has (snd res) steerTempUnavailable = false.
Proof.
  intros Hfault Hsilent res. subst res.
  pose proof (common_events_cycle_steer kph limit self ret) as Hcycle.
  unfold steering_faults in Hcycle. rewrite Hfault, Hsilent in Hcycle.
  destruct (steeringPressed ret
            && (negb (steerFaultTemporary (CS_out self))
                || no_steer_warning self));
    cbn in Hcycle; destruct Hcycle as [-> Hev];
    (split; [reflexivity|]); rewrite Hev by tauto;
    now destruct (steerFaultPermanent ret).
Qed.

(** X20.  A temporary fault that was announced silently is never escalated
    while it lasts: over any run of cycles that all report the temporary
    steering fault, starting with the silent warning latched (as it is on a
    freshly constructed interface), no cycle emits the loud
    steerTempUnavailable event and the latch stays set.  A cycle without
    the fault clears it. *)
Theorem silent_fault_is_not_escalated :
  forall (kph : Q) (limit : Z) (self : CarInterfaceBase) (rets : list CarState),
    silent_steer_warning self = true ->
    (forall ret, In ret rets -> steerFaultTemporary ret = true) ->
    Forall (fun events => has events steerTempUnavailable = false)
      (snd (run_cycles kph limit self rets))
    /\ silent_steer_warning (fst (run_cycles kph limit self rets)) = true
    /\ (forall ret, steerFaultTemporary ret = false ->
          silent_steer_warning (fst (common_events_cycle kph limit self ret))
          = false).
Proof.
  intros kph limit self rets. revert self.
  induction rets as [|ret rets IH]; intros self Hsilent Hall.
  - split; [constructor|]. split; [exact Hsilent|].
    intros ret Hclear.
    pose proof (common_events_cycle_steer kph limit self ret) as Hcycle.
    unfold steering_faults in Hcycle. rewrite Hclear in Hcycle.
    cbn in Hcycle. destruct Hcycle as [-> _]. reflexivity.
  - rewrite run_cycles_cons. cbn [fst snd].
    destruct (silent_cycle kph limit self ret (Hall ret (or_introl eq_refl))
                Hsilent) as [Hnext Hloud].
    cbn zeta in Hnext, Hloud.
    destruct (IH _ Hnext (fun r Hr => Hall r (or_intror Hr)))
      as (Hrest & Hlast & _).
    split; [constructor; assumption|]. split; [exact Hlast|].
    intros ret' Hclear.
    pose proof (common_events_cycle_steer kph limit self ret') as Hcycle.
    unfold steering_faults in Hcycle. rewrite Hclear in Hcycle.
    cbn in Hcycle. destruct Hcycle as [-> _]. reflexivity.
Qed.

Lemma silent_fault_is_not_escalated_witness :
  Forall (fun events => has events steerTempUnavailable = false)
    (snd (run_cycles (5 # 18) 2 self_fresh
            [mkCarState drive true true false false false false 20 false
               false true false false;
             mkCarState drive true true false false false false 20 false
               false true false false;
             mkCarState drive true true false false false false 20 false
               false true false false])).
Proof.
  destruct (silent_fault_is_not_escalated (5 # 18) 2 self_fresh
              [mkCarState drive true true false false false false 20 false
                 false true false false;
               mkCarState drive true true false false false false 20 false
                 false true false false;
               mkCarState drive true true false false false false 20 false
                 false true false false]) as [Hnone _].
  - reflexivity.
  - intros ret [<- | [<- | [<- | []]]]; reflexivity.
  - exact Hnone.
Defined.


(** The events of a call other than the three steering events. *)
Lemma create_common_events_has (kph : Q) (limit : Z) (self : CarInterfaceBase)
    (cs : CarState) (pcm : bool) (x : EventName) :
  x <> steerTempUnavailableSilent -> x <> steerTempUnavailable ->
  x <> steerUnavailable ->
  has (snd (create_common_events kph limit self cs pcm)) x
  = (gear_eqb (gearShifter cs) reverse && event_eqb x reverseGear)
    || (negb (cruise_available cs) && event_eqb x wrongCarMode)
    || (espDisabled_ cs && event_eqb x espDisabled)
    || (stockFcw_ cs && event_eqb x stockFcw)
    || (stockAeb_ cs && event_eqb x stockAeb)
    || (negb (Qle_bool (vEgo cs) (MAX_CTRL_SPEED kph)) && event_eqb x speedTooHigh)
    || (cruise_nonAdaptive cs && event_eqb x wrongCruiseMode)
    || (parkingBrake cs && event_eqb x parkBrake)
    || (pcm && cruise_enabled cs && negb (cruise_enabled (CS_out self))
        && event_eqb x pcmEnable)
    || (pcm && negb (cruise_enabled cs) && event_eqb x pcmDisable)
    || (cruise_enabled cs && gear_eqb (gearShifter cs) drive
        && negb (Qle_bool (vEgo cs) (5 * kph)) && event_eqb x pcmEnable).
Proof.
  intros H1 H2 H3. unfold create_common_events.
  pose proof (steering_faults_has limit self cs) as Hblock.
  match goal with
  | |- context [steering_faults limit self cs ?ev] =>
      specialize (Hblock ev x);
      destruct (steering_faults limit self cs ev) as [[[u s] n] ev1]
  end.
  cbn [snd].
  rewrite has_add_if.
  assert (Hpcm : forall ev,
    has (if pcm
         then if cruise_enabled cs && negb (cruise_enabled (CS_out self))
              then add ev pcmEnable
              else add_if (negb (cruise_enabled cs)) pcmDisable ev
         else ev) x
    = has ev x
      || (pcm && cruise_enabled cs && negb (cruise_enabled (CS_out self))
          && event_eqb x pcmEnable)
      || (pcm && negb (cruise_enabled cs) && event_eqb x pcmDisable)).
  { intros ev. destruct pcm; cbn [andb]; [|now rewrite !orb_false_r].
    destruct (cruise_enabled cs); cbn [andb negb].
    - destruct (cruise_enabled (CS_out self)); cbn [andb negb].
      + rewrite has_add_if. cbn. now rewrite !orb_false_r.
      + rewrite has_add. now rewrite orb_false_r.
    - rewrite has_add_if. cbn [andb negb]. now rewrite ?orb_false_r. }
  rewrite Hpcm, Hblock, !has_add_if. cbn [has existsb].
  assert (Hs : event_eqb x steerTempUnavailableSilent = false)
    by (destruct x; try reflexivity; congruence).
  assert (Hl : event_eqb x steerTempUnavailable = false)
    by (destruct x; try reflexivity; congruence).
  assert (Hu : event_eqb x steerUnavailable = false)
    by (destruct x; try reflexivity; congruence).
  rewrite Hs, Hl, Hu.
  rewrite !andb_false_r, !orb_false_r.
  assert (Hif : forall c : bool, (if c then false else false) = false)
    by (now intros []).
  rewrite ?Hif, ?andb_false_r, ?orb_false_r. cbn [orb].
  reflexivity.
Qed.

Lemma gear_eqb_eq (a b : GearShifter) : gear_eqb a b = true <-> a = b.
Proof. destruct a, b; cbn; split; congruence. Qed.

(** X21.  The engagement events of a call: pcmDisable is added exactly when
    the engagement on the PCM is followed ([pcm_enable]) and cruise is not
    enabled; pcmEnable exactly when cruise is enabled and either that is new
    with respect to the previous car state (and [pcm_enable]), or the gear
    is drive and the speed above 5 kph, in which case it is added in every
    such cycle, not only on the rising edge.  A call never adds both.
    wrongCarMode is added exactly when cruise is not available. *)
Theorem enable_and_disable_are_exclusive :
  forall (kph : Q) (limit : Z) (self : CarInterfaceBase) (cs : CarState)
         (pcm : bool),
    let events := snd (create_common_events kph limit self cs pcm) in
    (has events pcmDisable = true <-> pcm = true /\ cruise_enabled cs = false)
    /\ (has events pcmEnable = true
        <-> cruise_enabled cs = true
            /\ ((pcm = true /\ cruise_enabled (CS_out self) = false)
                \/ (gearShifter cs = drive /\ (5 * kph < vEgo cs)%Q)))
    /\ ~ (has events pcmEnable = true /\ has events pcmDisable = true)
    /\ (has events wrongCarMode = true <-> cruise_available cs = false).
Proof.
  intros kph limit self cs pcm events. subst events.
  rewrite !create_common_events_has by discriminate.
  cbn [event_eqb]. rewrite !andb_false_r, !andb_true_r. cbn [orb].
  rewrite !orb_false_r.
  pose proof (gear_eqb_eq (gearShifter cs) drive) as Hgear.
  pose proof (ltb_Q_true (5 * kph) (vEgo cs)) as Hspeed.
  change (a_ltb (5 * kph)%Q (vEgo cs))
    with (negb (Qle_bool (vEgo cs) (5 * kph))) in Hspeed.
  destruct (gear_eqb (gearShifter cs) drive),
    (negb (Qle_bool (vEgo cs) (5 * kph))), pcm, (cruise_enabled cs),
    (cruise_enabled (CS_out self)), (cruise_available cs);
    cbn; intuition congruence.
Qed.


(** The alert after one cycle. *)
Lemma low_speed_alert_update_true (m : Q) (alert : bool) (v : Q) :
  low_speed_alert_update m alert v = true
  <-> (v <= m + (7 # 10))%Q
      /\ (((v < m + (2 # 10))%Q /\ (10 < m)%Q) \/ alert = true).
Proof.
  unfold low_speed_alert_update.
  ltb_case (m + (7 # 10))%Q v; ltb_case v (m + (2 # 10))%Q; ltb_case 10%Q m;
    cbn [andb]; split;
    first [ discriminate
          | intros [Hle _]; exfalso; lra
          | intros _; split; [lra | left; split; lra]
          | intros Ha; split; [lra | now right]
          | intros [_ [[H1 H2] | Ha]]; [exfalso; lra | exact Ha]
          | intros _; reflexivity ].
Qed.

(** The alert after a sequence of cycles. *)
Lemma low_speed_alert_after (m : Q) (speeds : list Q) :
  forall alert : bool,
    fold_left (low_speed_alert_update m) speeds alert = true
    <-> (alert = true /\ forall w, In w speeds -> (w <= m + (7 # 10))%Q)
        \/ ((10 < m)%Q
            /\ exists pre v post,
                 speeds = pre ++ v :: post /\ (v < m + (2 # 10))%Q
                 /\ forall w, In w post -> (w <= m + (7 # 10))%Q).
Proof.
  induction speeds as [|v0 rest IH]; intros alert.
  - cbn [fold_left]. split.
    + intros ->. left. split; [reflexivity | intros w []].
    + intros [[Ha _] | (_ & pre & v & post & Hsplit & _)]; [exact Ha|].
      now destruct pre.
  - cbn [fold_left]. rewrite IH, low_speed_alert_update_true. split.
    + intros [[(Hle & Hcase) Hrest] | (Hm & pre & v & post & -> & Hv & Hpost)].
      * destruct Hcase as [[Hlow Hm] | Ha].
        -- right. split; [exact Hm|]. exists [], v0, rest. repeat split; auto.
        -- left. split; [exact Ha|]. intros w [<- | Hw]; auto.
      * right. split; [exact Hm|]. exists (v0 :: pre), v, post.
        repeat split; auto.
    + intros [[Ha Hall] | (Hm & pre & v & post & Hsplit & Hv & Hpost)].
      * left. split; [split; [apply Hall; now left | now right]|].
        intros w Hw. apply Hall. now right.
      * destruct pre as [|p pre]; cbn in Hsplit; injection Hsplit as <- ->.
        -- left. split; [split; [lra | left; split; assumption] | exact Hpost].
        -- right. split; [exact Hm|]. exists pre, v, post. repeat split; auto.
Qed.

Lemma low_speed_alert_stays_off (m : Q) (speeds : list Q) :
  (m <= 10)%Q -> fold_left (low_speed_alert_update m) speeds false = false.
Proof.
  intros Hm.
  destruct (fold_left (low_speed_alert_update m) speeds false) eqn:E;
    [|reflexivity].
  apply low_speed_alert_after in E as [[Habs _] | [Habs _]];
    [discriminate | lra].
Qed.

(** X22.  The low-speed steer alert is a hysteresis on the speed: after any
    sequence of cycles it is on exactly when either it was on at the start
    and no speed since exceeded [minSteerSpeed + 0.7], or [minSteerSpeed]
    is above 10 and some cycle had a speed below [minSteerSpeed + 0.2] with
    no later speed above [minSteerSpeed + 0.7].  For a [minSteerSpeed] of at
    most 10 an alert that is off stays off whatever the speeds. *)
Theorem low_speed_alert_is_a_hysteresis :
  forall (minSteerSpeed : Q) (speeds : list Q) (low_speed_alert : bool),
    let final :=
      fold_left (low_speed_alert_update minSteerSpeed) speeds low_speed_alert in
    (final = true
     <-> (low_speed_alert = true
          /\ forall w, In w speeds -> (w <= minSteerSpeed + (7 # 10))%Q)
         \/ ((10 < minSteerSpeed)%Q
             /\ exists pre v post,
                  speeds = pre ++ v :: post
                  /\ (v < minSteerSpeed + (2 # 10))%Q
                  /\ forall w, In w post -> (w <= minSteerSpeed + (7 # 10))%Q))
    /\ ((minSteerSpeed <= 10)%Q -> low_speed_alert = false -> final = false).
Proof.
  intros m speeds alert final. subst final.
  split; [apply low_speed_alert_after|].
  intros Hm ->. now apply low_speed_alert_stays_off.
Qed.

Lemma low_speed_alert_is_a_hysteresis_witness :
  fold_left (low_speed_alert_update 0) [1; 0; 3; 20]%Q false = false.
Proof.
  destruct (low_speed_alert_is_a_hysteresis 0 [1; 0; 3; 20]%Q false)
    as [_ Hoff].
  apply Hoff; [discriminate | reflexivity].
Defined.


(** What the bus-topology part of [_get_params] returns, by the maps of the
    buses it reads. *)
Lemma get_params_returns (params : Hyundai.Params) (ret ret' : Hyundai.CarParams)
    (fp : Hyundai.fingerprint) :
  Hyundai._get_params params ret fp = Ok ret' ->
  exists f0 f1 fs,
    fp !! 0%Z = Some f0 /\ fp !! 1%Z = Some f1
    /\ Hyundai.mdpsBus ret'
       = (if Hyundai.seen 593 f1 && negb (Hyundai.seen 1296 f1) then 1 else 0)%Z
    /\ Hyundai.sasBus ret'
       = (if Hyundai.seen 688 f1 && negb (Hyundai.seen 1296 f1) then 1 else 0)%Z
    /\ Hyundai.minSteerSpeed ret'
       = (if Hyundai.seen 682 f0 then 0%Q else Hyundai.minSteerSpeed ret)
    /\ ((Hyundai.sccBus ret' = 0%Z /\ fs = f0 /\ Hyundai.seen 1056 f0 = true)
        \/ (Hyundai.sccBus ret' = 1%Z /\ fs = f1
            /\ Hyundai.seen 1056 f1 = true /\ Hyundai.seen 1296 f1 = false)
        \/ (Hyundai.sccBus ret' = 2%Z /\ fp !! 2%Z = Some fs
            /\ Hyundai.seen 1056 fs = true)
        \/ (Hyundai.sccBus ret' = (-1)%Z /\ fp !! 2%Z = Some fs
            /\ Hyundai.seen 1056 fs = false
            /\ Hyundai.hasScc13 ret' = Hyundai.hasScc13 ret
            /\ Hyundai.hasScc14 ret' = Hyundai.hasScc14 ret))
    /\ ((0 <= Hyundai.sccBus ret')%Z ->
        Hyundai.hasScc13 ret' = Hyundai.seen 1290 fs
        /\ Hyundai.hasScc14 ret' = Hyundai.seen 905 fs).
Proof.
  unfold Hyundai._get_params, Hyundai.getitem.
  destruct (fp !! 0%Z) as [f0|] eqn:H0; cbn [mbind result_bind]; [|discriminate].
  destruct (fp !! 1%Z) as [f1|] eqn:H1; cbn [mbind result_bind]; [|discriminate].
  destruct (Hyundai.seen 1056 f0) eqn:E0; cbn [mbind result_bind].
  - change (0 <=? 0)%Z with true. cbn iota. rewrite H0. cbn [mbind result_bind].
    intros Hret. injection Hret as <-. exists f0, f1, f0. cbn.
    repeat split; auto.
  - destruct (Hyundai.seen 1056 f1 && negb (Hyundai.seen 1296 f1)) eqn:E1;
      cbn [mbind result_bind].
    + change (0 <=? 1)%Z with true. cbn iota. rewrite H1.
      cbn [mbind result_bind].
      intros Hret. injection Hret as <-. exists f0, f1, f1. cbn.
      apply andb_true_iff in E1 as [E1 E1']. apply negb_true_iff in E1'.
      repeat split; auto. right; left. repeat split; auto.
    + destruct (fp !! 2%Z) as [f2|] eqn:H2; cbn [mbind result_bind];
        [|discriminate].
      destruct (Hyundai.seen 1056 f2) eqn:E2.
      * change (0 <=? 2)%Z with true. cbn iota. rewrite H2.
        cbn [mbind result_bind].
        intros Hret. injection Hret as <-. exists f0, f1, f2. cbn.
        repeat split; auto. right; right; left. repeat split; auto.
      * change (0 <=? -1)%Z with false. cbn iota. cbn [mbind result_bind].
        intros Hret. injection Hret as <-. exists f0, f1, f2. cbn.
        repeat split; auto; try lia. right; right; right. repeat split; auto.
Qed.

(** X23.  The bus assignment of the Hyundai parameters: whenever the
    bus-topology part of [_get_params] returns, mdpsBus and sasBus are 0 or
    1 and sccBus is -1, 0, 1 or 2; a bus 1 that carries message 1296 (L-CAN
    on that bus) is never assigned: mdpsBus and sasBus are then 0 and
    sccBus is not 1; a sccBus that is not -1 names a bus of the fingerprint
    that carries message 1056, and hasScc13 and hasScc14 tell whether that
    same bus carries 1290 and 905; with sccBus -1 they keep the values they
    had. *)
Theorem buses_skip_lcan :
  forall (params : Hyundai.Params) (ret ret' : Hyundai.CarParams)
         (fp : Hyundai.fingerprint),
    Hyundai._get_params params ret fp = Ok ret' ->
    (Hyundai.mdpsBus ret' = 0 \/ Hyundai.mdpsBus ret' = 1)%Z
    /\ (Hyundai.sasBus ret' = 0 \/ Hyundai.sasBus ret' = 1)%Z
    /\ (Hyundai.sccBus ret' = -1 \/ Hyundai.sccBus ret' = 0
        \/ Hyundai.sccBus ret' = 1 \/ Hyundai.sccBus ret' = 2)%Z
    /\ (forall f1, fp !! 1%Z = Some f1 -> Hyundai.seen 1296 f1 = true ->
          Hyundai.mdpsBus ret' = 0%Z /\ Hyundai.sasBus ret' = 0%Z
          /\ Hyundai.sccBus ret' <> 1%Z)
    /\ ((0 <= Hyundai.sccBus ret')%Z ->
        exists fs, fp !! Hyundai.sccBus ret' = Some fs
          /\ Hyundai.seen 1056 fs = true
          /\ Hyundai.hasScc13 ret' = Hyundai.seen 1290 fs
          /\ Hyundai.hasScc14 ret' = Hyundai.seen 905 fs)
    /\ (Hyundai.sccBus ret' = (-1)%Z ->
        Hyundai.hasScc13 ret' = Hyundai.hasScc13 ret
        /\ Hyundai.hasScc14 ret' = Hyundai.hasScc14 ret).
Proof.
  intros params ret ret' fp Hret.
  destruct (get_params_returns params ret ret' fp Hret)
    as (f0 & f1 & fs & H0 & H1 & Hmdps & Hsas & _ & Hscc & Hhas).
  split; [|split; [|split; [|split; [|split]]]].
  - rewrite Hmdps.
    destruct (Hyundai.seen 593 f1 && negb (Hyundai.seen 1296 f1)); lia.
  - rewrite Hsas.
    destruct (Hyundai.seen 688 f1 && negb (Hyundai.seen 1296 f1)); lia.
  - destruct Hscc as [(-> & _) | [(-> & _) | [(-> & _) | (-> & _)]]]; lia.
  - intros f1' H1' Hlcan. rewrite H1 in H1'. injection H1' as <-.
    rewrite Hmdps, Hsas, Hlcan, !andb_false_r. repeat split.
    destruct Hscc as [(-> & _) | [(_ & _ & _ & Hno) | [(-> & _) | (-> & _)]]];
      congruence.
  - intros Hpos. exists fs. destruct (Hhas Hpos) as [H13 H14].
    destruct Hscc as [(Hb & -> & Hs) | [(Hb & -> & Hs & _)
                     | [(Hb & H2 & Hs) | (Hb & _)]]];
      [rewrite Hb | rewrite Hb | rewrite Hb | lia]; auto.
  - intros Hminus.
    destruct Hscc as [(Hb & _) | [(Hb & _) | [(Hb & _) | (_ & _ & _ & H13 & H14)]]];
      [congruence | congruence | congruence | auto].
Qed.

Lemma buses_skip_lcan_witness :
  exists ret',
    Hyundai._get_params (Hyundai.mkParams false false) Hyundai.std_params
      Hyundai.fp_scc_bus2 = Ok ret'
    /\ (0 <= Hyundai.sccBus ret')%Z.
Proof.
  eexists. split; [reflexivity|].
  destruct (buses_skip_lcan (Hyundai.mkParams false false) Hyundai.std_params
              _ Hyundai.fp_scc_bus2 eq_refl) as (_ & _ & Hscc & _).
  destruct Hscc as [Hs | Hs]; [discriminate Hs|].
  destruct Hs as [-> | [-> | ->]]; lia.
Defined.

(** X24.  The low-speed steer alert cannot come on for the parameters that
    [_get_params] returns from parameters whose [minSteerSpeed] is at most
    10 (the standard parameters set it to 0): [_get_params] leaves
    [minSteerSpeed] as it is or sets it to 0, and the alert, off on a new
    interface, then stays off over any sequence of cycles. *)
Theorem low_speed_alert_never_comes_on :
  forall (params : Hyundai.Params) (ret ret' : Hyundai.CarParams)
         (fp : Hyundai.fingerprint) (speeds : list Q),
    Hyundai._get_params params ret fp = Ok ret' ->
    (Hyundai.minSteerSpeed ret <= 10)%Q ->
    (Hyundai.minSteerSpeed ret' = 0%Q
     \/ Hyundai.minSteerSpeed ret' = Hyundai.minSteerSpeed ret)
    /\ fold_left (low_speed_alert_update (Hyundai.minSteerSpeed ret')) speeds
         false = false.
Proof.
  intros params ret ret' fp speeds Hret Hstd.
  destruct (get_params_returns params ret ret' fp Hret)
    as (f0 & _ & _ & _ & _ & _ & _ & Hmin & _).
  assert (Hcase : Hyundai.minSteerSpeed ret' = 0%Q
                  \/ Hyundai.minSteerSpeed ret' = Hyundai.minSteerSpeed ret)
    by (rewrite Hmin; destruct (Hyundai.seen 682 f0); auto).
  split; [exact Hcase|].
  apply low_speed_alert_stays_off.
  destruct Hcase as [-> | ->]; [discriminate | exact Hstd].
Qed.

Lemma low_speed_alert_never_comes_on_witness :
  exists ret',
    Hyundai._get_params (Hyundai.mkParams false false) Hyundai.std_params
      Hyundai.fp_no_scc = Ok ret'
    /\ fold_left (low_speed_alert_update (Hyundai.minSteerSpeed ret'))
         [3; 0; 12]%Q false = false.
Proof.
  eexists. split; [reflexivity|].
  apply (low_speed_alert_never_comes_on (Hyundai.mkParams false false)
           Hyundai.std_params _ Hyundai.fp_no_scc [3; 0; 12]%Q eq_refl).
  discriminate.
Defined.


(** X25.  The bus-topology part of [_get_params] (lines 323 to 354) fails
    only with a KeyError, and exactly when the fingerprint lacks the map of
    bus 0 or of bus 1, or lacks the map of bus 2 while message 1056 is
    neither on bus 0 nor usable on bus 1 (absent there, or next to message
    1296).  Bus 2 is not looked at when the SCC messages are found on bus 0
    or 1, and no bus beyond 2 is ever looked at: two fingerprints that
    agree on buses 0, 1 and 2 give the same outcome. *)
Theorem bus_topology_key_errors :
  forall (params : Hyundai.Params) (ret : Hyundai.CarParams)
         (fp : Hyundai.fingerprint),
    (forall e, Hyundai._get_params params ret fp = Raise e -> e = KeyError)
    /\ (Hyundai._get_params params ret fp = Raise KeyError
        <-> fp !! 0%Z = None \/ fp !! 1%Z = None
            \/ exists f0 f1,
                 fp !! 0%Z = Some f0 /\ fp !! 1%Z = Some f1
                 /\ Hyundai.seen 1056 f0 = false
                 /\ (Hyundai.seen 1056 f1 = false \/ Hyundai.seen 1296 f1 = true)
                 /\ fp !! 2%Z = None)
    /\ (forall fp' : Hyundai.fingerprint,
          fp' !! 0%Z = fp !! 0%Z -> fp' !! 1%Z = fp !! 1%Z ->
          fp' !! 2%Z = fp !! 2%Z ->
          Hyundai._get_params params ret fp' = Hyundai._get_params params ret fp).
Proof.
  intros params ret fp.
  assert (Hsame : forall fp' : Hyundai.fingerprint,
            fp' !! 0%Z = fp !! 0%Z -> fp' !! 1%Z = fp !! 1%Z ->
            fp' !! 2%Z = fp !! 2%Z ->
            Hyundai._get_params params ret fp' = Hyundai._get_params params ret fp).
  { intros fp' H0 H1 H2. unfold Hyundai._get_params, Hyundai.getitem.
    rewrite H0, H1.
    destruct (fp !! 0%Z) as [f0|] eqn:E0; cbn [mbind result_bind];
      [|reflexivity].
    destruct (fp !! 1%Z) as [f1|] eqn:E1; cbn [mbind result_bind];
      [|reflexivity].
    destruct (Hyundai.seen 1056 f0); cbn [mbind result_bind].
    - change (0 <=? 0)%Z with true. cbn iota. now rewrite H0, E0.
    - destruct (Hyundai.seen 1056 f1 && negb (Hyundai.seen 1296 f1));
        cbn [mbind result_bind].
      + change (0 <=? 1)%Z with true. cbn iota. now rewrite H1, E1.
      + rewrite H2.
        destruct (fp !! 2%Z) as [f2|] eqn:E2; cbn [mbind result_bind];
          [|reflexivity].
        destruct (Hyundai.seen 1056 f2).
        * change (0 <=? 2)%Z with true. cbn iota. now rewrite H2, E2.
        * reflexivity. }
  assert (Hout :
    match fp !! 0%Z, fp !! 1%Z with
    | Some f0, Some f1 =>
        if Hyundai.seen 1056 f0
           || (Hyundai.seen 1056 f1 && negb (Hyundai.seen 1296 f1))
        then exists r, Hyundai._get_params params ret fp = Ok r
        else match fp !! 2%Z with
             | Some _ => exists r, Hyundai._get_params params ret fp = Ok r
             | None => Hyundai._get_params params ret fp = Raise KeyError
             end
    | _, _ => Hyundai._get_params params ret fp = Raise KeyError
    end).
  { unfold Hyundai._get_params, Hyundai.getitem.
    destruct (fp !! 0%Z) as [f0|] eqn:H0; cbn [mbind result_bind];
      [|now destruct (fp !! 1%Z)].
    destruct (fp !! 1%Z) as [f1|] eqn:H1; cbn [mbind result_bind];
      [|reflexivity].
    destruct (Hyundai.seen 1056 f0); cbn [orb mbind result_bind].
    - change (0 <=? 0)%Z with true. cbn iota. rewrite H0. eauto.
    - destruct (Hyundai.seen 1056 f1 && negb (Hyundai.seen 1296 f1));
        cbn [mbind result_bind].
      + change (0 <=? 1)%Z with true. cbn iota. rewrite H1. eauto.
      + destruct (fp !! 2%Z) as [f2|] eqn:H2; cbn [mbind result_bind];
          [|reflexivity].
        destruct (Hyundai.seen 1056 f2).
        * change (0 <=? 2)%Z with true. cbn iota. rewrite H2. eauto.
        * eauto. }
  split; [|split; [|exact Hsame]].
  - intros e He.
    destruct (fp !! 0%Z) as [f0|]; [|congruence].
    destruct (fp !! 1%Z) as [f1|]; [|congruence].
    destruct (Hyundai.seen 1056 f0
              || (Hyundai.seen 1056 f1 && negb (Hyundai.seen 1296 f1)));
      [destruct Hout; congruence|].
    destruct (fp !! 2%Z); [destruct Hout|]; congruence.
  - destruct (fp !! 0%Z) as [f0|]; [|split; auto].
    destruct (fp !! 1%Z) as [f1|]; [|split; auto].
    destruct (Hyundai.seen 1056 f0) eqn:E0; cbn [orb] in Hout.
    + destruct Hout as [r ->]. split; [discriminate|].
      intros [Habs | [Habs | (g0 & g1 & Hg0 & _ & Hs & _)]];
        [discriminate | discriminate | congruence].
    + destruct (Hyundai.seen 1056 f1) eqn:E1, (Hyundai.seen 1296 f1) eqn:E2;
        cbn [andb negb] in Hout.
      * destruct (fp !! 2%Z) as [f2|].
        -- destruct Hout as [r ->]. split; [discriminate|].
           intros [Habs | [Habs | (g0 & g1 & _ & _ & _ & _ & Hs)]]; discriminate.
        -- split; [|intros _; exact Hout].
           intros _. right; right. exists f0, f1. repeat split; auto.
      * destruct Hout as [r ->]. split; [discriminate|].
        intros [Habs | [Habs | (g0 & g1 & _ & Hg1 & _ & Hs & _)]];
          [discriminate | discriminate |].
        injection Hg1 as <-. destruct Hs; congruence.
      * destruct (fp !! 2%Z) as [f2|].
        -- destruct Hout as [r ->]. split; [discriminate|].
           intros [Habs | [Habs | (g0 & g1 & _ & _ & _ & _ & Hs)]]; discriminate.
        -- split; [|intros _; exact Hout].
           intros _. right; right. exists f0, f1. repeat split; auto.
      * destruct (fp !! 2%Z) as [f2|].
        -- destruct Hout as [r ->]. split; [discriminate|].
           intros [Habs | [Habs | (g0 & g1 & _ & _ & _ & _ & Hs)]]; discriminate.
        -- split; [|intros _; exact Hout].
           intros _. right; right. exists f0, f1. repeat split; auto.
Qed.

End HyundaiUpdateFacts.

Module RadarUpdateFacts.
Import NumpyFast Radar RadarFacts RadarUpdate.

Lemma step_with_parser (self : Radar.RadarInterface) (parser : CANParser) :
  fst (_update (with_parser self parser)) = step self parser.
Proof. reflexivity. Qed.

(** The message of a cycle: the error list and the tracks held after it. *)
Lemma update_message (self : Radar.RadarInterface) (parser : CANParser) :
  snd (_update (with_parser self parser))
  = mkRadarData (if can_valid parser then [] else [canError])
      (values (pts (step self parser))).
Proof.
  unfold step. fold (with_parser self parser).
  unfold _update, with_parser. cbn [rcp pts track_id prev_dist].
  destruct (truthy (ACC_ObjStatus (vl_SCC11 parser))); [|reflexivity].
  destruct ((if jumped (ACC_ObjDist (vl_SCC11 parser)) (prev_dist self)
             then ∅ else pts self) !! 0%Z); reflexivity.
Qed.

(** A cycle with a valid reading leaves one track, in slot 0, with the
    fields of the reading; an invalid one leaves none. *)
Lemma step_single_slot (self : Radar.RadarInterface) (parser : CANParser) :
  single_slot self ->
  let msg := vl_SCC11 parser in
  if truthy (ACC_ObjStatus msg)
  then exists p,
         pts (step self parser)
         = {[0%Z := mkRadarPoint (trackId p) (ACC_ObjDist msg)
                      (- ACC_ObjLatPos msg)%Q (ACC_ObjRelSpd msg) NaN NaN true]}
         /\ (track_id self <= track_id (step self parser) <= track_id self + 1)%Z
  else pts (step self parser) = ∅
       /\ track_id (step self parser) = track_id self.
Proof.
  intros Hslot msg. subst msg.
  destruct (truthy (ACC_ObjStatus (vl_SCC11 parser))) eqn:Hv.
  - assert (Hcreate :
      (if jumped (ACC_ObjDist (vl_SCC11 parser)) (prev_dist self)
       then ∅ else pts self) !! 0%Z = None ->
      exists p,
        pts (step self parser)
        = {[0%Z := mkRadarPoint (trackId p) (ACC_ObjDist (vl_SCC11 parser))
                     (- ACC_ObjLatPos (vl_SCC11 parser))%Q
                     (ACC_ObjRelSpd (vl_SCC11 parser)) NaN NaN true]}
        /\ (track_id self <= track_id (step self parser) <= track_id self + 1)%Z).
    { intros Hnone.
      pose proof (step_create self parser Hv Hnone) as Hs. cbn zeta in Hs.
      rewrite Hs. cbn [pts track_id].
      assert (Hempty :
        (if jumped (ACC_ObjDist (vl_SCC11 parser)) (prev_dist self)
         then ∅ else pts self) = ∅).
      { destruct (jumped _ _); [reflexivity|].
        destruct Hslot as [-> | [p Hp]]; [reflexivity|].
        rewrite Hp, lookup_singleton_eq in Hnone. discriminate. }
      rewrite Hempty, insert_empty.
      exists (mkRadarPoint (track_id self) 0 0 0 (Fin 0) (Fin 0) false).
      split; [reflexivity | lia]. }
    destruct (jumped (ACC_ObjDist (vl_SCC11 parser)) (prev_dist self)) eqn:Hj.
    + apply Hcreate. apply lookup_empty.
    + destruct Hslot as [Hempty | [p Hp]].
      * apply Hcreate. rewrite Hempty. apply lookup_empty.
      * rewrite (step_update self parser p Hv Hj)
          by (rewrite Hp; apply lookup_singleton_eq).
        cbn [pts track_id]. rewrite Hp, alter_singleton_eq.
        exists p. split; [reflexivity | lia].
  - rewrite (step_invalid self parser Hv). cbn [pts track_id]. auto.
Qed.

Lemma step_keeps_single_slot (self : Radar.RadarInterface) (parser : CANParser) :
  single_slot self -> single_slot (step self parser).
Proof.
  intros Hslot. pose proof (step_single_slot self parser Hslot) as Hstep.
  cbn zeta in Hstep.
  destruct (truthy (ACC_ObjStatus (vl_SCC11 parser))).
  - destruct Hstep as (p & Hp & _). right. eauto.
  - left. apply Hstep.
Qed.

Lemma run_single_slot (cycles : list CANParser) :
  single_slot (Radar.run cycles)
  /\ (0 <= track_id (Radar.run cycles) <= Z.of_nat (length cycles))%Z.
Proof.
  induction cycles as [|parser cycles [IHslot IHid]] using rev_ind.
  - split; [now left | cbn; lia].
  - rewrite run_cycles_snoc. split; [now apply step_keeps_single_slot|].
    pose proof (step_single_slot (Radar.run cycles) parser IHslot) as Hstep.
    cbn zeta in Hstep. rewrite length_app. cbn [length].
    destruct (truthy (ACC_ObjStatus (vl_SCC11 parser))).
    + destruct Hstep as (p & _ & Hid). lia.
    + destruct Hstep as [_ ->]. lia.
Qed.

(** X26.  In single-object mode the radar message of a cycle, after any
    sequence of cycles, carries exactly one point when the SCC11 object
    status is set and none otherwise.  The point has the reported distance,
    the negated lateral position and the relative speed, no relative
    acceleration and no lateral speed (not-a-number), is marked measured,
    and its track id is below the next id to allocate.  The error list is
    empty exactly when the parser reports the bus valid.  A cycle
    allocates at most one track id: after [n] cycles the next id is between
    0 and [n]. *)
Theorem one_point_per_valid_reading :
  forall (cycles : list CANParser) (parser : CANParser),
    let self := Radar.run cycles in
    let msg := vl_SCC11 parser in
    let out := _update (with_parser self parser) in
    (if truthy (ACC_ObjStatus msg)
     then exists p,
            points (snd out) = [p]
            /\ dRel p = ACC_ObjDist msg
            /\ yRel p = (- ACC_ObjLatPos msg)%Q
            /\ vRel p = ACC_ObjRelSpd msg
            /\ aRel p = NaN /\ yvRel p = NaN /\ measured p = true
            /\ (trackId p < track_id (fst out))%Z
     else points (snd out) = [])
    /\ (errors (snd out) = [] <-> can_valid parser = true)
    /\ (track_id self <= track_id (fst out) <= track_id self + 1)%Z
    /\ (0 <= track_id self <= Z.of_nat (length cycles))%Z.
Proof.
  intros cycles parser self msg out. subst out.
  rewrite update_message, step_with_parser. cbn [points errors].
  destruct (run_single_slot cycles) as [Hslot Hid]. fold self in Hslot, Hid.
  pose proof (step_single_slot self parser Hslot) as Hstep.
  cbn zeta in Hstep. fold msg in Hstep.
  pose proof (step_ids_below self parser (run_ids_below cycles)) as Hbelow.
  split; [|split; [|split; [|exact Hid]]].
  - destruct (truthy (ACC_ObjStatus msg)).
    + destruct Hstep as (p & Hp & _).
      eexists. unfold values. rewrite Hp, map_to_list_singleton.
      split; [reflexivity|]. cbn.
      repeat split.
      apply (Hbelow 0%Z
               (mkRadarPoint (trackId p) (ACC_ObjDist msg) (- ACC_ObjLatPos msg)%Q
                  (ACC_ObjRelSpd msg) NaN NaN true)).
      rewrite Hp. apply lookup_singleton_eq.
    + destruct Hstep as [-> _]. unfold values. now rewrite map_to_list_empty.
  - destruct (can_valid parser); split; congruence.
  - destruct (truthy (ACC_ObjStatus msg)).
    + destruct Hstep as (p & _ & Hrange). exact Hrange.
    + destruct Hstep as [_ ->]. lia.
Qed.


Section WithParser.
Context {can_strings : Type}.
Variable update_strings : CANParser -> can_strings -> CANParser * list Z.

(** What a call keeps: the trigger message, the off-CAN flag, whether there
    is a parser, and a set of updated addresses without the trigger. *)
Lemma update_keeps (self : RadarInterface) (frames : can_strings) :
  trigger_msg self ∉ updated_messages self ->
  let self' := fst (update update_strings self frames) in
  trigger_msg self' = trigger_msg self
  /\ radar_off_can self' = radar_off_can self
  /\ (rcp (base self') = None <-> rcp (base self) = None)
  /\ trigger_msg self' ∉ updated_messages self'.
Proof.
  intros Hinv. unfold update.
  destruct (radar_off_can self) eqn:Hoff.
  - cbn [fst]. rewrite Hoff. tauto.
  - destruct (rcp (base self)) as [parser|] eqn:Hrcp.
    + destruct (update_strings parser frames) as [parser' vls].
      destruct (bool_decide (trigger_msg self
                             ∈ updated_messages self ∪ list_to_set vls)) eqn:E.
      * destruct (_update (with_parser (base self) parser')) as [base2 rr] eqn:Hup.
        cbn [fst trigger_msg radar_off_can base updated_messages].
        assert (Hb : base2 = step (base self) parser')
          by (rewrite <- step_with_parser, Hup; reflexivity).
        repeat split; try congruence.
        -- intros Hnone. exfalso. revert Hnone. rewrite Hb. unfold step, _update.
           cbn [rcp].
           destruct (truthy _);
             [destruct ((if jumped _ _ then _ else _) !! 0%Z)|]; discriminate.
        -- set_solver.
      * cbn [fst trigger_msg radar_off_can base updated_messages].
        apply bool_decide_eq_false in E.
        repeat split; try congruence; try discriminate.
    + cbn [fst]. rewrite Hoff, Hrcp. tauto.
Qed.

Lemma run_snoc_update (off : bool) (rcp0 : option CANParser)
    (calls : list can_strings) (frames : can_strings) :
  run update_strings off rcp0 (calls ++ [frames])
  = fst (update update_strings (run update_strings off rcp0 calls) frames).
Proof. unfold run. now rewrite fold_left_app. Qed.

Lemma run_keeps (off : bool) (rcp0 : option CANParser)
    (calls : list can_strings) :
  let self := run update_strings off rcp0 calls in
  trigger_msg self = 1056%Z /\ radar_off_can self = off
  /\ (rcp (base self) = None <-> rcp0 = None)
  /\ trigger_msg self ∉ updated_messages self.
Proof.
  induction calls as [|frames calls IH] using rev_ind.
  - cbn. repeat split; auto. set_solver.
  - rewrite run_snoc_update. cbn zeta in *.
    destruct IH as (Ht & Ho & Hr & Hinv).
    destruct (update_keeps _ frames Hinv) as (Ht' & Ho' & Hr' & Hinv').
    cbn zeta in *. repeat split; try congruence; tauto.
Qed.

(** X27.  [RadarInterface.update] answers only on the trigger message: after
    any sequence of calls, with the radar on the bus and a parser, a call
    whose decoded frames update message 0x420 returns the radar message of
    [_update] and leaves the set of updated addresses empty; any other call
    returns None, leaves the tracks, the next track id and the previous
    distance as they were, and adds the updated addresses to the set.  The
    set never holds 0x420 between calls, so messages updated in earlier
    calls never trigger an answer.  With the radar off the bus, or without
    a parser, every call returns an empty message and changes nothing. *)
Theorem update_answers_on_trigger_only :
  forall (off : bool) (rcp0 : option CANParser) (calls : list can_strings)
         (frames : can_strings),
    let self := run update_strings off rcp0 calls in
    let out := update update_strings self frames in
    (1056%Z ∉ updated_messages self)
    /\ (off = true \/ rcp0 = None ->
        out = (self, Some (mkRadarData [] [])))
    /\ (off = false -> rcp0 <> None ->
        exists parser, rcp (base self) = Some parser
          /\ let parser' := fst (update_strings parser frames) in
             let vls := snd (update_strings parser frames) in
             (1056%Z ∈ vls ->
              snd out = Some (snd (_update (with_parser (base self) parser')))
              /\ base (fst out) = step (base self) parser'
              /\ updated_messages (fst out) = ∅)
             /\ (1056%Z ∉ vls ->
                 snd out = None
                 /\ base (fst out) = with_parser (base self) parser'
                 /\ updated_messages (fst out)
                    = updated_messages self ∪ list_to_set vls)).
Proof.
  intros off rcp0 calls frames self out.
  destruct (run_keeps off rcp0 calls) as (Ht & Ho & Hr & Hinv).
  fold self in Ht, Ho, Hr, Hinv. rewrite Ht in Hinv.
  split; [exact Hinv|]. split.
  - intros Hcase. subst out. unfold update. rewrite Ho.
    destruct off; [reflexivity|].
    destruct Hcase as [Habs | Hnone]; [discriminate|].
    apply Hr in Hnone. now rewrite Hnone.
  - intros -> Hsome.
    destruct (rcp (base self)) as [parser|] eqn:Hrcp; [|tauto].
    exists parser. split; [reflexivity|]. cbn zeta.
    subst out. unfold update. rewrite Ho, Hrcp, Ht.
    destruct (update_strings parser frames) as [parser' vls]. cbn [fst snd].
    split.
    + intros Hin.
      rewrite bool_decide_eq_true_2
        by (apply elem_of_union_r, elem_of_list_to_set, Hin).
      destruct (_update (with_parser (base self) parser')) as [base2 rr] eqn:Hup.
      cbn [fst snd base updated_messages].
      repeat split. rewrite <- step_with_parser, Hup. reflexivity.
    + intros Hout.
      rewrite bool_decide_eq_false_2
        by (rewrite not_elem_of_union, elem_of_list_to_set; tauto).
      cbn [fst snd base updated_messages]. repeat split.
Qed.

End WithParser.

Lemma update_answers_on_trigger_only_witness :
  (exists rr,
     snd (update (fun p (f : list Z) => (p, f))
            (run (fun p (f : list Z) => (p, f)) false (Some (reading 50))
               [[1%Z]])
            [1056%Z]) = Some rr)
  /\ snd (update (fun p (f : list Z) => (p, f))
            (run (fun p (f : list Z) => (p, f)) true (Some (reading 50))
               [[1056%Z]])
            [1056%Z]) = Some (mkRadarData [] []).
Proof.
  split.
  - destruct (update_answers_on_trigger_only (fun p (f : list Z) => (p, f))
                false (Some (reading 50)) [[1%Z]] [1056%Z]) as (_ & _ & Hon).
    destruct Hon as (parser & _ & Hanswer & _); [reflexivity | discriminate|].
    destruct Hanswer as (Hrr & _); [cbn; apply list_elem_of_here|].
    eexists. exact Hrr.
  - destruct (update_answers_on_trigger_only (fun p (f : list Z) => (p, f))
                true (Some (reading 50)) [[1056%Z]] [1056%Z]) as (_ & Hoff & _).
    rewrite Hoff; [reflexivity | now left].
Defined.

End RadarUpdateFacts.

Module NNModelPathFacts.
Import NumpyFast NumpyFastFacts NNModelPath.
Import Lqa.

Section WithFiles.
Variable TORQUE_NN_MODEL_PATH : string.
Variable listdir : list string.
Variable path_join : string -> string -> string.
Variable similarity : string -> string -> Q.

(** The search keeps the first file with the highest score above -1. *)
Lemma check_files_best (car check_model : string) (files : list string) :
  forall (seen : list string) (best : option string * Q),
    let score f := similarity (model_name TORQUE_NN_MODEL_PATH f) check_model in
    let good (b : option string * Q) (fs : list string) :=
      (-1 <= snd b)%Q
      /\ (fst b = None -> snd b = (-1)%Q)
      /\ (forall p, fst b = Some p ->
            exists f, In f fs /\ is_model_of car f = true
              /\ p = path_join TORQUE_NN_MODEL_PATH f /\ snd b = score f)
      /\ (forall f, In f fs -> is_model_of car f = true -> (score f <= snd b)%Q) in
    good best seen ->
    good (fold_left (check_file TORQUE_NN_MODEL_PATH path_join similarity
                       car check_model) files best)
      (seen ++ files).
Proof.
  induction files as [|f files IH]; intros seen best score good Hgood.
  - cbn [fold_left]. now rewrite app_nil_r.
  - cbn [fold_left].
    replace (seen ++ f :: files) with ((seen ++ [f]) ++ files)
      by now rewrite <- app_assoc.
    apply IH. clear IH. subst good. cbn beta in *.
    destruct Hgood as (Hlow & Hnone & Hsome & Hmax).
    unfold check_file. fold (score f).
    set (sf := score f) in *. subst score. cbn beta in *.
    destruct (is_model_of car f) eqn:Hf.
    + destruct (a_ltb (snd best) sf) eqn:E;
        [apply ltb_Q_true in E | apply ltb_Q_false in E]; cbn [fst snd].
      * split; [lra|]. split; [discriminate|]. split.
        -- intros p Hp. injection Hp as <-. exists f.
           rewrite in_app_iff. cbn. auto.
        -- intros g Hg Hgm. apply in_app_iff in Hg as [Hg | [<- | []]].
           ++ specialize (Hmax g Hg Hgm). lra.
           ++ apply Qle_refl.
      * split; [exact Hlow|]. split; [exact Hnone|]. split.
        -- intros p Hp. destruct (Hsome p Hp) as (g & Hg & Hrest).
           exists g. rewrite in_app_iff. auto.
        -- intros g Hg Hgm. apply in_app_iff in Hg as [Hg | [<- | []]];
             [now apply Hmax | exact E].
    + split; [exact Hlow|]. split; [exact Hnone|]. split.
      * intros p Hp. destruct (Hsome p Hp) as (g & Hg & Hrest).
        exists g. rewrite in_app_iff. auto.
      * intros g Hg Hgm. apply in_app_iff in Hg as [Hg | [<- | []]];
          [now apply Hmax | congruence].
Qed.

Lemma check_nn_path_best (car check_model : string) :
  let score f := similarity (model_name TORQUE_NN_MODEL_PATH f) check_model in
  let best := check_nn_path TORQUE_NN_MODEL_PATH listdir path_join similarity
                car check_model in
  (-1 <= snd best)%Q
  /\ (fst best = None -> snd best = (-1)%Q)
  /\ (forall p, fst best = Some p ->
        exists f, In f listdir /\ is_model_of car f = true
          /\ p = path_join TORQUE_NN_MODEL_PATH f /\ snd best = score f)
  /\ (forall f, In f listdir -> is_model_of car f = true ->
        (score f <= snd best)%Q).
Proof.
  apply (check_files_best car check_model listdir [] (None, (-1)%Q)).
  cbn. repeat split; try discriminate. intros f [].
Qed.

(** X28.  [get_nn_model_path] returns a model path exactly when the returned
    similarity is at least 0.9, and never a path with a lower one.  A
    returned path is [os.path.join] of the model directory and a listed
    file whose name ends in ".json" and contains the rewritten car name;
    the similarity is that file's score against the name searched for (the
    car name with the firmware, or the car name alone), and no listed file
    of that car scores higher against it.  Without any such file the call
    returns no path and the similarity -1. *)
Theorem nn_model_path_needs_similarity :
  forall car eps_firmware : string,
    let out := get_nn_model_path TORQUE_NN_MODEL_PATH listdir path_join
                 similarity car eps_firmware in
    let name := car_name car in
    (fst out = None <-> (snd out < 9 # 10)%Q)
    /\ (forall p, fst out = Some p ->
          exists f check_model,
            In f listdir /\ is_model_of name f = true
            /\ p = path_join TORQUE_NN_MODEL_PATH f
            /\ (check_model = name
                \/ check_model
                   = name +:+ " " +:+ replace backslash EmptyString eps_firmware)
            /\ snd out
               = similarity (model_name TORQUE_NN_MODEL_PATH f) check_model
            /\ forall g, In g listdir -> is_model_of name g = true ->
                 (similarity (model_name TORQUE_NN_MODEL_PATH g) check_model
                  <= snd out)%Q)
    /\ ((forall f, In f listdir -> is_model_of name f = false) ->
        out = (None, (-1)%Q)).
Proof.
  intros car fw out name. subst out. unfold get_nn_model_path. fold name.
  set (full := if (3 <? String.length fw)%nat
               then name +:+ " " +:+ replace backslash EmptyString fw
               else name).
  assert (Hfull : full = name
                  \/ full = name +:+ " " +:+ replace backslash EmptyString fw)
    by (subst full; destruct (3 <? String.length fw)%nat; auto).
  pose proof (check_nn_path_best name full) as H1.
  pose proof (check_nn_path_best name name) as H2.
  cbn zeta in H1, H2.
  destruct (check_nn_path _ _ _ _ name full) as [path1 sim1].
  destruct (check_nn_path _ _ _ _ name name) as [path2 sim2].
  cbn [fst snd] in H1, H2.
  destruct H1 as (Hlow1 & Hnone1 & Hsome1 & Hmax1).
  destruct H2 as (Hlow2 & Hnone2 & Hsome2 & Hmax2).
  assert (Hno : (forall f, In f listdir -> is_model_of name f = false) ->
                path1 = None /\ sim1 = (-1)%Q /\ path2 = None /\ sim2 = (-1)%Q).
  { intros Hnot.
    assert (path1 = None).
    { destruct path1 as [p|]; [|reflexivity].
      destruct (Hsome1 p eq_refl) as (f & Hf & Hm & _).
      rewrite (Hnot f Hf) in Hm. discriminate. }
    assert (path2 = None).
    { destruct path2 as [p|]; [|reflexivity].
      destruct (Hsome2 p eq_refl) as (f & Hf & Hm & _).
      rewrite (Hnot f Hf) in Hm. discriminate. }
    auto. }
  destruct (a_ltb sim1 (9 # 10)%Q) eqn:E1;
    [apply ltb_Q_true in E1 | apply ltb_Q_false in E1].
  - destruct (a_ltb sim2 (9 # 10)%Q) eqn:E2;
      [apply ltb_Q_true in E2 | apply ltb_Q_false in E2]; cbn [fst snd].
    + split; [tauto|]. split; [discriminate|].
      intros Hnot. destruct (Hno Hnot) as (_ & _ & _ & ->). reflexivity.
    + split; [|split].
      * split; [|intros; lra].
        intros Hnone. rewrite (Hnone2 Hnone) in E2. lra.
      * intros p Hp. destruct (Hsome2 p Hp) as (f & Hf & Hm & Hpath & Hsim).
        exists f, name. repeat split; auto.
      * intros Hnot. destruct (Hno Hnot) as (_ & _ & _ & Hs).
        rewrite Hs in E2. lra.
  - cbn [fst snd]. split; [|split].
    + split; [|intros; lra].
      intros Hnone. rewrite (Hnone1 Hnone) in E1. lra.
    + intros p Hp. destruct (Hsome1 p Hp) as (f & Hf & Hm & Hpath & Hsim).
      exists f, full. repeat split; auto.
    + intros Hnot. destruct (Hno Hnot) as (_ & Hs & _).
      rewrite Hs in E1. lra.
Qed.

End WithFiles.

Lemma nn_model_path_needs_similarity_witness :
  get_nn_model_path "lat_models" ["KIA NIRO EV.json"; "notes.txt"]%string
    (fun d f => d +:+ "/" +:+ f) (fun _ _ => 1%Q) "KIA_NIRO_HEV" "1.0"
  = (None, (-1)%Q).
Proof.
  destruct (nn_model_path_needs_similarity "lat_models"
              ["KIA NIRO EV.json"; "notes.txt"]%string
              (fun d f => d +:+ "/" +:+ f) (fun _ _ => 1%Q)
              "KIA_NIRO_HEV" "1.0") as (_ & _ & Hnone).
  apply Hnone. intros f [<- | [<- | []]]; reflexivity.
Defined.

End NNModelPathFacts.

Module TorqueLegendFacts.
Import TorqueParams TorqueParamsFacts.

Section WithValues.
Context `{Countable V}.

(** A row shorter than the legend stops the comprehension. *)
Lemma keyed_by_short_row (legend : list (cell V)) :
  forall (i : nat) (out : list (cell V)) (acc : gmap (cell V) (cell V)),
    i <= length out -> length out < i + length legend ->
    keyed_by legend i out acc = Raise IndexError.
Proof.
  induction legend as [|key legend IH]; intros i out acc Hi Hlen;
    cbn [keyed_by length] in *.
  - lia.
  - destruct (out !! i) as [v|] eqn:Hv; [|reflexivity].
    apply lookup_lt_Some in Hv. apply IH; lia.
Qed.

(** The record of a comprehension that ran to its end: its keys, and the
    cell under a key, which is the one at the key's last position. *)
Lemma keyed_by_record (legend : list (cell V)) :
  forall (i : nat) (out : list (cell V)) (acc m : gmap (cell V) (cell V)),
    keyed_by legend i out acc = Ok m ->
    (forall key, key ∉ legend -> m !! key = acc !! key)
    /\ (forall key, key ∈ legend -> is_Some (m !! key))
    /\ (forall j key, legend !! j = Some key ->
          (forall j', j < j' -> legend !! j' <> Some key) ->
          m !! key = out !! (i + j)).
Proof.
  induction legend as [|key0 legend IH]; intros i out acc m Hm; cbn in Hm.
  - injection Hm as <-. split; [reflexivity|]. split.
    + intros key Hin. now apply elem_of_nil in Hin.
    + intros j key Hj. discriminate.
  - destruct (out !! i) as [v|] eqn:Hv; [|discriminate].
    destruct (IH (S i) out (<[key0 := v]> acc) m Hm) as (Hout & Hin & Hlast).
    split; [|split].
    + intros key Hkey. apply not_elem_of_cons in Hkey as [Hne Hkey].
      rewrite Hout by exact Hkey. now apply lookup_insert_ne.
    + intros key Hkey.
      destruct (decide (key ∈ legend)) as [Hl | Hl]; [now apply Hin|].
      apply elem_of_cons in Hkey as [-> | Hkey]; [|contradiction].
      rewrite Hout by exact Hl. rewrite lookup_insert_eq. eauto.
    + intros j key Hj Hlater. destruct j as [|j]; cbn in Hj.
      * injection Hj as <-.
        assert (Hfresh : key0 ∉ legend).
        { intros Hk. apply list_elem_of_lookup in Hk as [j' Hj'].
          apply (Hlater (S j')); [lia | exact Hj']. }
        rewrite Hout by exact Hfresh.
        now rewrite lookup_insert_eq, Nat.add_0_r.
      * replace (i + S j) with (S i + j) by lia.
        apply Hlast; [exact Hj|].
        intros j' Hlt. apply (Hlater (S j')). lia.
Qed.

(** X29.  Once [get_torque_params] has found the candidate's row (in the
    override table or in the base table, without conflict), the legend of
    the base table decides the outcome: a base table without a 'legend'
    entry raises KeyError; a row shorter than the legend raises IndexError;
    otherwise the call returns a record whose keys are exactly the legend's
    entries, each holding the row's cell at the key's last position in the
    legend.  Cells of the row beyond the legend's length are dropped. *)
Theorem legend_decides_the_record :
  forall (sub : gmap string string)
         (params override : gmap string (list (cell V)))
         (candidate : string) (row : list (cell V)),
    let c := default candidate (sub !! candidate) in
    let r := get_torque_params sub params override candidate in
    sub !! c = None ->
    (override !! c = Some row /\ params !! c = None)
    \/ (override !! c = None /\ params !! c = Some row) ->
    (params !! "legend"%string = None -> r = Raise KeyError)
    /\ (forall legend, params !! "legend"%string = Some legend ->
          (length row < length legend -> r = Raise IndexError)
          /\ (length legend <= length row ->
              exists m, r = Ok m
                /\ (forall key, is_Some (m !! key) <-> key ∈ legend)
                /\ (forall j key, legend !! j = Some key ->
                      (forall j', j < j' -> legend !! j' <> Some key) ->
                      m !! key = row !! j))).
Proof.
  intros sub params override candidate row c r Hsub Hrow.
  assert (Hr : r = (legend ← match params !! "legend"%string with
                             | Some l => Ok l
                             | None => Raise KeyError
                             end;
                    keyed_by legend 0 row ∅)).
  { subst r. unfold get_torque_params.
    assert (Hc : match sub !! candidate with
                 | Some c0 => c0
                 | None => candidate
                 end = c) by (subst c; now destruct (sub !! candidate)).
    rewrite Hc. rewrite (py_in_false _ _ Hsub).
    destruct Hrow as [[Ho Hp] | [Ho Hp]].
    - rewrite (py_in_true _ _ _ Ho), (py_in_false _ _ Hp). cbn.
      now rewrite Ho.
    - rewrite (py_in_false _ _ Ho), (py_in_true _ _ _ Hp). cbn.
      now rewrite Ho, Hp. }
  rewrite Hr. clear Hr. split.
  - now intros ->.
  - intros legend ->. cbn [mbind result_bind]. split.
    + intros Hshort. apply keyed_by_short_row; [lia | exact Hshort].
    + intros Hlong.
      destruct (keyed_by_spec legend 0 row ∅ ltac:(cbn; lia)) as (m & Hm & _).
      destruct (keyed_by_record legend 0 row ∅ m Hm) as (Hout & Hin & Hlast).
      exists m. split; [exact Hm|]. split; [|exact Hlast].
      intros key. split; [|apply Hin].
      intros Hsome. destruct (decide (key ∈ legend)) as [Hl | Hl]; [exact Hl|].
      rewrite (Hout key Hl), lookup_empty in Hsome. now destruct Hsome.
Qed.

End WithValues.

Lemma legend_decides_the_record_witness :
  get_torque_params sub_ex (delete "legend"%string params_ex) override_ex
    "KIA STINGER"%string = Raise KeyError
  /\ get_torque_params sub_ex
       (<["legend"%string := legend_ex ++ [CStr "EXTRA"%string]]> params_ex)
       override_ex "KIA STINGER"%string = Raise IndexError.
Proof.
  split.
  - destruct (legend_decides_the_record sub_ex
                (delete "legend"%string params_ex) override_ex
                "KIA STINGER"%string [CNum 31%Z; CNum 18%Z; CNum 2%Z])
      as [Hkey _]; [vm_compute; reflexivity | left; vm_compute; auto |].
    apply Hkey. vm_compute. reflexivity.
  - destruct (legend_decides_the_record sub_ex
                (<["legend"%string := legend_ex ++ [CStr "EXTRA"%string]]>
                   params_ex) override_ex
                "KIA STINGER"%string [CNum 31%Z; CNum 18%Z; CNum 2%Z])
      as [_ Hlegend]; [vm_compute; reflexivity | left; vm_compute; auto |].
    destruct (Hlegend (legend_ex ++ [CStr "EXTRA"%string])) as [Hshort _];
      [vm_compute; reflexivity|].
    apply Hshort. cbn. lia.
Defined.

End TorqueLegendFacts.
